(** * Buffer manager: a shallow embedding of [buffer_mgr.c]

    The C file keeps six process-wide counters, one array of page frames
    behind [b_mgr->mgmtData], and talks to a storage manager through
    [openPageFile], [ensureCapacity], [readBlock] and [writeBlock].  The
    embedding threads all of that through one [World] value.

    Conventions of the embedding:
    - a C [int] is a [Z]: overflow of the counters, undefined for a
      signed [int] in C, is not modelled;
    - [a % b] is [Z.rem] (C99 truncation), undefined for [b = 0];
    - an array access outside the allocated frames, any access through a
      null [mgmtData] and a remainder by zero are [Undefined];
    - a loop that cannot leave is [Diverges], carrying the world it
      spins in;
    - [malloc] is assumed to succeed. *)

From Stdlib Require Import ZArith Lia String.
From stdpp Require Import base option list.

Local Open Scope Z_scope.

(** ** Data *)

(** A page-sized buffer, by value. *)
Definition Block := list Byte.byte.

(** Modelled from the spec: the return codes of [dberror.h], which is not
    among the sources.  Only the names used by [buffer_mgr.c] appear, as
    the distinct constants of one enumeration. *)
Inductive RC :=
| RC_OK
| RC_ERROR
| RC_BUFFER_POOL_SHUTDOWN_ERROR
| RC_PINNED_PAGES_IN_BUFFER
| RC_POOL_NOT_OPEN
| RC_PAGE_NOT_PINNED
| RC_PAGE_NOT_IN_FRAMELIST
| RC_NEGATIVE_PAGE_NUM.

(** Modelled from the spec: [ReplacementStrategy] of [buffer_mgr.h]. *)
Inductive ReplacementStrategy := RS_FIFO | RS_LRU | RS_CLOCK | RS_LFU | RS_LRU_K.

(** Modelled from the spec: [PageFrame] of [buffer_mgr.h], with the six
    members the code reads and writes.  [data = None] is the null
    pointer. *)
Record PageFrame := mkFrame {
  data : option Block;
  pageNum : Z;
  dirtyBit : Z;
  fixCount : Z;
  hitNum : Z;
  refNum : Z
}.

(** Modelled from the spec: [BM_PageHandle] of [buffer_mgr.h]. *)
Record BM_PageHandle := mkHandle {
  ph_pageNum : Z;
  ph_data : option Block
}.

(** Modelled from the spec: what the page store is asked to do, in the
    order it is asked. *)
Inductive IOEvent :=
| EvEnsure (n : Z)
| EvRead (n : Z)
| EvWrite (n : Z) (d : option Block).

(** The six globals of the file, the fields of the one [BM_BufferPool]
    and the page store. *)
Record World := mkWorld {
  bufferSize : Z;
  rearIndex : Z;
  writeCount : Z;
  hit : Z;
  clockPointer : Z;
  lfuPointer : Z;
  pageFile : option string;
  numPages : Z;
  strategy : ReplacementStrategy;
  mgmtData : option (list PageFrame);
  blocks : list (Z * Block);
  trace : list IOEvent
}.

Definition NO_PAGE : Z := -1.

(** ** Outcomes *)

Inductive outcome (A : Type) :=
| Ret (a : A)
| Undefined
| Diverges (w : World).
Arguments Ret {A} a.
Arguments Undefined {A}.
Arguments Diverges {A} w.

#[global] Instance outcome_ret : MRet outcome := fun A a => Ret a.
#[global] Instance outcome_bind : MBind outcome := fun A B k m =>
  match m with
  | Ret a => k a
  | Undefined => Undefined
  | Diverges w => Diverges w
  end.

Definition defined {A} (o : option A) : outcome A :=
  match o with Some a => Ret a | None => Undefined end.

(** [a % b] *)
Definition c_rem (a b : Z) : outcome Z :=
  if b =? 0 then Undefined else Ret (Z.rem a b).

(** [a[i]] *)
Definition frameAt (a : list PageFrame) (i : Z) : outcome PageFrame :=
  if i <? 0 then Undefined else defined (a !! Z.to_nat i).

(** [a[i] = f]; only used after [a[i]] has been read. *)
Definition setFrame (a : list PageFrame) (i : Z) (f : PageFrame) : list PageFrame :=
  <[Z.to_nat i := f]> a.

(** [(PageFrame * ) b_mgr->mgmtData], used as an array: the null pointer
    has no element that can be read. *)
Definition framesOf (w : World) : list PageFrame := default [] (mgmtData w).

(** ** Field updates *)

Definition set_data (f : PageFrame) (v : option Block) : PageFrame :=
  mkFrame v (pageNum f) (dirtyBit f) (fixCount f) (hitNum f) (refNum f).
Definition set_pageNum (f : PageFrame) (v : Z) : PageFrame :=
  mkFrame (data f) v (dirtyBit f) (fixCount f) (hitNum f) (refNum f).
Definition set_dirtyBit (f : PageFrame) (v : Z) : PageFrame :=
  mkFrame (data f) (pageNum f) v (fixCount f) (hitNum f) (refNum f).
Definition set_fixCount (f : PageFrame) (v : Z) : PageFrame :=
  mkFrame (data f) (pageNum f) (dirtyBit f) v (hitNum f) (refNum f).
Definition set_hitNum (f : PageFrame) (v : Z) : PageFrame :=
  mkFrame (data f) (pageNum f) (dirtyBit f) (fixCount f) v (refNum f).
Definition set_refNum (f : PageFrame) (v : Z) : PageFrame :=
  mkFrame (data f) (pageNum f) (dirtyBit f) (fixCount f) (hitNum f) v.

Definition with_rearIndex (w : World) (v : Z) : World :=
  mkWorld (bufferSize w) v (writeCount w) (hit w) (clockPointer w) (lfuPointer w)
          (pageFile w) (numPages w) (strategy w) (mgmtData w) (blocks w) (trace w).
Definition with_writeCount (w : World) (v : Z) : World :=
  mkWorld (bufferSize w) (rearIndex w) v (hit w) (clockPointer w) (lfuPointer w)
          (pageFile w) (numPages w) (strategy w) (mgmtData w) (blocks w) (trace w).
Definition with_hit (w : World) (v : Z) : World :=
  mkWorld (bufferSize w) (rearIndex w) (writeCount w) v (clockPointer w) (lfuPointer w)
          (pageFile w) (numPages w) (strategy w) (mgmtData w) (blocks w) (trace w).
Definition with_clockPointer (w : World) (v : Z) : World :=
  mkWorld (bufferSize w) (rearIndex w) (writeCount w) (hit w) v (lfuPointer w)
          (pageFile w) (numPages w) (strategy w) (mgmtData w) (blocks w) (trace w).
Definition with_lfuPointer (w : World) (v : Z) : World :=
  mkWorld (bufferSize w) (rearIndex w) (writeCount w) (hit w) (clockPointer w) v
          (pageFile w) (numPages w) (strategy w) (mgmtData w) (blocks w) (trace w).
Definition with_mgmtData (w : World) (v : option (list PageFrame)) : World :=
  mkWorld (bufferSize w) (rearIndex w) (writeCount w) (hit w) (clockPointer w) (lfuPointer w)
          (pageFile w) (numPages w) (strategy w) v (blocks w) (trace w).
Definition with_frames (w : World) (a : list PageFrame) : World :=
  with_mgmtData w (Some a).
Definition with_store (w : World) (b : list (Z * Block)) (t : list IOEvent) : World :=
  mkWorld (bufferSize w) (rearIndex w) (writeCount w) (hit w) (clockPointer w) (lfuPointer w)
          (pageFile w) (numPages w) (strategy w) (mgmtData w) b t.

(** ** The page store *)

(** Modelled from the spec: [readBlock(pageNumber, handle) -> bytes].  The
    store keeps the blocks written so far, newest first; a page never
    written reads as the empty block. *)
Fixpoint lookupBlock (b : list (Z * Block)) (n : Z) : Block :=
  match b with
  | [] => []
  | (m, d) :: b' => if m =? n then d else lookupBlock b' n
  end.

Definition readBlock (n : Z) (w : World) : Block * World :=
  (lookupBlock (blocks w) n, with_store w (blocks w) (trace w ++ [EvRead n])).

(** Modelled from the spec: [writeBlock(pageNumber, handle, buffer)]. *)
Definition writeBlock (n : Z) (d : option Block) (w : World) : World :=
  with_store w
    (match d with Some b => (n, b) :: blocks w | None => blocks w end)
    (trace w ++ [EvWrite n d]).

(** Modelled from the spec: [ensureCapacity(pageNumber, handle)]. *)
Definition ensureCapacity (n : Z) (w : World) : World :=
  with_store w (blocks w) (trace w ++ [EvEnsure n]).

(** ** Loops over the frame array *)

(** [for (; n iterations; i++) if (p(a[i])) break;] : the index where the
    loop broke, if it did. *)
Fixpoint first_index (p : PageFrame -> bool) (a : list PageFrame) (i : Z) (n : nat)
  : outcome (option Z) :=
  match n with
  | O => Ret None
  | S n' =>
      f ← frameAt a i;
      if p f then Ret (Some i) else first_index p a (i + 1) n'
  end.

(** [for (; n iterations; i++) out[i] = g(a[i]);] *)
Fixpoint read_all {A} (g : PageFrame -> A) (a : list PageFrame) (i : Z) (n : nat)
  : outcome (list A) :=
  match n with
  | O => Ret []
  | S n' =>
      f ← frameAt a i;
      r ← read_all g a (i + 1) n';
      Ret (g f :: r)
  end.

(** ** initBufferPool *)

Definition emptyFrame : PageFrame := mkFrame None (-1) 0 0 0 0.

Definition initBufferPool (w : World) (pageFN : option string) (numPages : Z)
    (strategy : ReplacementStrategy) : RC * World :=
  (RC_OK,
   mkWorld numPages (rearIndex w) 0 (hit w) 0 0
           pageFN numPages strategy
           (Some (replicate (Z.to_nat numPages) emptyFrame))
           (blocks w) (trace w)).

(** The state of a process that has not touched the buffer manager: the
    globals as initialised in the file, no pool, a given page store. *)
Definition startWorld (b : list (Z * Block)) : World :=
  mkWorld 0 0 0 0 0 0 None 0 RS_FIFO None b [].

(** ** persistPage and the five policies *)

Definition persistPage (w : World) (pageFrame : PageFrame) : World :=
  let w1 := writeBlock (pageNum pageFrame) (data pageFrame) w in
  with_writeCount w1 (writeCount w1 + 1).

(** The [while] of FIFO.  The frames are only read, so after
    [length pageFrame] pinned slots in a row the scan is back where it
    started and goes round for ever. *)
Fixpoint FIFO_scan (fuel : nat) (w : World) (pageFrame : list PageFrame) (frontIndex : Z)
  : outcome Z :=
  match fuel with
  | O => Diverges w
  | S fuel' =>
      f ← frameAt pageFrame frontIndex;
      if 0 <? fixCount f then
        next ← c_rem (frontIndex + 1) (bufferSize w);
        FIFO_scan fuel' w pageFrame next
      else Ret frontIndex
  end.

Definition FIFO (w : World) (page : PageFrame) : outcome World :=
  let pageFrame := framesOf w in
  frontIndex ← c_rem (rearIndex w) (bufferSize w);
  frontIndex ← FIFO_scan (length pageFrame) w pageFrame frontIndex;
  f ← frameAt pageFrame frontIndex;
  let w1 := if dirtyBit f =? 1 then persistPage w f else w in
  Ret (with_frames w1 (setFrame pageFrame frontIndex page)).

(** The first [for] of LFU: [leastFreqIndex] is not changed by an
    iteration that does not break. *)
Fixpoint LFU_first (n : nat) (w : World) (pageFrame : list PageFrame)
    (leastFreqIndex leastFreqRef i : Z) : outcome (Z * Z) :=
  match n with
  | O => Ret (leastFreqIndex, leastFreqRef)
  | S n' =>
      f ← frameAt pageFrame leastFreqIndex;
      if fixCount f =? 0 then
        x ← c_rem (leastFreqIndex + i) (bufferSize w);
        g ← frameAt pageFrame x;
        Ret (x, refNum g)
      else LFU_first n' w pageFrame leastFreqIndex leastFreqRef (i + 1)
  end.

(** The second [for] of LFU. *)
Fixpoint LFU_second (n : nat) (w : World) (pageFrame : list PageFrame)
    (leastFreqIndex leastFreqRef i : Z) : outcome Z :=
  match n with
  | O => Ret leastFreqIndex
  | S n' =>
      f ← frameAt pageFrame i;
      next ← c_rem (i + 1) (bufferSize w);
      if refNum f <? leastFreqRef
      then LFU_second n' w pageFrame i (refNum f) next
      else LFU_second n' w pageFrame leastFreqIndex leastFreqRef next
  end.

(** The frame LFU settles on. *)
Definition LFU_select (w : World) (pageFrame : list PageFrame) : outcome Z :=
  f0 ← frameAt pageFrame 0;
  '(leastFreqIndex, leastFreqRef) ←
     LFU_first (Z.to_nat (bufferSize w)) w pageFrame (lfuPointer w) (refNum f0) 0;
  i ← c_rem (leastFreqIndex + 1) (bufferSize w);
  LFU_second (Z.to_nat (bufferSize w)) w pageFrame leastFreqIndex leastFreqRef i.

Definition LFU (w : World) (page : PageFrame) : outcome World :=
  let pageFrame := framesOf w in
  leastFreqIndex ← LFU_select w pageFrame;
  f ← frameAt pageFrame leastFreqIndex;
  let w1 :=
    if dirtyBit f =? 0
    then (let w' := writeBlock (pageNum f) (data f) w in
          with_writeCount w' (writeCount w' + 1))
    else w in
  let w2 := with_lfuPointer w1 (leastFreqIndex + 1) in
  let f' := set_pageNum (set_dirtyBit (set_data (set_fixCount f (fixCount page))
                                                (data page))
                                      (dirtyBit page))
                        (pageNum page) in
  Ret (with_frames w2 (setFrame pageFrame leastFreqIndex f')).

(** The comparison loop shared by LRU and LRU_K:
    [for (; n iterations; i++) if (!(a[i].hitNum >= leastHitNum)) ...]. *)
Fixpoint least_hit (n : nat) (pageFrame : list PageFrame)
    (leastHitIndex leastHitNum i : Z) : outcome Z :=
  match n with
  | O => Ret leastHitIndex
  | S n' =>
      f ← frameAt pageFrame i;
      if negb (leastHitNum <=? hitNum f)
      then least_hit n' pageFrame i (hitNum f) (i + 1)
      else least_hit n' pageFrame leastHitIndex leastHitNum (i + 1)
  end.

(** The frame LRU settles on.  The result of the first loop is read and
    then overwritten by [leastHitIndex = 0]. *)
Definition LRU_select (w : World) (pageFrame : list PageFrame) : outcome Z :=
  _ ← first_index (fun f => fixCount f =? 0) pageFrame 0 (Z.to_nat (bufferSize w));
  f0 ← frameAt pageFrame 0;
  least_hit (Z.to_nat (bufferSize w - 1)) pageFrame 0 (hitNum f0) 1.

Definition LRU (w : World) (page : PageFrame) : outcome World :=
  match pageFile w with
  | None => Ret w
  | Some _ =>
      match data page with
      | None => Ret w
      | Some _ =>
          let pageFrame := framesOf w in
          leastHitIndex ← LRU_select w pageFrame;
          f ← frameAt pageFrame leastHitIndex;
          let f' := set_fixCount (set_pageNum (set_data (set_hitNum (set_dirtyBit f
                      (dirtyBit page)) (hitNum page)) (data page)) (pageNum page))
                      (fixCount page) in
          let w1 := with_frames w (setFrame pageFrame leastHitIndex f') in
          if dirtyBit f' =? 1 then
            let w2 := writeBlock (pageNum f') (data f') w1 in
            Ret (with_writeCount w2 (writeCount w2 + 1))
          else Ret w1
      end
  end.

(** The frame LRU_K settles on. *)
Definition LRU_K_select (w : World) (pageFrame : list PageFrame) : outcome Z :=
  r ← first_index (fun f => fixCount f =? 0) pageFrame 0 (Z.to_nat (bufferSize w));
  match r with
  | Some i =>
      f ← frameAt pageFrame i;
      least_hit (Z.to_nat (bufferSize w - (i + 1))) pageFrame i (hitNum f) (i + 1)
  | None =>
      least_hit (Z.to_nat (bufferSize w - 1)) pageFrame 0 0 1
  end.

Definition LRU_K (w : World) (page : PageFrame) : outcome World :=
  match pageFile w with
  | None => Ret w
  | Some _ =>
      match data page with
      | None => Ret w
      | Some _ =>
          let pageFrame := framesOf w in
          leastHitIndex ← LRU_K_select w pageFrame;
          f ← frameAt pageFrame leastHitIndex;
          let f' := set_dirtyBit (set_fixCount (set_pageNum (set_data (set_hitNum f
                      (hitNum page)) (data page)) (pageNum page)) (fixCount page))
                      (dirtyBit page) in
          let w1 := with_frames w (setFrame pageFrame leastHitIndex f') in
          if dirtyBit f' =? 0 then Ret w1
          else
            let w2 := writeBlock (pageNum f') (data f') w1 in
            Ret (with_writeCount w2 (writeCount w2 + 1))
      end
  end.

(** The [for] of CLOCK; the flag tells whether it left through [break].
    [clockPointer] grows by one per iteration, so the loop meets a
    multiple of [bufferSize] within [bufferSize] iterations. *)
Fixpoint CLOCK_loop (fuel : nat) (w : World) (page : PageFrame) : outcome (bool * World) :=
  match fuel with
  | O => Diverges w
  | S fuel' =>
      r ← c_rem (clockPointer w) (bufferSize w);
      if r =? 0 then Ret (false, w)
      else
        let pageFrame := framesOf w in
        f ← frameAt pageFrame (clockPointer w);
        if hitNum f =? 0 then
          let w1 := if dirtyBit f =? 0 then w
                    else writeBlock (pageNum f) (data f) w in
          Ret (true, with_frames w1 (setFrame pageFrame (clockPointer w) page))
        else
          let w1 := with_frames w (setFrame pageFrame (clockPointer w) (set_hitNum f 0)) in
          CLOCK_loop fuel' (with_clockPointer w1 (clockPointer w1 + 1)) page
  end.

Definition CLOCK (w : World) (page : PageFrame) : outcome World :=
  '(_, w1) ← CLOCK_loop (S (Z.to_nat (bufferSize w))) w page;
  next ← c_rem (clockPointer w1 + 1) (bufferSize w1);
  Ret (with_clockPointer w1 next).

(** ** shutdownBufferPool and forceFlushPool *)

(** The first [for] of forceFlushPool: the page numbers to write, the
    frames with their dirty bits cleared, the write counter. *)
Fixpoint flush_collect (n : nat) (pFrames : list PageFrame) (i : Z)
    (pagesToWrite : list Z) (wc : Z) : outcome (list PageFrame * list Z * Z) :=
  match n with
  | O => Ret (pFrames, pagesToWrite, wc)
  | S n' =>
      f ← frameAt pFrames i;
      if (fixCount f =? 0) && (dirtyBit f =? 1)
      then flush_collect n' (setFrame pFrames i (set_dirtyBit f 0)) (i + 1)
                         (pagesToWrite ++ [pageNum f]) (wc + 1)
      else flush_collect n' pFrames (i + 1) pagesToWrite wc
  end.

(** The second [for]: entry [i] of the list goes out with the buffer of
    frame [i]. *)
Fixpoint flush_write (pagesToWrite : list Z) (pFrames : list PageFrame) (i : Z) (w : World)
  : outcome World :=
  match pagesToWrite with
  | [] => Ret w
  | n :: rest =>
      f ← frameAt pFrames i;
      flush_write rest pFrames (i + 1) (writeBlock n (data f) w)
  end.

Definition forceFlushPool (w : World) : outcome (RC * World) :=
  match mgmtData w with
  | None => Ret (RC_ERROR, w)
  | Some pFrames =>
      '(pFrames', pagesToWrite, wc) ←
         flush_collect (Z.to_nat (numPages w)) pFrames 0 [] (writeCount w);
      w' ← flush_write pagesToWrite pFrames' 0
             (with_writeCount (with_frames w pFrames') wc);
      Ret (RC_OK, w')
  end.

Definition shutdownBufferPool (w : World) : outcome (RC * World) :=
  match mgmtData w with
  | None => Ret (RC_BUFFER_POOL_SHUTDOWN_ERROR, w)
  | Some pageFrame =>
      r ← first_index (fun f => negb (fixCount f =? 0)) pageFrame 0
            (Z.to_nat (bufferSize w));
      match r with
      | Some _ => Ret (RC_PINNED_PAGES_IN_BUFFER, w)
      | None =>
          '(_, w1) ← forceFlushPool w;
          Ret (RC_OK, with_mgmtData w1 None)
      end
  end.

(** ** markDirty, unpinPage, forcePage *)

Definition markDirty (w : World) (page : BM_PageHandle) : outcome (RC * World) :=
  let pageFrame := framesOf w in
  r ← first_index (fun f => pageNum f =? ph_pageNum page) pageFrame 0
        (Z.to_nat (bufferSize w));
  match r with
  | Some i =>
      f ← frameAt pageFrame i;
      Ret (RC_OK, with_frames w (setFrame pageFrame i (set_dirtyBit f 1)))
  | None => Ret (RC_ERROR, w)
  end.

Definition unpinPage (w : World) (page : BM_PageHandle) : outcome (RC * World) :=
  match mgmtData w with
  | None => Ret (RC_POOL_NOT_OPEN, w)
  | Some frameOfPage =>
      r ← first_index (fun f => pageNum f =? ph_pageNum page) frameOfPage 0
            (Z.to_nat (numPages w));
      match r with
      | Some j =>
          f ← frameAt frameOfPage j;
          if 0 <? fixCount f
          then Ret (RC_OK,
                    with_frames w (setFrame frameOfPage j (set_fixCount f (fixCount f - 1))))
          else Ret (RC_PAGE_NOT_PINNED, w)
      | None => Ret (RC_PAGE_NOT_IN_FRAMELIST, w)
      end
  end.

Definition forcePage (w : World) (page : BM_PageHandle) : outcome (RC * World) :=
  let pageFrame := framesOf w in
  r ← first_index (fun f => negb (negb (pageNum f =? ph_pageNum page))) pageFrame 0
        (Z.to_nat (bufferSize w));
  match r with
  | Some i =>
      f ← frameAt pageFrame i;
      let w1 := writeBlock (pageNum f) (data f) w in
      let w2 := with_frames w1 (setFrame pageFrame i (set_dirtyBit f 0)) in
      Ret (RC_OK, with_writeCount w2 (writeCount w2 + 1))
  | None => Ret (RC_PAGE_NOT_IN_FRAMELIST, w)
  end.

(** ** pinPage *)

Definition isPageFrameEmpty (frame : PageFrame) : bool := pageNum frame =? -1.

(** The branch of the scan that found an empty frame at [j]. *)
Definition pin_empty (w : World) (frameOfPage : list PageFrame) (j : Z) (pn : Z)
  : outcome (BM_PageHandle * World) :=
  f ← frameAt frameOfPage j;
  let '(d, w1) := readBlock pn w in
  let w2 := with_hit (with_rearIndex w1 (rearIndex w1 + 1)) (hit w1 + 1) in
  let f1 := set_data f (Some d) in
  let f2 := match strategy w2 with
            | RS_CLOCK => set_hitNum f1 1
            | RS_LRU => set_hitNum f1 (hit w2)
            | _ => f1
            end in
  let f3 := set_fixCount (set_pageNum (set_refNum f2 0) pn) 1 in
  Ret (mkHandle pn (Some d), with_frames w2 (setFrame frameOfPage j f3)).

(** The branch of the scan that found the page in frame [j]. *)
Definition pin_hit (w : World) (frameOfPage : list PageFrame) (j : Z) (pn : Z)
  : outcome (BM_PageHandle * World) :=
  f ← frameAt frameOfPage j;
  let f1 := set_fixCount f (fixCount f + 1) in
  let w1 := with_hit w (hit w + 1) in
  let f2 := match strategy w1 with
            | RS_CLOCK => set_hitNum f1 1
            | RS_LFU => set_refNum f1 (refNum f1 + 1)
            | RS_LRU | RS_LRU_K => set_hitNum f1 (hit w1)
            | RS_FIFO => f1
            end in
  let w2 := with_clockPointer w1 (clockPointer w1 + 1) in
  Ret (mkHandle pn (data f2), with_frames w2 (setFrame frameOfPage j f2)).

(** The page frame built for a page that is in no frame while no frame
    is empty.  [hitNum] is left as [malloc] gave it under FIFO and LFU,
    where the member is never read; it is 0 here. *)
Definition newPageFor (w : World) (d : Block) (pn : Z) : PageFrame :=
  mkFrame (Some d) pn 0 1
          (match strategy w with
           | RS_LRU_K | RS_LRU => hit w
           | RS_CLOCK => 1
           | _ => 0
           end)
          0.

(** The branch taken when the scan ended with [bufferFull] still set. *)
Definition pin_full (w : World) (pn : Z) : outcome (BM_PageHandle * World) :=
  let '(d, w1) := readBlock pn w in
  let w2 := with_rearIndex (with_hit w1 (hit w1 + 1)) (rearIndex w1 + 1) in
  let newPage := newPageFor w2 d pn in
  w3 ← match strategy w2 with
       | RS_FIFO => FIFO w2 newPage
       | RS_LRU => LRU w2 newPage
       | RS_CLOCK => CLOCK w2 newPage
       | RS_LFU => LFU w2 newPage
       | RS_LRU_K => LRU_K w2 newPage
       end;
  Ret (mkHandle pn (Some d), w3).

(** The branch taken when frame 0 is empty. *)
Definition pin_first (w : World) (frameOfPage : list PageFrame) (pn : Z)
  : outcome (BM_PageHandle * World) :=
  f ← frameAt frameOfPage 0;
  let w1 := with_rearIndex w 0 in
  let w2 := ensureCapacity pn w1 in
  let '(d, w3) := readBlock pn w2 in
  let w4 := with_hit w3 0 in
  let f1 := set_refNum (set_hitNum (set_fixCount (set_pageNum (set_data f (Some d)) pn)
                                                 (fixCount f + 1))
                                   (hit w4))
                       0 in
  Ret (mkHandle pn (Some d), with_frames w4 (setFrame frameOfPage 0 f1)).

Definition pinPage (w : World) (page : BM_PageHandle) (pn : Z)
  : outcome (RC * BM_PageHandle * World) :=
  match mgmtData w with
  | None => Ret (RC_PAGE_NOT_PINNED, page, w)
  | Some frameOfPage =>
      if pn <? 0 then Ret (RC_NEGATIVE_PAGE_NUM, page, w)
      else
        f0 ← frameAt frameOfPage 0;
        if negb (isPageFrameEmpty f0) then
          r ← first_index (fun f => (pageNum f =? -1) || (pageNum f =? pn))
                frameOfPage 0 (Z.to_nat (bufferSize w));
          '(page', w') ←
             match r with
             | Some j =>
                 f ← frameAt frameOfPage j;
                 if pageNum f =? -1
                 then pin_empty w frameOfPage j pn
                 else pin_hit w frameOfPage j pn
             | None => pin_full w pn
             end;
          Ret (RC_OK, page', w')
        else
          '(page', w') ← pin_first w frameOfPage pn;
          Ret (RC_OK, page', w')
  end.

(** ** Statistics *)

Definition getFrameContents (w : World) : outcome (list Z) :=
  let pageFrame := framesOf w in
  read_all (fun f => if negb (pageNum f =? -1) then pageNum f else NO_PAGE)
           pageFrame 0 (Z.to_nat (bufferSize w)).

Definition getDirtyFlags (w : World) : outcome (list bool) :=
  let pageFrame := framesOf w in
  read_all (fun f => if dirtyBit f =? 1 then true else false)
           pageFrame 0 (Z.to_nat (bufferSize w)).

Definition getFixCounts (w : World) : outcome (list Z) :=
  let pageFrame := framesOf w in
  read_all (fun f => if negb (fixCount f =? -1) then fixCount f else 0)
           pageFrame 0 (Z.to_nat (bufferSize w)).

Definition getNumReadIO (w : World) : Z := rearIndex w + 1.

Definition getNumWriteIO (w : World) : Z := writeCount w.

(** ** Running a client *)

(** The calls a client makes on the one pool. *)
Inductive Call :=
| CInit (pageFN : option string) (n : Z) (s : ReplacementStrategy)
| CPin (pn : Z)
| CUnpin (pn : Z)
| CMarkDirty (pn : Z)
| CForcePage (pn : Z)
| CFlush
| CShutdown.

Definition call (w : World) (c : Call) : outcome (RC * World) :=
  match c with
  | CInit fn n s => Ret (initBufferPool w fn n s)
  | CPin pn =>
      '(rc, _, w') ← pinPage w (mkHandle 0 None) pn;
      Ret (rc, w')
  | CUnpin pn => unpinPage w (mkHandle pn None)
  | CMarkDirty pn => markDirty w (mkHandle pn None)
  | CForcePage pn => forcePage w (mkHandle pn None)
  | CFlush => forceFlushPool w
  | CShutdown => shutdownBufferPool w
  end.

(** A client that goes on after every call, whatever the code returned. *)
Fixpoint run (w : World) (cs : list Call) : outcome World :=
  match cs with
  | [] => Ret w
  | c :: cs' =>
      '(_, w') ← call w c;
      run w' cs'
  end.

(** The return codes a client sees, in order. *)
Fixpoint codes (w : World) (cs : list Call) : outcome (list RC) :=
  match cs with
  | [] => Ret []
  | c :: cs' =>
      '(rc, w') ← call w c;
      r ← codes w' cs';
      Ret (rc :: r)
  end.

(** A page store with one distinct byte in each of the pages 1, 2, 3. *)
Definition disk123 : list (Z * Block) :=
  [(1, [Byte.x01]); (2, [Byte.x02]); (3, [Byte.x03])].

(** The name of the page file in the examples. *)
Definition pf : option string := Some "f"%string.

(** What the statistics functions and the page store show after a list
    of calls on a fresh process. *)
Definition contentsAfter (cs : list Call) : outcome (list Z) :=
  w ← run (startWorld disk123) cs; getFrameContents w.

Definition fixCountsAfter (cs : list Call) : outcome (list Z) :=
  w ← run (startWorld disk123) cs; getFixCounts w.

Definition dirtyFlagsAfter (cs : list Call) : outcome (list bool) :=
  w ← run (startWorld disk123) cs; getDirtyFlags w.

Definition traceAfter (cs : list Call) : outcome (list IOEvent) :=
  w ← run (startWorld disk123) cs; Ret (trace w).

Definition writeIOAfter (cs : list Call) : outcome Z :=
  w ← run (startWorld disk123) cs; Ret (getNumWriteIO w).

Definition readIOAfter (cs : list Call) : outcome Z :=
  w ← run (startWorld disk123) cs; Ret (getNumReadIO w).

Definition buffersAfter (cs : list Call) : outcome (list (option Block)) :=
  w ← run (startWorld disk123) cs; Ret (data <$> framesOf w).

Definition codesAfter (cs : list Call) : outcome (list RC) :=
  codes (startWorld disk123) cs.

(** ** Well-formed pools *)

Definition pages (a : list PageFrame) : list Z := pageNum <$> a.
Definition pins (a : list PageFrame) : list Z := fixCount <$> a.

(** No page number other than the empty mark sits in two slots. *)
Definition noAlias (l : list Z) : Prop :=
  forall (i j : nat) (x : Z), l !! i = Some x -> l !! j = Some x -> x <> -1 -> i = j.

(** Behind an empty slot every slot is empty. *)
Definition emptyTail (l : list Z) : Prop :=
  forall (i j : nat) (y : Z), l !! i = Some (-1) -> l !! j = Some y -> (i <= j)%nat -> y = -1.

Record framesOk (size : Z) (a : list PageFrame) : Prop := {
  ok_size : length a = Z.to_nat size;
  ok_alias : noAlias (pages a);
  ok_tail : emptyTail (pages a);
  ok_pins : Forall (Z.le 0) (pins a)
}.

Definition Inv (w : World) : Prop :=
  numPages w = bufferSize w /\
  forall a, mgmtData w = Some a -> framesOk (bufferSize w) a.

(** The worlds a client can bring about: from a fresh process, by calls
    that return. *)
Inductive reachable : World -> Prop :=
| reach_start (b : list (Z * Block)) : reachable (startWorld b)
| reach_call (w : World) (c : Call) (rc : RC) (w' : World) :
    reachable w -> call w c = Ret (rc, w') -> reachable w'.

(** The world after a list of calls, when they all return. *)
Definition worldAfter (cs : list Call) : World :=
  match run (startWorld disk123) cs with
  | Ret w => w
  | _ => startWorld disk123
  end.

(** What a policy may do to the frames, as far as page numbers and fix
    counts go: nothing, or put the new page in one slot. *)
Definition replaced (page : PageFrame) (a a' : list PageFrame) : Prop :=
  (pages a' = pages a /\ pins a' = pins a) \/
  exists k : nat, (k < length a)%nat /\
    pages a' = <[k := pageNum page]> (pages a) /\
    pins a' = <[k := fixCount page]> (pins a).

(** The page numbers handed to [writeBlock], in order. *)
Fixpoint writtenPages (t : list IOEvent) : list Z :=
  match t with
  | [] => []
  | EvWrite n _ :: t' => n :: writtenPages t'
  | _ :: t' => writtenPages t'
  end.

(** What every policy keeps to: the sizes, and [replaced] on the frames. *)
Definition policy_ok (w : World) (page : PageFrame) (w' : World) : Prop :=
  bufferSize w' = bufferSize w /\ numPages w' = numPages w /\
  forall a, mgmtData w = Some a ->
    exists a', mgmtData w' = Some a' /\ replaced page a a'.

(** What forceFlushPool picks: unpinned and dirty. *)
Definition flushable (f : PageFrame) : bool := (fixCount f =? 0) && (dirtyBit f =? 1).

Definition flushed (f : PageFrame) : PageFrame :=
  if flushable f then set_dirtyBit f 0 else f.

(** The page numbers of the flushable frames, in slot order. *)
Fixpoint flushPages (a : list PageFrame) : list Z :=
  match a with
  | [] => []
  | f :: a' => if flushable f then pageNum f :: flushPages a' else flushPages a'
  end.

(** The slot a selection loop would settle on after a list of calls. *)
Definition victimAfter (select : World -> list PageFrame -> outcome Z) (cs : list Call)
  : outcome Z :=
  w ← run (startWorld disk123) cs; select w (framesOf w).

(** The number of blocks read from the page store, and of blocks handed
    to it, in a trace. *)
Fixpoint readsIn (t : list IOEvent) : Z :=
  match t with
  | [] => 0
  | EvRead _ :: t' => 1 + readsIn t'
  | _ :: t' => readsIn t'
  end.

Definition writesIn (t : list IOEvent) : Z := Z.of_nat (length (writtenPages t)).

(** What a hit of pinPage does to the frame it finds, by strategy. *)
Definition touched (s : ReplacementStrategy) (h : Z) (f : PageFrame) : PageFrame :=
  let f1 := set_fixCount f (fixCount f + 1) in
  match s with
  | RS_CLOCK => set_hitNum f1 1
  | RS_LFU => set_refNum f1 (refNum f1 + 1)
  | RS_LRU | RS_LRU_K => set_hitNum f1 h
  | RS_FIFO => f1
  end.

(** What no policy touches. *)
Definition keeps (w w' : World) : Prop :=
  bufferSize w' = bufferSize w /\ numPages w' = numPages w /\
  rearIndex w' = rearIndex w /\ hit w' = hit w /\
  strategy w' = strategy w /\ pageFile w' = pageFile w.

(** The I/O of one call of a policy: nothing, or one block written,
    which the write counter records or not. *)
Definition one_write (counted : bool) (w w' : World) : Prop :=
  (trace w' = trace w /\ blocks w' = blocks w /\ writeCount w' = writeCount w) \/
  exists n d, trace w' = trace w ++ [EvWrite n d] /\
              writeCount w' = writeCount w + (if counted then 1 else 0).

(** Whether the policy of a strategy counts the block it writes: CLOCK
    does not touch [writeCount]. *)
Definition counts_writes (s : ReplacementStrategy) : bool :=
  match s with RS_CLOCK => false | _ => true end.

(** The world in which pinPage calls the policy: the block has been read,
    [hit] and [rearIndex] have been counted up. *)
Definition missWorld (w : World) (pn : Z) : World :=
  with_rearIndex (with_hit (readBlock pn w).2 (hit w + 1)) (rearIndex w + 1).

(** The strategy dispatch of pinPage. *)
Definition policy (w : World) (page : PageFrame) : outcome World :=
  match strategy w with
  | RS_FIFO => FIFO w page
  | RS_LRU => LRU w page
  | RS_CLOCK => CLOCK w page
  | RS_LFU => LFU w page
  | RS_LRU_K => LRU_K w page
  end.

(** No empty slot carries a fix count. *)
Definition emptyUnpinned (a : list PageFrame) : Prop :=
  forall (i : nat) f, a !! i = Some f -> pageNum f = -1 -> fixCount f = 0.

(** A call other than initBufferPool. *)
Definition notInit (c : Call) : bool :=
  match c with CInit _ _ _ => false | _ => true end.

(** How getNumReadIO stands to the reads of the trace, [r0] being the
    number of reads at the time of initBufferPool: nothing read while frame
    0 is empty, and the count of the reads once it is occupied. *)
Definition readsCounted (r0 : Z) (w : World) : Prop :=
  match framesOf w !! 0%nat with
  | Some f0 =>
      if isPageFrameEmpty f0 then readsIn (trace w) = r0
      else getNumReadIO w = readsIn (trace w) - r0
  | None => True
  end.

(** A frame the hand of CLOCK has passed. *)
Definition passed (f : PageFrame) : PageFrame := set_hitNum f 0.

(** * Properties *)

(** ** Reading the monad backwards *)

Lemma bind_Ret {A B} (m : outcome A) (k : A -> outcome B) (b : B) :
  m ≫= k = Ret b -> exists a, m = Ret a /\ k a = Ret b.
Proof. destruct m as [a| |w]; simpl; intros H; try discriminate. eauto. Qed.

Lemma frameAt_Ret a i f :
  frameAt a i = Ret f <-> 0 <= i /\ a !! Z.to_nat i = Some f.
Proof.
  unfold frameAt. destruct (Z.ltb_spec i 0) as [Hi|Hi].
  - split; [discriminate | lia].
  - destruct (a !! Z.to_nat i) as [g|]; simpl; split.
    + intros [= ->]. auto.
    + intros [_ [= ->]]. reflexivity.
    + discriminate.
    + intros [_ ?]. discriminate.
Qed.

Lemma frameAt_nat a (i : nat) f : a !! i = Some f -> frameAt a (Z.of_nat i) = Ret f.
Proof. intros H. apply frameAt_Ret. rewrite Nat2Z.id. split; [lia | assumption]. Qed.

Lemma c_rem_Ret a b r : c_rem a b = Ret r -> b <> 0 /\ r = Z.rem a b.
Proof.
  unfold c_rem. destruct (Z.eqb_spec b 0); [discriminate|].
  intros [= <-]. auto.
Qed.

(** Peel the binds of a hypothesis [... = Ret _] one by one. *)
Ltac inv_bind H :=
  let a := fresh "x" in
  let E := fresh "E" in
  apply bind_Ret in H; destruct H as (a & E & H).

(** ** The scan for the first frame with a property *)

Lemma first_index_found p a (j : nat) f :
  a !! j = Some f -> p f = true ->
  (forall k g, (k < j)%nat -> a !! k = Some g -> p g = false) ->
  forall (n i : nat), (i <= j < i + n)%nat ->
  first_index p a (Z.of_nat i) n = Ret (Some (Z.of_nat j)).
Proof.
  intros Hj Hp Hbefore n. induction n as [|n IH]; intros i Hi; [lia|].
  simpl. destruct (decide (i = j)) as [->|Hne].
  - rewrite (frameAt_nat _ _ _ Hj). simpl. rewrite Hp. reflexivity.
  - destruct (lookup_lt_is_Some_2 a i) as [g Hg].
    { apply lookup_lt_Some in Hj. lia. }
    rewrite (frameAt_nat _ _ _ Hg). simpl.
    rewrite (Hbefore i g) by (lia || assumption).
    replace (Z.of_nat i + 1) with (Z.of_nat (S i)) by lia.
    apply IH. lia.
Qed.

Lemma first_index_none p a :
  (forall k g, a !! k = Some g -> p g = false) ->
  forall (n i : nat), (i + n <= length a)%nat ->
  first_index p a (Z.of_nat i) n = Ret None.
Proof.
  intros Hall n. induction n as [|n IH]; intros i Hi; [reflexivity|].
  simpl. destruct (lookup_lt_is_Some_2 a i) as [g Hg]; [lia|].
  rewrite (frameAt_nat _ _ _ Hg). simpl. rewrite (Hall i g Hg).
  replace (Z.of_nat i + 1) with (Z.of_nat (S i)) by lia.
  apply IH. lia.
Qed.

Lemma first_index_Some p a n i j :
  first_index p a i n = Ret (Some j) ->
  i <= j < i + Z.of_nat n /\
  exists f, frameAt a j = Ret f /\ p f = true /\
  forall k g, i <= k < j -> frameAt a k = Ret g -> p g = false.
Proof.
  revert i. induction n as [|n IH]; intros i H; simpl in H; [discriminate|].
  inv_bind H. destruct (p x) eqn:Hp.
  - injection H as <-. split; [lia|]. exists x. repeat split; auto. intros; lia.
  - apply IH in H. destruct H as (Hr & f & Hf & Hpf & Hb).
    split; [lia|]. exists f. repeat split; auto.
    intros k g Hk Hg. destruct (decide (k = i)) as [->|Hne].
    + congruence.
    + apply (Hb k g); [lia | assumption].
Qed.

Lemma first_index_None p a n i :
  first_index p a i n = Ret None ->
  forall k g, i <= k < i + Z.of_nat n -> frameAt a k = Ret g -> p g = false.
Proof.
  revert i. induction n as [|n IH]; intros i H k g Hk Hg; [lia|].
  simpl in H. inv_bind H. destruct (p x) eqn:Hp; [discriminate|].
  destruct (decide (k = i)) as [->|Hne].
  - congruence.
  - apply (IH _ H k g); [lia | assumption].
Qed.

(** ** Page numbers and fix counts under an update of one frame *)

Lemma pages_setFrame a i f f' :
  frameAt a i = Ret f -> pages (setFrame a i f') = <[Z.to_nat i := pageNum f']> (pages a).
Proof. intros _. unfold pages, setFrame. apply list_fmap_insert. Qed.

Lemma pins_setFrame a i f f' :
  frameAt a i = Ret f -> pins (setFrame a i f') = <[Z.to_nat i := fixCount f']> (pins a).
Proof. intros _. unfold pins, setFrame. apply list_fmap_insert. Qed.

Lemma pages_setFrame_same a i f f' :
  frameAt a i = Ret f -> pageNum f' = pageNum f -> pages (setFrame a i f') = pages a.
Proof.
  intros H E. rewrite (pages_setFrame _ _ _ _ H), E.
  apply frameAt_Ret in H as [_ H]. apply list_insert_id.
  unfold pages. rewrite list_lookup_fmap, H. reflexivity.
Qed.

Lemma pins_setFrame_same a i f f' :
  frameAt a i = Ret f -> fixCount f' = fixCount f -> pins (setFrame a i f') = pins a.
Proof.
  intros H E. rewrite (pins_setFrame _ _ _ _ H), E.
  apply frameAt_Ret in H as [_ H]. apply list_insert_id.
  unfold pins. rewrite list_lookup_fmap, H. reflexivity.
Qed.

Lemma frameAt_lt a i f : frameAt a i = Ret f -> (Z.to_nat i < length a)%nat.
Proof. intros H. apply frameAt_Ret in H as [_ H]. eapply lookup_lt_Some, H. Qed.

Lemma framesOk_same size a a' :
  pages a' = pages a -> pins a' = pins a -> framesOk size a -> framesOk size a'.
Proof.
  intros Hp Hf [H1 H2 H3 H4]. split.
  - rewrite <- H1. rewrite <- (length_fmap pageNum a'), <- (length_fmap pageNum a).
    fold (pages a') (pages a). congruence.
  - rewrite Hp. assumption.
  - rewrite Hp. assumption.
  - rewrite Hf. assumption.
Qed.

Lemma framesOk_update size a i f f' :
  frameAt a i = Ret f -> pageNum f' = pageNum f -> 0 <= fixCount f' ->
  framesOk size a -> framesOk size (setFrame a i f').
Proof.
  intros H Hp Hv [H1 H2 H3 H4]. split.
  - unfold setFrame. rewrite length_insert. assumption.
  - rewrite (pages_setFrame_same _ _ _ _ H) by assumption. assumption.
  - rewrite (pages_setFrame_same _ _ _ _ H) by assumption. assumption.
  - rewrite (pins_setFrame _ _ _ _ H). apply Forall_insert; assumption.
Qed.

Lemma framesOk_fix size a i f :
  framesOk size a -> frameAt a i = Ret f -> 0 <= fixCount f.
Proof.
  intros [_ _ _ H] Hf. apply frameAt_Ret in Hf as [_ Hf].
  rewrite Forall_lookup in H. apply (H (Z.to_nat i)).
  unfold pins. rewrite list_lookup_fmap, Hf. reflexivity.
Qed.

Lemma pages_lookup a (k : nat) x :
  pages a !! k = Some x -> exists g, frameAt a (Z.of_nat k) = Ret g /\ pageNum g = x.
Proof.
  unfold pages. rewrite list_lookup_fmap. intros H.
  apply fmap_Some in H as (g & Hg & ->). exists g. split; [|reflexivity].
  apply frameAt_nat. assumption.
Qed.

(** ** Putting a new page number into a list of page numbers *)

Lemma install_at_first_empty (l : list Z) (j : nat) (pn : Z) :
  noAlias l -> emptyTail l -> l !! j = Some (-1) -> pn <> -1 ->
  (forall (k : nat) x, (k < j)%nat -> l !! k = Some x -> x <> -1 /\ x <> pn) ->
  noAlias (<[j := pn]> l) /\ emptyTail (<[j := pn]> l).
Proof.
  intros Hna Het Hj Hpn Hbefore.
  assert (Hlen : (j < length l)%nat) by (eapply lookup_lt_Some, Hj).
  assert (Hafter : forall (k : nat) x, (j < k)%nat -> l !! k = Some x -> x = -1).
  { intros k x Hk Hx. apply (Het j k x Hj Hx). lia. }
  split.
  - intros i i' x Hi Hi' Hx.
    destruct (decide (i = j)) as [->|Hij]; destruct (decide (i' = j)) as [->|Hi'j];
      try reflexivity.
    + rewrite list_lookup_insert_eq in Hi by assumption. injection Hi as <-.
      rewrite list_lookup_insert_ne in Hi' by auto.
      destruct (Nat.lt_ge_cases i' j) as [Hlt|Hge].
      * exfalso. eapply (proj2 (Hbefore _ _ Hlt Hi')); eauto.
      * exfalso. apply Hpn. apply (Hafter i'); [lia | assumption].
    + rewrite list_lookup_insert_eq in Hi' by assumption. injection Hi' as <-.
      rewrite list_lookup_insert_ne in Hi by auto.
      destruct (Nat.lt_ge_cases i j) as [Hlt|Hge].
      * exfalso. eapply (proj2 (Hbefore _ _ Hlt Hi)); eauto.
      * exfalso. apply Hpn. apply (Hafter i); [lia | assumption].
    + rewrite list_lookup_insert_ne in Hi by auto.
      rewrite list_lookup_insert_ne in Hi' by auto.
      eapply Hna; eauto.
  - intros i i' y Hi Hi' Hle.
    destruct (decide (i = j)) as [->|Hij].
    { rewrite list_lookup_insert_eq in Hi by assumption. congruence. }
    rewrite list_lookup_insert_ne in Hi by auto.
    destruct (decide (i' = j)) as [->|Hi'j].
    + exfalso. assert (Hlt : (i < j)%nat) by lia.
      apply (proj1 (Hbefore _ _ Hlt Hi)). reflexivity.
    + rewrite list_lookup_insert_ne in Hi' by auto.
      eapply Het; eauto.
Qed.

Lemma install_over_full (l : list Z) (k : nat) (pn : Z) :
  noAlias l -> pn <> -1 ->
  (forall (i : nat) x, l !! i = Some x -> x <> -1 /\ x <> pn) ->
  noAlias (<[k := pn]> l) /\ emptyTail (<[k := pn]> l).
Proof.
  intros Hna Hpn Hall.
  assert (Hin : forall (i : nat) x, <[k := pn]> l !! i = Some x ->
                  (i = k /\ x = pn) \/ (i <> k /\ l !! i = Some x)).
  { intros i x Hi. destruct (decide (i = k)) as [->|Hne].
    - left. split; [reflexivity|].
      rewrite list_lookup_insert_eq in Hi; [congruence|].
      apply lookup_lt_Some in Hi. rewrite length_insert in Hi. assumption.
    - right. rewrite list_lookup_insert_ne in Hi by auto. auto. }
  split.
  - intros i j x Hi Hj Hx.
    apply Hin in Hi as [[-> ->]|[Hik Hi]]; apply Hin in Hj as [[-> Hjx]|[Hjk Hj]].
    + reflexivity.
    + exfalso. eapply (proj2 (Hall _ _ Hj)). reflexivity.
    + exfalso. subst x. eapply (proj2 (Hall _ _ Hi)). reflexivity.
    + eapply Hna; eauto.
  - intros i j y Hi Hj _.
    apply Hin in Hi as [[-> Hx]|[Hik Hi]].
    + congruence.
    + exfalso. eapply (proj1 (Hall _ _ Hi)). reflexivity.
Qed.

Lemma replaced_ok size pn page a a' :
  replaced page a a' -> pageNum page = pn -> 0 <= fixCount page -> pn <> -1 ->
  (forall (i : nat) x, pages a !! i = Some x -> x <> -1 /\ x <> pn) ->
  framesOk size a -> framesOk size a'.
Proof.
  intros [[Hp Hf]|(k & Hk & Hp & Hf)] Hpn Hfix Hne Hall Hok.
  - eapply framesOk_same; eauto.
  - destruct Hok as [H1 H2 H3 H4].
    destruct (install_over_full (pages a) k pn H2 Hne Hall) as [Ha Ht].
    split.
    + rewrite <- H1. rewrite <- (length_fmap pageNum a'), <- (length_fmap pageNum a).
      fold (pages a') (pages a). rewrite Hp, length_insert. reflexivity.
    + rewrite Hp, Hpn. assumption.
    + rewrite Hp, Hpn. assumption.
    + rewrite Hf. apply Forall_insert; assumption.
Qed.

(** [replaced] looks at the old frames through their page numbers, fix
    counts and length only. *)
Lemma replaced_from page a0 a a' :
  pages a = pages a0 -> pins a = pins a0 -> replaced page a a' -> replaced page a0 a'.
Proof.
  intros Hp Hf H.
  assert (Hl : length a = length a0).
  { rewrite <- (length_fmap pageNum a), <- (length_fmap pageNum a0).
    fold (pages a) (pages a0). congruence. }
  destruct H as [[H1 H2]|(k & Hk & H1 & H2)].
  - left. split; congruence.
  - right. exists k. rewrite <- Hl, <- Hp, <- Hf. auto.
Qed.

Lemma replaced_setFrame page a i f f' :
  frameAt a i = Ret f -> pageNum f' = pageNum page -> fixCount f' = fixCount page ->
  replaced page a (setFrame a i f').
Proof.
  intros H Hp Hf. right. exists (Z.to_nat i). split; [eapply frameAt_lt; eauto|].
  rewrite (pages_setFrame _ _ _ _ H), (pins_setFrame _ _ _ _ H), Hp, Hf. auto.
Qed.

(** ** The five policies keep to [policy_ok] *)

Lemma policy_ok_refl w page : policy_ok w page w.
Proof.
  repeat split. intros a Ha. exists a. split; [assumption|]. left. auto.
Qed.

Lemma FIFO_ok w page w' : FIFO w page = Ret w' -> policy_ok w page w'.
Proof.
  unfold FIFO. cbv zeta. intros H. do 3 inv_bind H. injection H as <-.
  repeat split.
  - destruct (dirtyBit x1 =? 1); reflexivity.
  - destruct (dirtyBit x1 =? 1); reflexivity.
  - intros a Ha. unfold framesOf in *. rewrite Ha in *. simpl in *.
    eexists. split; [destruct (dirtyBit x1 =? 1); reflexivity|].
    eapply replaced_setFrame; eauto.
Qed.

Lemma LFU_ok w page w' : LFU w page = Ret w' -> policy_ok w page w'.
Proof.
  unfold LFU. cbv zeta. intros H. do 2 inv_bind H. injection H as <-.
  repeat split.
  - destruct (dirtyBit x0 =? 0); reflexivity.
  - destruct (dirtyBit x0 =? 0); reflexivity.
  - intros a Ha. unfold framesOf in *. rewrite Ha in *. simpl in *.
    eexists. split; [destruct (dirtyBit x0 =? 0); reflexivity|].
    eapply replaced_setFrame; eauto.
Qed.

Lemma LRU_ok w page w' : LRU w page = Ret w' -> policy_ok w page w'.
Proof.
  unfold LRU. cbv zeta. intros H.
  destruct (pageFile w); [|injection H as <-; apply policy_ok_refl].
  destruct (data page) eqn:Hd; [|injection H as <-; apply policy_ok_refl].
  do 2 inv_bind H. simpl in H.
  assert (Hw : w' = with_frames w (setFrame (framesOf w) x
             (set_fixCount (set_pageNum (set_data (set_hitNum (set_dirtyBit x0
                (dirtyBit page)) (hitNum page)) (data page)) (pageNum page))
                (fixCount page))) \/
          w' = let w2 := writeBlock (pageNum page) (data page)
                 (with_frames w (setFrame (framesOf w) x
                   (set_fixCount (set_pageNum (set_data (set_hitNum (set_dirtyBit x0
                     (dirtyBit page)) (hitNum page)) (data page)) (pageNum page))
                     (fixCount page)))) in
               with_writeCount w2 (writeCount w2 + 1)).
  { rewrite Hd. destruct (dirtyBit page =? 1); injection H as <-; auto. }
  clear H. repeat split.
  - destruct Hw as [->| ->]; reflexivity.
  - destruct Hw as [->| ->]; reflexivity.
  - intros a Ha. unfold framesOf in *. rewrite Ha in *. simpl in *.
    eexists. split; [destruct Hw as [->| ->]; reflexivity|].
    eapply replaced_setFrame; eauto.
Qed.

Lemma LRU_K_ok w page w' : LRU_K w page = Ret w' -> policy_ok w page w'.
Proof.
  unfold LRU_K. cbv zeta. intros H.
  destruct (pageFile w); [|injection H as <-; apply policy_ok_refl].
  destruct (data page) eqn:Hd; [|injection H as <-; apply policy_ok_refl].
  do 2 inv_bind H. simpl in H.
  assert (Hw : w' = with_frames w (setFrame (framesOf w) x
             (set_dirtyBit (set_fixCount (set_pageNum (set_data (set_hitNum x0
                (hitNum page)) (data page)) (pageNum page)) (fixCount page))
                (dirtyBit page))) \/
          w' = let w2 := writeBlock (pageNum page) (data page)
                 (with_frames w (setFrame (framesOf w) x
                   (set_dirtyBit (set_fixCount (set_pageNum (set_data (set_hitNum x0
                     (hitNum page)) (data page)) (pageNum page)) (fixCount page))
                     (dirtyBit page)))) in
               with_writeCount w2 (writeCount w2 + 1)).
  { rewrite Hd. destruct (dirtyBit page =? 0); injection H as <-; auto. }
  clear H. repeat split.
  - destruct Hw as [->| ->]; reflexivity.
  - destruct Hw as [->| ->]; reflexivity.
  - intros a Ha. unfold framesOf in *. rewrite Ha in *. simpl in *.
    eexists. split; [destruct Hw as [->| ->]; reflexivity|].
    eapply replaced_setFrame; eauto.
Qed.

Lemma CLOCK_loop_ok fuel page : forall w b w',
  CLOCK_loop fuel w page = Ret (b, w') ->
  bufferSize w' = bufferSize w /\ numPages w' = numPages w /\
  forall a, mgmtData w = Some a ->
    exists a', mgmtData w' = Some a' /\ replaced page a a'.
Proof.
  induction fuel as [|fuel IH]; intros w b w' H; simpl in H; [discriminate|].
  inv_bind H. destruct (x =? 0).
  { injection H as <- <-. apply policy_ok_refl. }
  cbv zeta in H. inv_bind H. destruct (hitNum x0 =? 0).
  - injection H as <- <-. repeat split.
    + destruct (dirtyBit x0 =? 0); reflexivity.
    + destruct (dirtyBit x0 =? 0); reflexivity.
    + intros a Ha. unfold framesOf in *. rewrite Ha in *. simpl in *.
      eexists. split; [destruct (dirtyBit x0 =? 0); reflexivity|].
      eapply replaced_setFrame; eauto.
  - apply IH in H. destruct H as (H1 & H2 & H3). repeat split.
    + rewrite H1. reflexivity.
    + rewrite H2. reflexivity.
    + intros a Ha. unfold framesOf in *. rewrite Ha in *. simpl in *.
      destruct (H3 _ eq_refl) as (a' & Ha' & Hr). exists a'. split; [assumption|].
      eapply replaced_from; [| |exact Hr].
      * eapply pages_setFrame_same; eauto.
      * eapply pins_setFrame_same; eauto.
Qed.

Lemma CLOCK_ok w page w' : CLOCK w page = Ret w' -> policy_ok w page w'.
Proof.
  unfold CLOCK. intros H. inv_bind H. destruct x as [b w1]. inv_bind H.
  injection H as <-. apply CLOCK_loop_ok in E as (H1 & H2 & H3).
  repeat split; simpl; auto.
Qed.

(** ** pinPage keeps the pool well formed *)

Lemma framesOk_install_empty size a j f f' pn :
  framesOk size a -> frameAt a j = Ret f -> pageNum f = -1 ->
  pageNum f' = pn -> 0 <= fixCount f' -> pn <> -1 ->
  (forall k g, 0 <= k < j -> frameAt a k = Ret g -> pageNum g <> -1 /\ pageNum g <> pn) ->
  framesOk size (setFrame a j f').
Proof.
  intros [H1 H2 H3 H4] Hf He Hp Hv Hpn Hbefore.
  pose proof Hf as Hf'. apply frameAt_Ret in Hf' as [Hj Hl].
  destruct (install_at_first_empty (pages a) (Z.to_nat j) pn H2 H3) as [Ha Ht].
  - unfold pages. rewrite list_lookup_fmap, Hl. simpl. congruence.
  - assumption.
  - intros k x Hk Hx. apply pages_lookup in Hx as (g & Hg & <-).
    apply (Hbefore (Z.of_nat k)); [lia | assumption].
  - split.
    + unfold setFrame. rewrite length_insert. assumption.
    + rewrite (pages_setFrame _ _ _ _ Hf), Hp. assumption.
    + rewrite (pages_setFrame _ _ _ _ Hf), Hp. assumption.
    + rewrite (pins_setFrame _ _ _ _ Hf). apply Forall_insert; assumption.
Qed.

Lemma pin_empty_Inv w a j f pn h w' :
  Inv w -> mgmtData w = Some a -> 0 <= pn ->
  frameAt a j = Ret f -> pageNum f = -1 ->
  (forall k g, 0 <= k < j -> frameAt a k = Ret g -> pageNum g <> -1 /\ pageNum g <> pn) ->
  pin_empty w a j pn = Ret (h, w') -> Inv w'.
Proof.
  intros [Hn Hok] Ha Hpn Hf He Hbefore H. unfold pin_empty in H.
  rewrite Hf in H. simpl in H. injection H as _ <-.
  split; [exact Hn|]. simpl. intros a' [= <-].
  eapply (framesOk_install_empty _ a j f _ pn (Hok _ Ha) Hf He);
    [| | lia | exact Hbefore].
  - destruct (strategy w); reflexivity.
  - destruct (strategy w); simpl; lia.
Qed.

Lemma pin_hit_Inv w a j f pn h w' :
  Inv w -> mgmtData w = Some a -> frameAt a j = Ret f ->
  pin_hit w a j pn = Ret (h, w') -> Inv w'.
Proof.
  intros [Hn Hok] Ha Hf H. unfold pin_hit in H.
  rewrite Hf in H. simpl in H. injection H as _ <-.
  split; [exact Hn|]. simpl. intros a' [= <-].
  pose proof (framesOk_fix _ _ _ _ (Hok _ Ha) Hf) as Hfix.
  eapply (framesOk_update _ a j f _ Hf); [| |exact (Hok _ Ha)].
  - destruct (strategy w); reflexivity.
  - destruct (strategy w); simpl; lia.
Qed.

Lemma pin_first_Inv w a f pn h w' :
  Inv w -> mgmtData w = Some a -> 0 <= pn ->
  frameAt a 0 = Ret f -> pageNum f = -1 ->
  pin_first w a pn = Ret (h, w') -> Inv w'.
Proof.
  intros [Hn Hok] Ha Hpn Hf He H. unfold pin_first in H.
  rewrite Hf in H. simpl in H. injection H as _ <-.
  split; [exact Hn|]. simpl. intros a' [= <-].
  pose proof (framesOk_fix _ _ _ _ (Hok _ Ha) Hf) as Hfix.
  eapply (framesOk_install_empty _ a 0 f _ pn (Hok _ Ha) Hf He);
    [reflexivity | simpl; lia | lia | intros; lia].
Qed.

Lemma policy_call_ok w page w' :
  match strategy w with
  | RS_FIFO => FIFO w page
  | RS_LRU => LRU w page
  | RS_CLOCK => CLOCK w page
  | RS_LFU => LFU w page
  | RS_LRU_K => LRU_K w page
  end = Ret w' -> policy_ok w page w'.
Proof.
  destruct (strategy w); intros H;
    eauto using FIFO_ok, LRU_ok, CLOCK_ok, LFU_ok, LRU_K_ok.
Qed.

Lemma pin_full_Inv w a pn h w' :
  Inv w -> mgmtData w = Some a -> 0 <= pn ->
  (forall k g, 0 <= k < bufferSize w -> frameAt a k = Ret g ->
     pageNum g <> -1 /\ pageNum g <> pn) ->
  pin_full w pn = Ret (h, w') -> Inv w'.
Proof.
  intros [Hn Hok] Ha Hpn Hall H. unfold pin_full, readBlock in H.
  cbv beta iota zeta in H. inv_bind H. injection H as _ <-.
  apply policy_call_ok in E as (H1 & H2 & H3). simpl in *.
  destruct (H3 _ Ha) as (a' & Ha' & Hr).
  split; [congruence|]. intros a'' Ha''. rewrite Ha' in Ha''. injection Ha'' as <-.
  rewrite H1. eapply replaced_ok; eauto; simpl; try lia.
  intros i y Hy. apply pages_lookup in Hy as (g & Hg & <-).
  apply (Hall (Z.of_nat i)); [|assumption].
  apply frameAt_lt in Hg. rewrite (ok_size _ _ (Hok _ Ha)) in Hg. lia.
Qed.

Lemma pinPage_Inv w page pn rc page' w' :
  Inv w -> pinPage w page pn = Ret (rc, page', w') -> Inv w'.
Proof.
  intros HI H. unfold pinPage in H.
  destruct (mgmtData w) as [a|] eqn:Ha; [|injection H as _ _ <-; exact HI].
  destruct (Z.ltb_spec pn 0) as [Hneg|Hpn]; [injection H as _ _ <-; exact HI|].
  inv_bind H. unfold isPageFrameEmpty in H.
  destruct (Z.eqb_spec (pageNum x) (-1)) as [He|Hne]; simpl in H.
  - inv_bind H. destruct x0 as [h1 w1]. injection H as _ _ <-.
    eapply pin_first_Inv; eauto.
  - inv_bind H. inv_bind H. destruct x1 as [h1 w1]. injection H as _ _ <-.
    destruct x0 as [j|].
    + apply first_index_Some in E0 as (Hr & f & Hf & Hp & Hb).
      rewrite Hf in E1. simpl in E1.
      assert (Hbefore : forall k g, 0 <= k < j -> frameAt a k = Ret g ->
                pageNum g <> -1 /\ pageNum g <> pn).
      { intros k g Hk Hg. specialize (Hb k g Hk Hg).
        apply orb_false_elim in Hb as [Hb1 Hb2].
        apply Z.eqb_neq in Hb1, Hb2. auto. }
      destruct (Z.eqb_spec (pageNum f) (-1)) as [Hfe|Hfne].
      * eapply pin_empty_Inv; eauto.
      * eapply pin_hit_Inv; eauto.
    + eapply pin_full_Inv; eauto.
      intros k g Hk Hg.
      pose proof (first_index_None _ _ _ _ E0 k g) as Hb.
      destruct HI as [_ Hok]. pose proof (ok_size _ _ (Hok _ Ha)) as Hsz.
      assert (Hb' : (pageNum g =? -1) || (pageNum g =? pn) = false).
      { apply Hb; [lia | assumption]. }
      apply orb_false_elim in Hb' as [Hb1 Hb2].
      apply Z.eqb_neq in Hb1, Hb2. auto.
Qed.

(** ** forceFlushPool, loop by loop *)

Lemma flush_collect_spec rest : forall pre pagesToWrite wc,
  flush_collect (length rest) (pre ++ rest) (Z.of_nat (length pre)) pagesToWrite wc
  = Ret (pre ++ (flushed <$> rest), pagesToWrite ++ flushPages rest,
         wc + Z.of_nat (length (flushPages rest))).
Proof.
  induction rest as [|f rest IH]; intros pre ps wc; simpl.
  - rewrite !app_nil_r, Z.add_0_r. reflexivity.
  - rewrite (frameAt_nat _ _ f) by apply list_lookup_middle, eq_refl. simpl.
    unfold flushed at 1. fold (flushable f).
    replace (Z.of_nat (length pre) + 1) with (Z.of_nat (length (pre ++ [f])))
      by (rewrite length_app; simpl; lia).
    destruct (flushable f) eqn:Hfl.
    + unfold setFrame. rewrite Nat2Z.id.
      replace (<[length pre := set_dirtyBit f 0]> (pre ++ f :: rest))
        with ((pre ++ [set_dirtyBit f 0]) ++ rest).
      2:{ rewrite <- app_assoc. simpl.
          rewrite insert_app_r_alt by lia. rewrite Nat.sub_diag. reflexivity. }
      replace (length (pre ++ [f])) with (length (pre ++ [set_dirtyBit f 0]))
        by (rewrite !length_app; reflexivity).
      rewrite IH. simpl. rewrite <- !app_assoc. simpl.
      replace (wc + 1 + Z.of_nat (length (flushPages rest)))
        with (wc + Z.of_nat (S (length (flushPages rest)))) by lia.
      reflexivity.
    + replace (pre ++ f :: rest) with ((pre ++ [f]) ++ rest)
        by (rewrite <- app_assoc; reflexivity).
      rewrite IH. rewrite <- !app_assoc. reflexivity.
Qed.

Lemma writtenPages_app t t' : writtenPages (t ++ t') = writtenPages t ++ writtenPages t'.
Proof.
  induction t as [|e t IH]; simpl; [reflexivity|].
  destruct e; simpl; rewrite IH; reflexivity.
Qed.

Lemma flushPages_length a : (length (flushPages a) <= length a)%nat.
Proof. induction a as [|f a IH]; simpl; [lia|]. destruct (flushable f); simpl; lia. Qed.

Lemma flushPages_elem a f :
  f ∈ a -> fixCount f = 0 -> dirtyBit f = 1 -> pageNum f ∈ flushPages a.
Proof.
  intros Hin Hfix Hd. induction Hin as [f a|f g a Hin IH]; simpl.
  - unfold flushable. rewrite Hfix, Hd. simpl. left.
  - destruct (flushable g); [right|]; auto.
Qed.

Lemma flush_write_spec a ps : forall (i : nat) w,
  (i + length ps <= length a)%nat ->
  exists b t, flush_write ps a (Z.of_nat i) w = Ret (with_store w b t) /\
    writtenPages t = writtenPages (trace w) ++ ps.
Proof.
  induction ps as [|n ps IH]; intros i w Hi; simpl in *.
  - exists (blocks w), (trace w). rewrite app_nil_r. split; [|reflexivity].
    destruct w; reflexivity.
  - destruct (lookup_lt_is_Some_2 a i) as [f Hf]; [lia|].
    rewrite (frameAt_nat _ _ _ Hf). simpl.
    replace (Z.of_nat i + 1) with (Z.of_nat (S i)) by lia.
    destruct (IH (S i) (writeBlock n (data f) w)) as (b & t & Hw & Ht); [lia|].
    exists b, t. rewrite Hw. split; [reflexivity|].
    rewrite Ht. simpl. rewrite writtenPages_app. simpl.
    rewrite <- app_assoc. reflexivity.
Qed.

Lemma forceFlushPool_spec w a :
  mgmtData w = Some a -> length a = Z.to_nat (numPages w) ->
  exists b t,
    forceFlushPool w
    = Ret (RC_OK, with_store (with_writeCount (with_frames w (flushed <$> a))
                                (writeCount w + Z.of_nat (length (flushPages a)))) b t) /\
    writtenPages t = writtenPages (trace w) ++ flushPages a.
Proof.
  intros Ha Hlen. unfold forceFlushPool. rewrite Ha, <- Hlen.
  pose proof (flush_collect_spec a [] [] (writeCount w)) as Hc.
  change (Z.of_nat (length [])) with 0 in Hc. simpl in Hc.
  rewrite Hc. simpl.
  destruct (flush_write_spec (flushed <$> a) (flushPages a) 0
              (with_writeCount (with_frames w (flushed <$> a))
                 (writeCount w + Z.of_nat (length (flushPages a)))))
    as (b & t & Hw & Ht).
  { rewrite length_fmap. pose proof (flushPages_length a). lia. }
  change (Z.of_nat 0) with 0 in Hw.
  exists b, t. rewrite Hw. split; [reflexivity | exact Ht].
Qed.

Lemma pages_flushed a : pages (flushed <$> a) = pages a.
Proof.
  unfold pages. rewrite <- list_fmap_compose. apply list_fmap_ext.
  intros i f _. unfold flushed. simpl. destruct (flushable f); reflexivity.
Qed.

Lemma pins_flushed a : pins (flushed <$> a) = pins a.
Proof.
  unfold pins. rewrite <- list_fmap_compose. apply list_fmap_ext.
  intros i f _. unfold flushed. simpl. destruct (flushable f); reflexivity.
Qed.

(** ** Every call keeps the pool well formed *)

Lemma Inv_start b : Inv (startWorld b).
Proof. split; [reflexivity|]. intros a [=]. Qed.

Lemma Inv_init w fn n s : Inv (initBufferPool w fn n s).2.
Proof.
  split; [reflexivity|]. simpl. intros a [= <-]. split.
  - apply length_replicate.
  - intros i j x Hi Hj Hx. unfold pages in Hi.
    rewrite list_lookup_fmap in Hi. apply fmap_Some in Hi as (f & Hf & ->).
    apply lookup_replicate in Hf as [-> _]. contradiction.
  - intros i j y _ Hj _. unfold pages in Hj.
    rewrite list_lookup_fmap in Hj. apply fmap_Some in Hj as (f & Hf & ->).
    apply lookup_replicate in Hf as [-> _]. reflexivity.
  - unfold pins. rewrite Forall_fmap. apply Forall_replicate. simpl. lia.
Qed.

Lemma unpinPage_Inv w page rc w' : Inv w -> unpinPage w page = Ret (rc, w') -> Inv w'.
Proof.
  intros HI H. unfold unpinPage in H.
  destruct (mgmtData w) as [a|] eqn:Ha; [|injection H as _ <-; exact HI].
  inv_bind H. destruct x as [j|]; [|injection H as _ <-; exact HI].
  inv_bind H. destruct (Z.ltb_spec 0 (fixCount x)); injection H as _ <-; [|exact HI].
  destruct HI as [Hn Hok]. split; [exact Hn|]. simpl. intros a' [= <-].
  eapply (framesOk_update _ a j x _ E0); [reflexivity | simpl; lia | exact (Hok _ Ha)].
Qed.

Lemma markDirty_Inv w page rc w' : Inv w -> markDirty w page = Ret (rc, w') -> Inv w'.
Proof.
  intros HI H. unfold markDirty in H. cbv zeta in H.
  inv_bind H. destruct x as [i|]; [|injection H as _ <-; exact HI].
  inv_bind H. injection H as _ <-.
  destruct HI as [Hn Hok]. split; [exact Hn|]. simpl. intros a' [= <-].
  unfold framesOf in *. destruct (mgmtData w) as [a|] eqn:Ha; simpl in *.
  - pose proof (framesOk_fix _ _ _ _ (Hok _ eq_refl) E0).
    eapply (framesOk_update _ a i x _ E0); [reflexivity | simpl; lia | exact (Hok _ eq_refl)].
  - apply frameAt_Ret in E0 as [_ E0]. rewrite lookup_nil in E0. discriminate.
Qed.

Lemma forcePage_Inv w page rc w' : Inv w -> forcePage w page = Ret (rc, w') -> Inv w'.
Proof.
  intros HI H. unfold forcePage in H. cbv zeta in H.
  inv_bind H. destruct x as [i|]; [|injection H as _ <-; exact HI].
  inv_bind H. injection H as _ <-.
  destruct HI as [Hn Hok]. split; [exact Hn|]. simpl. intros a' [= <-].
  unfold framesOf in *. destruct (mgmtData w) as [a|] eqn:Ha; simpl in *.
  - pose proof (framesOk_fix _ _ _ _ (Hok _ eq_refl) E0).
    eapply (framesOk_update _ a i x _ E0); [reflexivity | simpl; lia | exact (Hok _ eq_refl)].
  - apply frameAt_Ret in E0 as [_ E0]. rewrite lookup_nil in E0. discriminate.
Qed.

Lemma forceFlushPool_Inv w rc w' : Inv w -> forceFlushPool w = Ret (rc, w') -> Inv w'.
Proof.
  intros HI H. destruct (mgmtData w) as [a|] eqn:Ha.
  - destruct HI as [Hn Hok]. pose proof (Hok _ Ha) as Hfr.
    destruct (forceFlushPool_spec w a Ha) as (b & t & Hw & _).
    { rewrite Hn. apply (ok_size _ _ Hfr). }
    rewrite Hw in H. injection H as _ <-.
    split; [exact Hn|]. simpl. intros a' [= <-].
    eapply framesOk_same; [apply pages_flushed | apply pins_flushed | exact Hfr].
  - unfold forceFlushPool in H. rewrite Ha in H. injection H as _ <-. exact HI.
Qed.

Lemma shutdownBufferPool_Inv w rc w' :
  Inv w -> shutdownBufferPool w = Ret (rc, w') -> Inv w'.
Proof.
  intros HI H. unfold shutdownBufferPool in H.
  destruct (mgmtData w) as [a|] eqn:Ha; [|injection H as _ <-; exact HI].
  inv_bind H. destruct x; [injection H as _ <-; exact HI|].
  inv_bind H. destruct x as [rc1 w1]. injection H as _ <-.
  apply (forceFlushPool_Inv _ _ _ HI) in E0 as [Hn _].
  split; [exact Hn|]. simpl. intros a' [=].
Qed.

Lemma call_Inv w c rc w' : Inv w -> call w c = Ret (rc, w') -> Inv w'.
Proof.
  intros HI H. destruct c; simpl in H.
  - injection H as _ <-. apply (Inv_init w pageFN n s).
  - inv_bind H. destruct x as [[rc1 h] w1]. injection H as _ <-.
    eapply pinPage_Inv; eauto.
  - eapply unpinPage_Inv; eauto.
  - eapply markDirty_Inv; eauto.
  - eapply forcePage_Inv; eauto.
  - eapply forceFlushPool_Inv; eauto.
  - eapply shutdownBufferPool_Inv; eauto.
Qed.

Lemma reachable_Inv w : reachable w -> Inv w.
Proof.
  induction 1 as [b|w c rc w' _ IH H]; [apply Inv_start | eapply call_Inv; eauto].
Qed.

Lemma run_reachable cs : forall w w', reachable w -> run w cs = Ret w' -> reachable w'.
Proof.
  induction cs as [|c cs IH]; intros w w' Hr H; simpl in H.
  - injection H as <-. exact Hr.
  - inv_bind H. destruct x as [rc w1]. eapply IH; [|exact H].
    eapply reach_call; eauto.
Qed.

Lemma worldAfter_reachable cs : reachable (worldAfter cs).
Proof.
  unfold worldAfter. destruct (run (startWorld disk123) cs) as [w| |w] eqn:H;
    try apply reach_start.
  eapply run_reachable; [apply reach_start | exact H].
Qed.

Lemma first_index_total p a : forall (n i : nat),
  (i + n <= length a)%nat -> exists r, first_index p a (Z.of_nat i) n = Ret r.
Proof.
  induction n as [|n IH]; intros i Hi; simpl; [eauto|].
  destruct (lookup_lt_is_Some_2 a i) as [g Hg]; [lia|].
  rewrite (frameAt_nat _ _ _ Hg). simpl. destruct (p g); [eauto|].
  replace (Z.of_nat i + 1) with (Z.of_nat (S i)) by lia. apply IH. lia.
Qed.

(** ** The invariants of the pool *)

(** C4.  In every world a client can reach, two different slots of the
    pool that are both occupied hold different page numbers. *)
Theorem no_aliasing w a (i j : nat) f g :
  reachable w -> mgmtData w = Some a ->
  a !! i = Some f -> a !! j = Some g -> i <> j ->
  pageNum f <> -1 -> pageNum g <> -1 ->
  pageNum f <> pageNum g.
Proof.
  intros Hr Ha Hi Hj Hij Hf Hg Heq.
  destruct (reachable_Inv _ Hr) as [_ Hok]. destruct (Hok _ Ha) as [_ Hna _ _].
  apply Hij. apply (Hna i j (pageNum f)); [| |assumption].
  - unfold pages. rewrite list_lookup_fmap, Hi. reflexivity.
  - unfold pages. rewrite list_lookup_fmap, Hj. simpl. congruence.
Qed.

Lemma no_aliasing_witness :
  pageNum (mkFrame (Some [Byte.x03]) 3 0 1 0 0) <> pageNum (mkFrame (Some [Byte.x02]) 2 0 1 0 0).
Proof.
  apply (no_aliasing
           (worldAfter [CInit pf 2 RS_FIFO; CPin 1; CPin 2; CUnpin 1; CPin 3])
           [mkFrame (Some [Byte.x03]) 3 0 1 0 0; mkFrame (Some [Byte.x02]) 2 0 1 0 0]
           0 1).
  - apply worldAfter_reachable.
  - reflexivity.
  - reflexivity.
  - reflexivity.
  - lia.
  - simpl; lia.
  - simpl; lia.
Defined.

(** ** markDirty on the empty mark *)

(** C10.  In a pool whose frame array has [bufferSize] slots of which at
    least one is empty, markDirty with page number -1 returns RC_OK and
    sets the dirty bit of the first empty slot; that slot is then empty and
    dirty at once. *)
Theorem markDirty_empty_frame w a d :
  mgmtData w = Some a -> length a = Z.to_nat (bufferSize w) ->
  (exists f, f ∈ a /\ isPageFrameEmpty f = true) ->
  exists (j : nat) f,
    a !! j = Some f /\ isPageFrameEmpty f = true /\
    (forall (k : nat) g, (k < j)%nat -> a !! k = Some g -> isPageFrameEmpty g = false) /\
    markDirty w (mkHandle (-1) d)
    = Ret (RC_OK, with_frames w (<[j := set_dirtyBit f 1]> a)) /\
    isPageFrameEmpty (set_dirtyBit f 1) = true /\ dirtyBit (set_dirtyBit f 1) = 1.
Proof.
  intros Ha Hlen (e & Hin & He).
  destruct (first_index_total (fun f => pageNum f =? -1) a (length a) 0) as [r Hr]; [lia|].
  change (Z.of_nat 0) with 0 in Hr.
  destruct r as [j|].
  - pose proof Hr as Hs. apply first_index_Some in Hs as (Hj & f & Hf & Hp & Hb).
    pose proof Hf as Hf'. apply frameAt_Ret in Hf' as [_ Hl].
    exists (Z.to_nat j), f. repeat split; try assumption.
    + intros k g Hk Hg. apply (Hb (Z.of_nat k)); [lia|]. apply frameAt_nat, Hg.
    + unfold markDirty, framesOf. rewrite Ha. simpl. rewrite <- Hlen, Hr. simpl.
      rewrite Hf. reflexivity.
  - exfalso. apply list_elem_of_lookup in Hin as [k Hk].
    pose proof (first_index_None _ _ _ _ Hr (Z.of_nat k) e) as Hn.
    unfold isPageFrameEmpty in He. rewrite Hn in He; [discriminate| |].
    + apply lookup_lt_Some in Hk. lia.
    + apply frameAt_nat, Hk.
Qed.

Lemma markDirty_empty_frame_witness :
  exists (j : nat) f,
    [mkFrame (Some [Byte.x01]) 1 0 1 0 0; emptyFrame] !! j = Some f /\
    isPageFrameEmpty f = true /\
    (forall (k : nat) g, (k < j)%nat ->
       [mkFrame (Some [Byte.x01]) 1 0 1 0 0; emptyFrame] !! k = Some g ->
       isPageFrameEmpty g = false) /\
    markDirty (worldAfter [CInit pf 2 RS_FIFO; CPin 1]) (mkHandle (-1) None)
    = Ret (RC_OK, with_frames (worldAfter [CInit pf 2 RS_FIFO; CPin 1])
                    (<[j := set_dirtyBit f 1]>
                       [mkFrame (Some [Byte.x01]) 1 0 1 0 0; emptyFrame])) /\
    isPageFrameEmpty (set_dirtyBit f 1) = true /\ dirtyBit (set_dirtyBit f 1) = 1.
Proof.
  apply (markDirty_empty_frame (worldAfter [CInit pf 2 RS_FIFO; CPin 1])
           [mkFrame (Some [Byte.x01]) 1 0 1 0 0; emptyFrame] None).
  - reflexivity.
  - reflexivity.
  - exists emptyFrame. split; [|reflexivity]. right. left.
Defined.

(** ** unpinPage *)

Lemma unpinPage_first w a (j : nat) f page :
  mgmtData w = Some a -> length a = Z.to_nat (numPages w) ->
  a !! j = Some f -> pageNum f = ph_pageNum page ->
  (forall (k : nat) g, (k < j)%nat -> a !! k = Some g -> pageNum g <> ph_pageNum page) ->
  unpinPage w page
  = if 0 <? fixCount f
    then Ret (RC_OK, with_frames w (<[j := set_fixCount f (fixCount f - 1)]> a))
    else Ret (RC_PAGE_NOT_PINNED, w).
Proof.
  intros Ha Hlen Hj Hp Hb. unfold unpinPage. rewrite Ha, <- Hlen.
  rewrite (first_index_found _ a j f Hj) with (i := 0%nat).
  - simpl. rewrite (frameAt_nat _ _ _ Hj). simpl. unfold setFrame.
    rewrite Nat2Z.id. reflexivity.
  - apply Z.eqb_eq, Hp.
  - intros k g Hk Hg. apply Z.eqb_neq. eauto.
  - apply lookup_lt_Some in Hj. lia.
Qed.

(** C7.  In a reachable world, for a page number n >= 0: unpinPage
    returns RC_POOL_NOT_OPEN when the pool is shut (mgmtData is null),
    RC_PAGE_NOT_IN_FRAMELIST when no frame holds n, RC_PAGE_NOT_PINNED when
    the frame holding n has fix count 0, and otherwise returns RC_OK with
    the fix count of that frame lowered by one and nothing else changed. *)
Theorem unpinPage_spec w n d :
  reachable w -> 0 <= n ->
  (mgmtData w = None -> unpinPage w (mkHandle n d) = Ret (RC_POOL_NOT_OPEN, w)) /\
  (forall a, mgmtData w = Some a ->
     ((forall f, f ∈ a -> pageNum f <> n) ->
      unpinPage w (mkHandle n d) = Ret (RC_PAGE_NOT_IN_FRAMELIST, w)) /\
     (forall (j : nat) f, a !! j = Some f -> pageNum f = n ->
        (fixCount f = 0 ->
         unpinPage w (mkHandle n d) = Ret (RC_PAGE_NOT_PINNED, w)) /\
        (fixCount f <> 0 ->
         unpinPage w (mkHandle n d)
         = Ret (RC_OK, with_frames w (<[j := set_fixCount f (fixCount f - 1)]> a))))).
Proof.
  intros Hr Hn. split.
  - intros Ha. unfold unpinPage. rewrite Ha. reflexivity.
  - intros a Ha. destruct (reachable_Inv _ Hr) as [Hnum Hok].
    pose proof (Hok _ Ha) as Hfr.
    assert (Hlen : length a = Z.to_nat (numPages w)).
    { rewrite Hnum. apply (ok_size _ _ Hfr). }
    split.
    + intros Hall. unfold unpinPage. rewrite Ha, <- Hlen. simpl.
      rewrite (first_index_none _ a) with (i := 0%nat); [reflexivity| |lia].
      intros k g Hg. apply Z.eqb_neq. apply Hall.
      apply list_elem_of_lookup. eauto.
    + intros j f Hj Hp.
      assert (Hfirst : forall (k : nat) g, (k < j)%nat -> a !! k = Some g ->
                pageNum g <> ph_pageNum (mkHandle n d)).
      { simpl. intros k g Hk Hg Heq.
        assert (k = j); [|lia].
        apply (ok_alias _ _ Hfr k j n); [| |lia].
        - unfold pages. rewrite list_lookup_fmap, Hg. simpl. congruence.
        - unfold pages. rewrite list_lookup_fmap, Hj. simpl. congruence. }
      pose proof (unpinPage_first w a j f (mkHandle n d) Ha Hlen Hj Hp Hfirst) as Hu.
      pose proof (framesOk_fix _ _ (Z.of_nat j) f Hfr (frameAt_nat _ _ _ Hj)) as Hfix.
      split; intros Hc; rewrite Hu.
      * rewrite Hc. reflexivity.
      * destruct (Z.ltb_spec 0 (fixCount f)); [reflexivity | lia].
Qed.

Lemma unpinPage_spec_witness :
  unpinPage (worldAfter [CInit pf 2 RS_FIFO; CPin 1; CPin 1]) (mkHandle 1 None)
  = Ret (RC_OK,
         with_frames (worldAfter [CInit pf 2 RS_FIFO; CPin 1; CPin 1])
           [mkFrame (Some [Byte.x01]) 1 0 1 0 0; emptyFrame]).
Proof.
  pose proof (unpinPage_spec (worldAfter [CInit pf 2 RS_FIFO; CPin 1; CPin 1]) 1 None
                (worldAfter_reachable _)) as H.
  destruct H as [_ H]; [lia|].
  destruct (H [mkFrame (Some [Byte.x01]) 1 0 2 0 0; emptyFrame] eq_refl) as [_ H2].
  destruct (H2 0%nat (mkFrame (Some [Byte.x01]) 1 0 2 0 0) eq_refl eq_refl) as [_ H3].
  apply H3. simpl. lia.
Defined.

(** ** shutdownBufferPool *)

Lemma shutdown_cases w a :
  Inv w -> mgmtData w = Some a ->
  ((exists f, f ∈ a /\ 0 < fixCount f) /\
   shutdownBufferPool w = Ret (RC_PINNED_PAGES_IN_BUFFER, w)) \/
  ((forall f, f ∈ a -> fixCount f = 0) /\
   exists b t,
     shutdownBufferPool w
     = Ret (RC_OK,
            with_mgmtData
              (with_store (with_writeCount (with_frames w (flushed <$> a))
                             (writeCount w + Z.of_nat (length (flushPages a)))) b t)
              None) /\
     writtenPages t = writtenPages (trace w) ++ flushPages a).
Proof.
  intros [Hnum Hok] Ha. pose proof (Hok _ Ha) as Hfr.
  pose proof (ok_size _ _ Hfr) as Hsz.
  destruct (first_index_total (fun f => negb (fixCount f =? 0)) a (length a) 0)
    as [r Hr]; [lia|].
  change (Z.of_nat 0) with 0 in Hr.
  unfold shutdownBufferPool. rewrite Ha, <- Hsz, Hr. simpl.
  destruct r as [j|].
  - left. split; [|reflexivity].
    apply first_index_Some in Hr as (_ & f & Hf & Hp & _).
    pose proof (framesOk_fix _ _ _ _ Hfr Hf) as Hfix.
    exists f. split.
    + apply frameAt_Ret in Hf as [_ Hf]. apply list_elem_of_lookup. eauto.
    + apply negb_true_iff, Z.eqb_neq in Hp. lia.
  - right.
    assert (Hall : forall f, f ∈ a -> fixCount f = 0).
    { intros f Hin. apply list_elem_of_lookup in Hin as [k Hk].
      pose proof (first_index_None _ _ _ _ Hr (Z.of_nat k) f) as Hn.
      apply Z.eqb_eq, negb_false_iff. apply Hn.
      - apply lookup_lt_Some in Hk. lia.
      - apply frameAt_nat, Hk. }
    split; [exact Hall|].
    destruct (forceFlushPool_spec w a Ha) as (b & t & Hw & Ht).
    { rewrite Hnum. exact Hsz. }
    rewrite Hw. simpl. exists b, t. split; [reflexivity | exact Ht].
Qed.

(** C8, as the code has it.  In a reachable world: on a pool that is
    already shut, shutdownBufferPool returns RC_BUFFER_POOL_SHUTDOWN_ERROR
    and changes nothing; on an open pool it returns
    RC_PINNED_PAGES_IN_BUFFER if and only if some frame has a positive fix
    count, and then changes nothing; otherwise it returns RC_OK, hands one
    block to the page store under the page number of every dirty frame,
    counts each of them in the write counter, and leaves the pool shut
    (mgmtData null). *)
Theorem shutdownBufferPool_spec w :
  reachable w ->
  (mgmtData w = None ->
   shutdownBufferPool w = Ret (RC_BUFFER_POOL_SHUTDOWN_ERROR, w)) /\
  (forall a, mgmtData w = Some a ->
     ((exists w', shutdownBufferPool w = Ret (RC_PINNED_PAGES_IN_BUFFER, w'))
      <-> (exists f, f ∈ a /\ 0 < fixCount f)) /\
     ((exists f, f ∈ a /\ 0 < fixCount f) ->
      shutdownBufferPool w = Ret (RC_PINNED_PAGES_IN_BUFFER, w)) /\
     ((forall f, f ∈ a -> fixCount f = 0) ->
      exists w', shutdownBufferPool w = Ret (RC_OK, w') /\
        mgmtData w' = None /\
        writtenPages (trace w') = writtenPages (trace w) ++ flushPages a /\
        (forall f, f ∈ a -> dirtyBit f = 1 -> pageNum f ∈ flushPages a) /\
        writeCount w' = writeCount w + Z.of_nat (length (flushPages a)))).
Proof.
  intros Hr. split.
  - intros Ha. unfold shutdownBufferPool. rewrite Ha. reflexivity.
  - intros a Ha.
    destruct (shutdown_cases w a (reachable_Inv _ Hr) Ha)
      as [[(f & Hin & Hfix) Hs]|[Hall (b & t & Hs & Ht)]].
    + repeat split.
      * intros _. eauto.
      * intros _. eauto.
      * intros _. exact Hs.
      * intros Hz. specialize (Hz f Hin). lia.
    + repeat split.
      * intros [w' Hw']. rewrite Hs in Hw'. discriminate.
      * intros (f & Hin & Hfix). specialize (Hall f Hin). lia.
      * intros (f & Hin & Hfix). specialize (Hall f Hin). lia.
      * intros _. eexists. split; [exact Hs|]. simpl.
        split; [reflexivity|]. split; [exact Ht|]. split; [|reflexivity].
        intros f Hin Hd. apply flushPages_elem; auto.
Qed.

Lemma shutdownBufferPool_spec_witness :
  shutdownBufferPool (worldAfter [CInit pf 2 RS_FIFO; CPin 1; CPin 2; CUnpin 2])
  = Ret (RC_PINNED_PAGES_IN_BUFFER,
         worldAfter [CInit pf 2 RS_FIFO; CPin 1; CPin 2; CUnpin 2]).
Proof.
  pose proof (shutdownBufferPool_spec
                (worldAfter [CInit pf 2 RS_FIFO; CPin 1; CPin 2; CUnpin 2])
                (worldAfter_reachable _)) as [_ H].
  destruct (H [mkFrame (Some [Byte.x01]) 1 0 1 0 0; mkFrame (Some [Byte.x02]) 2 0 0 0 0]
              eq_refl) as (_ & H2 & _).
  apply H2. exists (mkFrame (Some [Byte.x01]) 1 0 1 0 0). split; [left | simpl; lia].
Defined.

(** C8 as stated fails: a second shutdown is answered with
    RC_BUFFER_POOL_SHUTDOWN_ERROR, which is not the RC_POOL_NOT_OPEN that
    unpinPage gives on a shut pool; and the block that goes out for the
    dirty page 2 is the buffer of frame 0, which holds page 1. *)
Lemma shutdown_counterexample :
  codesAfter [CInit pf 1 RS_FIFO; CShutdown; CShutdown; CUnpin 1]
  = Ret [RC_OK; RC_OK; RC_BUFFER_POOL_SHUTDOWN_ERROR; RC_POOL_NOT_OPEN]
  /\ RC_BUFFER_POOL_SHUTDOWN_ERROR <> RC_POOL_NOT_OPEN
  /\ buffersAfter [CInit pf 2 RS_FIFO; CPin 1; CPin 2; CMarkDirty 2; CUnpin 1; CUnpin 2]
     = Ret [Some [Byte.x01]; Some [Byte.x02]]
  /\ traceAfter [CInit pf 2 RS_FIFO; CPin 1; CPin 2; CMarkDirty 2; CUnpin 1; CUnpin 2;
                 CShutdown]
     = Ret [EvEnsure 1; EvRead 1; EvRead 2; EvWrite 2 (Some [Byte.x01])].
Proof. repeat split; try discriminate; vm_compute; reflexivity. Qed.

(** ** A pool of one frame whose page stays pinned *)

Lemma FIFO_scan_all_pinned w a :
  Z.of_nat (length a) = bufferSize w ->
  (forall f, f ∈ a -> 0 < fixCount f) ->
  forall fuel frontIndex, 0 <= frontIndex < bufferSize w ->
  FIFO_scan fuel w a frontIndex = Diverges w.
Proof.
  intros Hlen Hall. induction fuel as [|fuel IH]; intros i Hi; simpl; [reflexivity|].
  destruct (lookup_lt_is_Some_2 a (Z.to_nat i)) as [f Hf]; [lia|].
  assert (Hfr : frameAt a i = Ret f) by (apply frameAt_Ret; split; [lia | exact Hf]).
  rewrite Hfr. simpl.
  assert (Hpin : 0 < fixCount f).
  { apply Hall. apply list_elem_of_lookup. eauto. }
  destruct (Z.ltb_spec 0 (fixCount f)); [|lia].
  unfold c_rem. destruct (Z.eqb_spec (bufferSize w) 0); [lia|]. simpl.
  apply IH. apply Z.rem_bound_pos; lia.
Qed.

(** C6, as the code has it.  Under FIFO, in a pool of one frame that
    holds a page with a positive fix count, pinPage for another page
    number >= 0 does not return: the scan for a victim goes round for ever,
    whatever the number of steps allowed, and the frame it spins on is the
    one that was there, page number, buffer, fix count and dirty bit
    included. *)
Theorem pinPage_FIFO_one_pinned_frame w f page pn :
  mgmtData w = Some [f] -> bufferSize w = 1 -> strategy w = RS_FIFO ->
  pageNum f <> -1 -> pageNum f <> pn -> 0 < fixCount f -> 0 <= pn ->
  exists w',
    pinPage w page pn = Diverges w' /\
    mgmtData w' = Some [f] /\
    forall fuel, FIFO_scan fuel w' (framesOf w') (Z.rem (rearIndex w') (bufferSize w'))
                 = Diverges w'.
Proof.
  intros Ha Hbs Hs He Hp Hfix Hpn.
  exists (with_rearIndex
            (with_hit (with_store w (blocks w) (trace w ++ [EvRead pn])) (hit w + 1))
            (rearIndex w + 1)).
  split; [|split].
  - unfold pinPage. rewrite Ha.
    destruct (Z.ltb_spec pn 0); [lia|].
    change (frameAt [f] 0) with (Ret f). simpl.
    unfold isPageFrameEmpty.
    destruct (Z.eqb_spec (pageNum f) (-1)); [contradiction|]. simpl.
    rewrite Hbs. simpl. change (frameAt [f] 0) with (Ret f). simpl.
    destruct (Z.eqb_spec (pageNum f) (-1)); [contradiction|].
    destruct (Z.eqb_spec (pageNum f) pn); [contradiction|]. simpl.
    unfold pin_full, readBlock. cbv beta iota zeta.
    match goal with |- context [FIFO ?x _] => set (w2 := x) end.
    change (strategy w2) with (strategy w). rewrite Hs.
    unfold FIFO. cbv zeta.
    change (framesOf w2) with (default [] (mgmtData w)).
    change (bufferSize w2) with (bufferSize w).
    rewrite Ha, Hbs. unfold c_rem. simpl.
    rewrite Z.rem_1_r. change (frameAt [f] 0) with (Ret f). simpl.
    destruct (Z.ltb_spec 0 (fixCount f)); [|lia].
    change (bufferSize w2) with (bufferSize w). rewrite Hbs. reflexivity.
  - exact Ha.
  - intros fuel. apply FIFO_scan_all_pinned.
    + change (Z.of_nat (length (default [] (mgmtData w))) = bufferSize w).
      rewrite Ha, Hbs. reflexivity.
    + change (forall g, g ∈ default [] (mgmtData w) -> 0 < fixCount g).
      rewrite Ha. simpl. intros g Hg.
      apply list_elem_of_singleton in Hg. subst g. exact Hfix.
    + change (0 <= Z.rem (rearIndex w + 1) (bufferSize w) < bufferSize w).
      rewrite Hbs, Z.rem_1_r. lia.
Qed.

Lemma pinPage_FIFO_one_pinned_frame_witness :
  exists w',
    pinPage (worldAfter [CInit pf 1 RS_FIFO; CPin 1]) (mkHandle 0 None) 2 = Diverges w' /\
    mgmtData w' = Some [mkFrame (Some [Byte.x01]) 1 0 1 0 0] /\
    forall fuel, FIFO_scan fuel w' (framesOf w') (Z.rem (rearIndex w') (bufferSize w'))
                 = Diverges w'.
Proof.
  apply (pinPage_FIFO_one_pinned_frame (worldAfter [CInit pf 1 RS_FIFO; CPin 1])
           (mkFrame (Some [Byte.x01]) 1 0 1 0 0) (mkHandle 0 None) 2).
  - reflexivity.
  - reflexivity.
  - reflexivity.
  - simpl; lia.
  - simpl; lia.
  - simpl; lia.
  - lia.
Defined.

(** C6 as stated fails: no call returns an error code.  Under FIFO the
    second pinPage does not return; under LRU it returns RC_OK and the
    pinned frame now holds page 2; under CLOCK it returns RC_OK with the
    page in no frame. *)
Lemma capacity_exhausted_counterexample :
  (exists w, codesAfter [CInit pf 1 RS_FIFO; CPin 1; CPin 2] = Diverges w)
  /\ fixCountsAfter [CInit pf 1 RS_LRU; CPin 1] = Ret [1]
  /\ codesAfter [CInit pf 1 RS_LRU; CPin 1; CPin 2] = Ret [RC_OK; RC_OK; RC_OK]
  /\ contentsAfter [CInit pf 1 RS_LRU; CPin 1; CPin 2] = Ret [2]
  /\ codesAfter [CInit pf 1 RS_CLOCK; CPin 1; CPin 2] = Ret [RC_OK; RC_OK; RC_OK]
  /\ contentsAfter [CInit pf 1 RS_CLOCK; CPin 1; CPin 2] = Ret [1].
Proof.
  split; [eexists; vm_compute; reflexivity|].
  repeat split; vm_compute; reflexivity.
Qed.

(** The fuel FIFO gives its scan is enough: when a frame is not pinned
    the scan returns one, so [Diverges] only stands for a scan that does go
    round for ever. *)
Lemma FIFO_scan_reaches w a :
  Z.of_nat (length a) = bufferSize w ->
  forall fuel frontIndex d,
    0 <= frontIndex < bufferSize w -> 0 <= d < Z.of_nat fuel ->
    (exists f, frameAt a ((frontIndex + d) mod bufferSize w) = Ret f /\ fixCount f <= 0) ->
    exists j f, FIFO_scan fuel w a frontIndex = Ret j /\
                frameAt a j = Ret f /\ fixCount f <= 0.
Proof.
  intros Hlen. induction fuel as [|fuel IH]; intros i d Hi Hd (f & Hf & Hfix); [lia|].
  simpl. destruct (lookup_lt_is_Some_2 a (Z.to_nat i)) as [g Hg]; [lia|].
  assert (Hfr : frameAt a i = Ret g) by (apply frameAt_Ret; split; [lia | exact Hg]).
  rewrite Hfr. simpl. destruct (Z.ltb_spec 0 (fixCount g)) as [Hpin|Hfree].
  - assert (d <> 0).
    { intros ->. rewrite Z.add_0_r, Z.mod_small in Hf by lia.
      rewrite Hfr in Hf. injection Hf as <-. lia. }
    unfold c_rem. destruct (Z.eqb_spec (bufferSize w) 0); [lia|]. simpl.
    rewrite Z.rem_mod_nonneg by lia.
    apply (IH _ (d - 1)).
    + apply Z.mod_pos_bound. lia.
    + lia.
    + exists f. split; [|exact Hfix].
      rewrite Z.add_mod_idemp_l by lia.
      replace (i + 1 + (d - 1)) with (i + d) by lia. exact Hf.
  - exists i, g. auto.
Qed.

Lemma FIFO_scan_exact w a frontIndex w' :
  Z.of_nat (length a) = bufferSize w -> 0 <= frontIndex < bufferSize w ->
  FIFO_scan (length a) w a frontIndex = Diverges w' ->
  forall f, f ∈ a -> 0 < fixCount f.
Proof.
  intros Hlen Hi Hdiv f Hin.
  destruct (Z.ltb_spec 0 (fixCount f)) as [|Hfree]; [assumption|exfalso].
  apply list_elem_of_lookup in Hin as [k Hk].
  pose proof (lookup_lt_Some _ _ _ Hk) as Hlt.
  destruct (FIFO_scan_reaches w a Hlen (length a) frontIndex
              ((Z.of_nat k - frontIndex) mod bufferSize w))
    as (j & g & Hs & _); [lia | | | congruence].
  - pose proof (Z.mod_pos_bound (Z.of_nat k - frontIndex) (bufferSize w)). lia.
  - exists f. split; [|exact Hfree].
    rewrite Z.add_mod_idemp_r by lia.
    replace (frontIndex + (Z.of_nat k - frontIndex)) with (Z.of_nat k) by lia.
    rewrite Z.mod_small by lia. apply frameAt_nat, Hk.
Qed.

(** ** What the policies do to pinned and to dirty frames *)

(** C1 fails on the code.  With both frames of a pool of two pinned, LRU,
    LRU_K and LFU settle on frame 0 and pinPage puts page 3 there; CLOCK,
    one hit later, puts page 4 into the pinned frame 1.  Every call
    returns RC_OK. *)
Theorem pinned_frame_evicted :
  (fixCountsAfter [CInit pf 2 RS_LRU; CPin 1; CPin 2] = Ret [1; 1]
   /\ victimAfter LRU_select [CInit pf 2 RS_LRU; CPin 1; CPin 2] = Ret 0
   /\ codesAfter [CInit pf 2 RS_LRU; CPin 1; CPin 2; CPin 3]
      = Ret [RC_OK; RC_OK; RC_OK; RC_OK]
   /\ contentsAfter [CInit pf 2 RS_LRU; CPin 1; CPin 2; CPin 3] = Ret [3; 2])
  /\ (fixCountsAfter [CInit pf 2 RS_LRU_K; CPin 1; CPin 2] = Ret [1; 1]
      /\ victimAfter LRU_K_select [CInit pf 2 RS_LRU_K; CPin 1; CPin 2] = Ret 0
      /\ contentsAfter [CInit pf 2 RS_LRU_K; CPin 1; CPin 2; CPin 3] = Ret [3; 2])
  /\ (fixCountsAfter [CInit pf 2 RS_LFU; CPin 1; CPin 2] = Ret [1; 1]
      /\ victimAfter LFU_select [CInit pf 2 RS_LFU; CPin 1; CPin 2] = Ret 0
      /\ contentsAfter [CInit pf 2 RS_LFU; CPin 1; CPin 2; CPin 3] = Ret [3; 2])
  /\ (fixCountsAfter [CInit pf 2 RS_CLOCK; CPin 1; CPin 2; CPin 1; CPin 3] = Ret [2; 1]
      /\ contentsAfter [CInit pf 2 RS_CLOCK; CPin 1; CPin 2; CPin 1; CPin 3] = Ret [1; 2]
      /\ contentsAfter [CInit pf 2 RS_CLOCK; CPin 1; CPin 2; CPin 1; CPin 3; CPin 4]
         = Ret [1; 4]).
Proof. repeat split; vm_compute; reflexivity. Qed.

(** C2 fails on the code.  In a pool of one frame under LRU (and LRU_K
    alike), page 1 is pinned, marked dirty, unpinned and then evicted by
    pinning page 2: the frame is overwritten and the page store never sees
    a write.  FIFO, on the same calls, writes page 1 first. *)
Theorem dirty_victim_not_written :
  dirtyFlagsAfter [CInit pf 1 RS_LRU; CPin 1; CMarkDirty 1; CUnpin 1] = Ret [true]
  /\ codesAfter [CInit pf 1 RS_LRU; CPin 1; CMarkDirty 1; CUnpin 1; CPin 2]
     = Ret [RC_OK; RC_OK; RC_OK; RC_OK; RC_OK]
  /\ contentsAfter [CInit pf 1 RS_LRU; CPin 1; CMarkDirty 1; CUnpin 1; CPin 2] = Ret [2]
  /\ traceAfter [CInit pf 1 RS_LRU; CPin 1; CMarkDirty 1; CUnpin 1; CPin 2]
     = Ret [EvEnsure 1; EvRead 1; EvRead 2]
  /\ traceAfter [CInit pf 1 RS_LRU_K; CPin 1; CMarkDirty 1; CUnpin 1; CPin 2]
     = Ret [EvEnsure 1; EvRead 1; EvRead 2]
  /\ traceAfter [CInit pf 1 RS_FIFO; CPin 1; CMarkDirty 1; CUnpin 1; CPin 2]
     = Ret [EvEnsure 1; EvRead 1; EvRead 2; EvWrite 1 (Some [Byte.x01])].
Proof. repeat split; vm_compute; reflexivity. Qed.

(** C3 fails on the code.  Frame 0 holds page 1 and is clean and pinned,
    frame 1 holds page 2 and is dirty and unpinned.  forceFlushPool writes
    under page number 2, clears the dirty bit of frame 1 and counts one
    write, but the block it hands over is the buffer of frame 0. *)
Theorem flush_writes_wrong_buffer :
  buffersAfter [CInit pf 2 RS_FIFO; CPin 1; CPin 2; CMarkDirty 2; CUnpin 2]
  = Ret [Some [Byte.x01]; Some [Byte.x02]]
  /\ dirtyFlagsAfter [CInit pf 2 RS_FIFO; CPin 1; CPin 2; CMarkDirty 2; CUnpin 2]
     = Ret [false; true]
  /\ fixCountsAfter [CInit pf 2 RS_FIFO; CPin 1; CPin 2; CMarkDirty 2; CUnpin 2]
     = Ret [1; 0]
  /\ traceAfter [CInit pf 2 RS_FIFO; CPin 1; CPin 2; CMarkDirty 2; CUnpin 2; CFlush]
     = Ret [EvEnsure 1; EvRead 1; EvRead 2; EvWrite 2 (Some [Byte.x01])]
  /\ dirtyFlagsAfter [CInit pf 2 RS_FIFO; CPin 1; CPin 2; CMarkDirty 2; CUnpin 2; CFlush]
     = Ret [false; false]
  /\ writeIOAfter [CInit pf 2 RS_FIFO; CPin 1; CPin 2; CMarkDirty 2; CUnpin 2; CFlush]
     = Ret 1.
Proof. repeat split; vm_compute; reflexivity. Qed.

(** C5 fails on the code.  In a pool of one frame under LFU, a clean
    victim is written to the page store before it is overwritten, and a
    dirty victim is overwritten without a write. *)
Theorem LFU_flushes_on_clean :
  dirtyFlagsAfter [CInit pf 1 RS_LFU; CPin 1; CUnpin 1] = Ret [false]
  /\ traceAfter [CInit pf 1 RS_LFU; CPin 1; CUnpin 1; CPin 2]
     = Ret [EvEnsure 1; EvRead 1; EvRead 2; EvWrite 1 (Some [Byte.x01])]
  /\ writeIOAfter [CInit pf 1 RS_LFU; CPin 1; CUnpin 1; CPin 2] = Ret 1
  /\ dirtyFlagsAfter [CInit pf 1 RS_LFU; CPin 1; CMarkDirty 1; CUnpin 1] = Ret [true]
  /\ traceAfter [CInit pf 1 RS_LFU; CPin 1; CMarkDirty 1; CUnpin 1; CPin 2]
     = Ret [EvEnsure 1; EvRead 1; EvRead 2]
  /\ writeIOAfter [CInit pf 1 RS_LFU; CPin 1; CMarkDirty 1; CUnpin 1; CPin 2] = Ret 0
  /\ contentsAfter [CInit pf 1 RS_LFU; CPin 1; CMarkDirty 1; CUnpin 1; CPin 2] = Ret [2].
Proof. repeat split; vm_compute; reflexivity. Qed.

(** ** The read counter *)

(** C9 fails on the code.  Right after initBufferPool in a fresh process
    no block has been read and getNumReadIO answers 1; the first pinPage
    reads one block and the answer is still 1; from then on it follows the
    reads. *)
Theorem read_count_after_init :
  traceAfter [CInit pf 2 RS_FIFO] = Ret []
  /\ readIOAfter [CInit pf 2 RS_FIFO] = Ret 1
  /\ traceAfter [CInit pf 2 RS_FIFO; CPin 1] = Ret [EvEnsure 1; EvRead 1]
  /\ readIOAfter [CInit pf 2 RS_FIFO; CPin 1] = Ret 1
  /\ readIOAfter [CInit pf 2 RS_FIFO; CPin 1; CPin 2] = Ret 2
  /\ readIOAfter [CInit pf 2 RS_FIFO; CPin 1; CPin 2; CPin 2] = Ret 2.
Proof. repeat split; vm_compute; reflexivity. Qed.

(** ** The scenarios of the specification *)

Example scenario_A :
  contentsAfter [CInit pf 3 RS_FIFO; CPin 10; CPin 20; CPin 30; CPin 10] = Ret [10; 20; 30]
  /\ fixCountsAfter [CInit pf 3 RS_FIFO; CPin 10; CPin 20; CPin 30; CPin 10] = Ret [2; 1; 1].
Proof. split; vm_compute; reflexivity. Qed.

Example scenario_B :
  contentsAfter [CInit pf 2 RS_FIFO; CPin 1; CPin 2; CUnpin 1; CPin 3] = Ret [3; 2].
Proof. vm_compute; reflexivity. Qed.

Example scenario_D :
  contentsAfter [CInit pf 2 RS_LRU; CPin 1; CPin 2; CUnpin 1; CUnpin 2; CPin 1; CPin 3]
  = Ret [1; 3].
Proof. vm_compute; reflexivity. Qed.


(** * Further properties of the code *)

(** ** What holds in every reachable world *)



(** In every reachable world no frame has a negative fix count. *)
Theorem fix_counts_never_negative w a f :
  reachable w -> mgmtData w = Some a -> f ∈ a -> 0 <= fixCount f.
Proof.
  intros Hr Ha Hin. destruct (reachable_Inv _ Hr) as [_ Hok].
  apply list_elem_of_lookup in Hin as [k Hk].
  apply (framesOk_fix _ a (Z.of_nat k) f (Hok _ Ha)). apply frameAt_nat, Hk.
Qed.

Lemma fix_counts_never_negative_witness :
  0 <= fixCount (mkFrame (Some [Byte.x01]) 1 0 0 0 0).
Proof.
  apply (fix_counts_never_negative
           (worldAfter [CInit pf 1 RS_FIFO; CPin 1; CUnpin 1; CUnpin 1])
           [mkFrame (Some [Byte.x01]) 1 0 0 0 0]).
  - apply worldAfter_reachable.
  - reflexivity.
  - left.
Defined.

(** In every reachable world the empty slots of the pool are its last
    slots: behind an empty slot there is no occupied one. *)
Theorem empty_slots_form_tail w a (i j : nat) f g :
  reachable w -> mgmtData w = Some a ->
  a !! i = Some f -> a !! j = Some g -> (i <= j)%nat ->
  isPageFrameEmpty f = true -> isPageFrameEmpty g = true.
Proof.
  intros Hr Ha Hi Hj Hle He. destruct (reachable_Inv _ Hr) as [_ Hok].
  unfold isPageFrameEmpty in *. apply Z.eqb_eq in He. apply Z.eqb_eq.
  apply (ok_tail _ _ (Hok _ Ha) i j (pageNum g)); [| |exact Hle].
  - unfold pages. rewrite list_lookup_fmap, Hi. simpl. congruence.
  - unfold pages. rewrite list_lookup_fmap, Hj. reflexivity.
Qed.

Lemma empty_slots_form_tail_witness :
  isPageFrameEmpty emptyFrame = true.
Proof.
  apply (empty_slots_form_tail
           (worldAfter [CInit pf 3 RS_CLOCK; CPin 1])
           [mkFrame (Some [Byte.x01]) 1 0 1 0 0; emptyFrame; emptyFrame]
           1 2 emptyFrame emptyFrame).
  - apply worldAfter_reachable.
  - reflexivity.
  - reflexivity.
  - reflexivity.
  - lia.
  - reflexivity.
Defined.

(** ** The statistics functions *)

Lemma read_all_spec {A} (g : PageFrame -> A) rest : forall pre,
  read_all g (pre ++ rest) (Z.of_nat (length pre)) (length rest) = Ret (g <$> rest).
Proof.
  induction rest as [|f rest IH]; intros pre; simpl; [reflexivity|].
  rewrite (frameAt_nat _ _ f) by apply list_lookup_middle, eq_refl. simpl.
  replace (Z.of_nat (length pre) + 1) with (Z.of_nat (length (pre ++ [f])))
    by (rewrite length_app; simpl; lia).
  replace (pre ++ f :: rest) with ((pre ++ [f]) ++ rest)
    by (rewrite <- app_assoc; reflexivity).
  rewrite IH. reflexivity.
Qed.

(** In every reachable world with an open pool the three array-valued
    statistics functions return, slot by slot, the page numbers (-1 for an
    empty slot), the fix counts and the dirty bits of the frames. *)
Theorem statistics_are_snapshots w a :
  reachable w -> mgmtData w = Some a ->
  getFrameContents w = Ret (pageNum <$> a) /\
  getFixCounts w = Ret (fixCount <$> a) /\
  getDirtyFlags w = Ret ((fun f => dirtyBit f =? 1) <$> a).
Proof.
  intros Hr Ha. destruct (reachable_Inv _ Hr) as [_ Hok].
  pose proof (Hok _ Ha) as Hfr. pose proof (ok_size _ _ Hfr) as Hsz.
  unfold getFrameContents, getFixCounts, getDirtyFlags, framesOf.
  rewrite Ha, <- Hsz. simpl. repeat split.
  - rewrite (read_all_spec _ a []). f_equal. apply list_fmap_ext.
    intros i f _. unfold NO_PAGE. destruct (Z.eqb_spec (pageNum f) (-1)); simpl; congruence.
  - rewrite (read_all_spec _ a []). f_equal. apply list_fmap_ext.
    intros i f Hf.
    pose proof (framesOk_fix _ a (Z.of_nat i) f Hfr (frameAt_nat _ _ _ Hf)).
    destruct (Z.eqb_spec (fixCount f) (-1)); simpl; [lia | reflexivity].
  - rewrite (read_all_spec _ a []). f_equal. apply list_fmap_ext.
    intros i f _. destruct (dirtyBit f =? 1); reflexivity.
Qed.

Lemma statistics_are_snapshots_witness :
  getFrameContents (worldAfter [CInit pf 2 RS_LFU; CPin 7; CMarkDirty 7])
  = Ret (pageNum <$> [mkFrame (Some []) 7 1 1 0 0; emptyFrame]) /\
  getFixCounts (worldAfter [CInit pf 2 RS_LFU; CPin 7; CMarkDirty 7])
  = Ret (fixCount <$> [mkFrame (Some []) 7 1 1 0 0; emptyFrame]) /\
  getDirtyFlags (worldAfter [CInit pf 2 RS_LFU; CPin 7; CMarkDirty 7])
  = Ret ((fun f => dirtyBit f =? 1) <$> [mkFrame (Some []) 7 1 1 0 0; emptyFrame]).
Proof.
  apply (statistics_are_snapshots (worldAfter [CInit pf 2 RS_LFU; CPin 7; CMarkDirty 7])).
  - apply worldAfter_reachable.
  - reflexivity.
Defined.

(** ** pinPage when it does not pin *)

(** pinPage on a shut pool returns RC_PAGE_NOT_PINNED, on an open pool
    with a negative page number RC_NEGATIVE_PAGE_NUM; these are its only
    returns other than RC_OK, and in both the handle and the whole world
    are left as they were. *)
Theorem pinPage_refusals w page pn :
  (mgmtData w = None -> pinPage w page pn = Ret (RC_PAGE_NOT_PINNED, page, w)) /\
  (mgmtData w <> None -> pn < 0 ->
   pinPage w page pn = Ret (RC_NEGATIVE_PAGE_NUM, page, w)) /\
  (forall rc page' w',
     pinPage w page pn = Ret (rc, page', w') -> rc <> RC_OK ->
     w' = w /\ page' = page /\ (mgmtData w = None \/ pn < 0)).
Proof.
  unfold pinPage. destruct (mgmtData w) as [a|] eqn:Ha.
  - split; [discriminate|]. destruct (Z.ltb_spec pn 0) as [Hneg|Hpos].
    + split; [reflexivity|]. intros rc page' w' [= <- <- <-] _. auto.
    + split; [lia|]. intros rc page' w' H Hrc. exfalso.
      inv_bind H. destruct (negb (isPageFrameEmpty x)).
      * do 2 inv_bind H. destruct x1. injection H as <- _ _. congruence.
      * inv_bind H. destruct x0. injection H as <- _ _. congruence.
  - split; [reflexivity|]. split; [congruence|].
    intros rc page' w' [= <- <- <-] _. auto.
Qed.

Lemma pinPage_refusals_witness :
  pinPage (worldAfter [CInit pf 2 RS_FIFO]) (mkHandle 0 None) (-5)
  = Ret (RC_NEGATIVE_PAGE_NUM, mkHandle 0 None, worldAfter [CInit pf 2 RS_FIFO]).
Proof.
  destruct (pinPage_refusals (worldAfter [CInit pf 2 RS_FIFO]) (mkHandle 0 None) (-5))
    as (_ & H & _).
  apply H; [discriminate | lia].
Defined.

(** ** Calls on a shut pool *)

(** With mgmtData null, forceFlushPool returns RC_ERROR and
    shutdownBufferPool returns RC_BUFFER_POOL_SHUTDOWN_ERROR without
    touching anything, while markDirty, forcePage and the three
    array-valued statistics functions, which have no null check, read
    through the null pointer as soon as bufferSize is positive. *)
Theorem calls_on_shut_pool w page :
  mgmtData w = None ->
  forceFlushPool w = Ret (RC_ERROR, w) /\
  shutdownBufferPool w = Ret (RC_BUFFER_POOL_SHUTDOWN_ERROR, w) /\
  (0 < bufferSize w ->
   markDirty w page = Undefined /\ forcePage w page = Undefined /\
   getFrameContents w = Undefined /\ getFixCounts w = Undefined /\
   getDirtyFlags w = Undefined).
Proof.
  intros Ha. unfold forceFlushPool, shutdownBufferPool, markDirty, forcePage,
    getFrameContents, getFixCounts, getDirtyFlags, framesOf.
  rewrite Ha. simpl. repeat split;
    destruct (Z.to_nat (bufferSize w)) eqn:Hn; try lia; reflexivity.
Qed.

Lemma calls_on_shut_pool_witness :
  markDirty (worldAfter [CInit pf 1 RS_FIFO; CShutdown]) (mkHandle 1 None) = Undefined.
Proof.
  destruct (calls_on_shut_pool (worldAfter [CInit pf 1 RS_FIFO; CShutdown])
              (mkHandle 1 None) eq_refl) as (_ & _ & H).
  apply H. simpl. lia.
Defined.

(** ** Calls on a resident page *)

(** In a well-formed pool a frame that holds page [n] is the first frame
    the scans for [n] stop at: before it no slot is empty and none holds
    [n]. *)
Lemma resident_first size a (j : nat) f n :
  framesOk size a -> a !! j = Some f -> pageNum f = n -> n <> -1 ->
  forall (k : nat) g, (k < j)%nat -> a !! k = Some g ->
    pageNum g <> -1 /\ pageNum g <> n.
Proof.
  intros [_ Hna Het _] Hj Hp Hn k g Hk Hg. split; intros Heq.
  - apply Hn. rewrite <- Hp.
    apply (Het k j (pageNum f)); [| |lia].
    + unfold pages. rewrite list_lookup_fmap, Hg. simpl. congruence.
    + unfold pages. rewrite list_lookup_fmap, Hj. reflexivity.
  - assert (k = j); [|lia].
    apply (Hna k j n); [| |exact Hn].
    + unfold pages. rewrite list_lookup_fmap, Hg. simpl. congruence.
    + unfold pages. rewrite list_lookup_fmap, Hj. simpl. congruence.
Qed.

Lemma markDirty_first w a (j : nat) f page :
  mgmtData w = Some a -> length a = Z.to_nat (bufferSize w) ->
  a !! j = Some f -> pageNum f = ph_pageNum page ->
  (forall (k : nat) g, (k < j)%nat -> a !! k = Some g -> pageNum g <> ph_pageNum page) ->
  markDirty w page = Ret (RC_OK, with_frames w (<[j := set_dirtyBit f 1]> a)).
Proof.
  intros Ha Hlen Hj Hp Hb. unfold markDirty, framesOf. rewrite Ha, <- Hlen. simpl.
  rewrite (first_index_found _ a j f Hj) with (i := 0%nat).
  - simpl. rewrite (frameAt_nat _ _ _ Hj). simpl. unfold setFrame.
    rewrite Nat2Z.id. reflexivity.
  - apply Z.eqb_eq, Hp.
  - intros k g Hk Hg. apply Z.eqb_neq. eauto.
  - apply lookup_lt_Some in Hj. lia.
Qed.

(** In a reachable world with an open pool, for a page number n >= 0:
    markDirty returns RC_ERROR and changes nothing when no frame holds n;
    when frame j holds n it returns RC_OK and the only change is that the
    dirty bit of frame j is 1, whatever it was before. *)
Theorem markDirty_spec w a n d :
  reachable w -> 0 <= n -> mgmtData w = Some a ->
  ((forall f, f ∈ a -> pageNum f <> n) ->
   markDirty w (mkHandle n d) = Ret (RC_ERROR, w)) /\
  (forall (j : nat) f, a !! j = Some f -> pageNum f = n ->
   markDirty w (mkHandle n d)
   = Ret (RC_OK, with_frames w (<[j := set_dirtyBit f 1]> a))).
Proof.
  intros Hr Hn Ha. destruct (reachable_Inv _ Hr) as [Hnum Hok].
  pose proof (Hok _ Ha) as Hfr. pose proof (ok_size _ _ Hfr) as Hsz. split.
  - intros Hall. unfold markDirty, framesOf. rewrite Ha, <- Hsz. simpl.
    rewrite (first_index_none _ a) with (i := 0%nat); [reflexivity| |lia].
    intros k g Hg. apply Z.eqb_neq. apply Hall. apply list_elem_of_lookup. eauto.
  - intros j f Hj Hp. apply markDirty_first; auto.
    intros k g Hk Hg. simpl.
    apply (proj2 (resident_first _ a j f n Hfr Hj Hp ltac:(lia) k g Hk Hg)).
Qed.

Lemma markDirty_spec_witness :
  markDirty (worldAfter [CInit pf 2 RS_FIFO; CPin 1; CPin 2]) (mkHandle 2 None)
  = Ret (RC_OK,
         with_frames (worldAfter [CInit pf 2 RS_FIFO; CPin 1; CPin 2])
           [mkFrame (Some [Byte.x01]) 1 0 1 0 0; mkFrame (Some [Byte.x02]) 2 1 1 0 0]).
Proof.
  destruct (markDirty_spec (worldAfter [CInit pf 2 RS_FIFO; CPin 1; CPin 2])
              [mkFrame (Some [Byte.x01]) 1 0 1 0 0; mkFrame (Some [Byte.x02]) 2 0 1 0 0]
              2 None (worldAfter_reachable _)) as [_ H]; [lia | reflexivity |].
  apply (H 1%nat (mkFrame (Some [Byte.x02]) 2 0 1 0 0)); reflexivity.
Defined.

(** In a reachable world with an open pool, for a page number n >= 0:
    forcePage returns RC_PAGE_NOT_IN_FRAMELIST and changes nothing when
    no frame holds n; when frame j holds n it hands that frame's buffer to
    the page store under n, clears the frame's dirty bit and adds one to
    the write counter, whether the frame is pinned or not and whether it
    was dirty or not. *)
Theorem forcePage_spec w a n d :
  reachable w -> 0 <= n -> mgmtData w = Some a ->
  ((forall f, f ∈ a -> pageNum f <> n) ->
   forcePage w (mkHandle n d) = Ret (RC_PAGE_NOT_IN_FRAMELIST, w)) /\
  (forall (j : nat) f, a !! j = Some f -> pageNum f = n ->
   exists w',
     forcePage w (mkHandle n d) = Ret (RC_OK, w') /\
     mgmtData w' = Some (<[j := set_dirtyBit f 0]> a) /\
     trace w' = trace w ++ [EvWrite n (data f)] /\
     getNumWriteIO w' = getNumWriteIO w + 1 /\
     getNumReadIO w' = getNumReadIO w).
Proof.
  intros Hr Hn Ha. destruct (reachable_Inv _ Hr) as [Hnum Hok].
  pose proof (Hok _ Ha) as Hfr. pose proof (ok_size _ _ Hfr) as Hsz. split.
  - intros Hall. unfold forcePage, framesOf. rewrite Ha, <- Hsz. simpl.
    rewrite (first_index_none _ a) with (i := 0%nat); [reflexivity| |lia].
    intros k g Hg. rewrite negb_involutive. apply Z.eqb_neq. apply Hall.
    apply list_elem_of_lookup. eauto.
  - intros j f Hj Hp. unfold forcePage, framesOf. rewrite Ha, <- Hsz. simpl.
    rewrite (first_index_found _ a j f Hj) with (i := 0%nat).
    + simpl. rewrite (frameAt_nat _ _ _ Hj). simpl. unfold setFrame.
      rewrite Nat2Z.id, Hp. eexists. split; [reflexivity|]. simpl. auto.
    + rewrite negb_involutive. apply Z.eqb_eq, Hp.
    + intros k g Hk Hg. rewrite negb_involutive. apply Z.eqb_neq. simpl.
      apply (proj2 (resident_first _ a j f n Hfr Hj Hp ltac:(lia) k g Hk Hg)).
    + apply lookup_lt_Some in Hj. lia.
Qed.

Lemma forcePage_spec_witness :
  exists w',
    forcePage (worldAfter [CInit pf 2 RS_FIFO; CPin 1; CPin 2]) (mkHandle 2 None)
    = Ret (RC_OK, w') /\
    mgmtData w'
    = Some (<[1%nat := set_dirtyBit (mkFrame (Some [Byte.x02]) 2 0 1 0 0) 0]>
              [mkFrame (Some [Byte.x01]) 1 0 1 0 0; mkFrame (Some [Byte.x02]) 2 0 1 0 0]) /\
    trace w' = trace (worldAfter [CInit pf 2 RS_FIFO; CPin 1; CPin 2])
               ++ [EvWrite 2 (Some [Byte.x02])] /\
    getNumWriteIO w' = getNumWriteIO (worldAfter [CInit pf 2 RS_FIFO; CPin 1; CPin 2]) + 1 /\
    getNumReadIO w' = getNumReadIO (worldAfter [CInit pf 2 RS_FIFO; CPin 1; CPin 2]).
Proof.
  destruct (forcePage_spec (worldAfter [CInit pf 2 RS_FIFO; CPin 1; CPin 2])
              [mkFrame (Some [Byte.x01]) 1 0 1 0 0; mkFrame (Some [Byte.x02]) 2 0 1 0 0]
              2 None (worldAfter_reachable _)) as [_ H]; [lia | reflexivity |].
  apply (H 1%nat (mkFrame (Some [Byte.x02]) 2 0 1 0 0)); reflexivity.
Defined.

(** pinPage on a page that is in frame [j]. *)
Lemma pinPage_hit_eq w a (j : nat) f page n :
  Inv w -> 0 <= n -> mgmtData w = Some a -> a !! j = Some f -> pageNum f = n ->
  pinPage w page n
  = Ret (RC_OK, mkHandle n (data f),
         with_frames (with_clockPointer (with_hit w (hit w + 1)) (clockPointer w + 1))
           (<[j := touched (strategy w) (hit w + 1) f]> a)).
Proof.
  intros [Hnum Hok] Hn Ha Hj Hp. pose proof (Hok _ Ha) as Hfr.
  pose proof (ok_size _ _ Hfr) as Hsz.
  pose proof (resident_first _ a j f n Hfr Hj Hp ltac:(lia)) as Hb.
  assert (Hlt : (j < length a)%nat) by (eapply lookup_lt_Some; eauto).
  destruct (lookup_lt_is_Some_2 a 0) as [f0 Hf0]; [lia|].
  assert (H0 : pageNum f0 <> -1).
  { destruct (decide (j = 0%nat)) as [->|Hne].
    - rewrite Hj in Hf0. injection Hf0 as <-. lia.
    - apply (Hb 0%nat f0); [lia | exact Hf0]. }
  unfold pinPage. rewrite Ha. destruct (Z.ltb_spec n 0); [lia|].
  pose proof (frameAt_nat a 0 f0 Hf0) as Hfa. change (Z.of_nat 0) with 0 in Hfa.
  rewrite Hfa. simpl. unfold isPageFrameEmpty.
  destruct (Z.eqb_spec (pageNum f0) (-1)); [contradiction|]. simpl.
  rewrite <- Hsz.
  rewrite (first_index_found _ a j f Hj) with (i := 0%nat); [| | |lia].
  - simpl. rewrite (frameAt_nat _ _ _ Hj). simpl.
    destruct (Z.eqb_spec (pageNum f) (-1)); [lia|].
    unfold pin_hit. rewrite (frameAt_nat _ _ _ Hj). simpl.
    unfold setFrame, touched. rewrite Nat2Z.id.
    destruct (strategy w); reflexivity.
  - apply orb_true_iff. right. apply Z.eqb_eq, Hp.
  - intros k g Hk Hg. destruct (Hb k g Hk Hg) as [H1 H2].
    apply orb_false_iff. split; apply Z.eqb_neq; assumption.
Qed.

(** In a reachable world, pinPage on a page n >= 0 that is in frame j
    returns RC_OK with a handle on that frame's buffer; the fix count of
    frame j goes up by one and its page, buffer and dirty bit stay; the
    strategy's mark is refreshed (hitNum 1 under CLOCK, the new value of
    hit under LRU and LRU_K, refNum one higher under LFU, nothing under
    FIFO); hit and clockPointer go up by one under every strategy; no
    block is read or written and both I/O counters stay. *)
Theorem pinPage_hit w a (j : nat) f page n :
  reachable w -> 0 <= n -> mgmtData w = Some a -> a !! j = Some f -> pageNum f = n ->
  exists w' f',
    pinPage w page n = Ret (RC_OK, mkHandle n (data f), w') /\
    mgmtData w' = Some (<[j := f']> a) /\
    fixCount f' = fixCount f + 1 /\ pageNum f' = n /\
    data f' = data f /\ dirtyBit f' = dirtyBit f /\
    (strategy w = RS_FIFO -> hitNum f' = hitNum f /\ refNum f' = refNum f) /\
    (strategy w = RS_CLOCK -> hitNum f' = 1 /\ refNum f' = refNum f) /\
    (strategy w = RS_LRU \/ strategy w = RS_LRU_K ->
       hitNum f' = hit w + 1 /\ refNum f' = refNum f) /\
    (strategy w = RS_LFU -> hitNum f' = hitNum f /\ refNum f' = refNum f + 1) /\
    hit w' = hit w + 1 /\ clockPointer w' = clockPointer w + 1 /\
    trace w' = trace w /\ blocks w' = blocks w /\
    getNumReadIO w' = getNumReadIO w /\ getNumWriteIO w' = getNumWriteIO w.
Proof.
  intros Hr Hn Ha Hj Hp.
  rewrite (pinPage_hit_eq w a j f page n (reachable_Inv _ Hr) Hn Ha Hj Hp).
  eexists. exists (touched (strategy w) (hit w + 1) f).
  split; [reflexivity|]. simpl. unfold touched.
  repeat split; try (destruct (strategy w); simpl; congruence);
    try (intros Hs; rewrite Hs; reflexivity).
  - destruct H as [Hs|Hs]; rewrite Hs; reflexivity.
  - destruct H as [Hs|Hs]; rewrite Hs; reflexivity.
Qed.

Lemma pinPage_hit_witness :
  exists w' f',
    pinPage (worldAfter [CInit pf 2 RS_LFU; CPin 1; CPin 2]) (mkHandle 0 None) 2
    = Ret (RC_OK, mkHandle 2 (data (mkFrame (Some [Byte.x02]) 2 0 1 0 0)), w') /\
    mgmtData w'
    = Some (<[1%nat := f']> [mkFrame (Some [Byte.x01]) 1 0 1 0 0;
                             mkFrame (Some [Byte.x02]) 2 0 1 0 0]) /\
    fixCount f' = fixCount (mkFrame (Some [Byte.x02]) 2 0 1 0 0) + 1.
Proof.
  destruct (pinPage_hit (worldAfter [CInit pf 2 RS_LFU; CPin 1; CPin 2])
              [mkFrame (Some [Byte.x01]) 1 0 1 0 0; mkFrame (Some [Byte.x02]) 2 0 1 0 0]
              1%nat (mkFrame (Some [Byte.x02]) 2 0 1 0 0) (mkHandle 0 None) 2
              (worldAfter_reachable _))
    as (w' & f' & H1 & H2 & H3 & _); [lia | reflexivity | reflexivity | reflexivity |].
  exists w', f'. auto.
Defined.

(** In a reachable world, pinPage on a resident page n >= 0 followed by
    unpinPage with the handle it returned gives RC_OK twice and leaves the
    page numbers, the fix counts, the buffers and the dirty bits of all
    frames, the trace and the page store as they were. *)
Theorem pin_then_unpin w a (j : nat) f page n :
  reachable w -> 0 <= n -> mgmtData w = Some a -> a !! j = Some f -> pageNum f = n ->
  exists h w1 w2 a2,
    pinPage w page n = Ret (RC_OK, h, w1) /\
    unpinPage w1 h = Ret (RC_OK, w2) /\
    mgmtData w2 = Some a2 /\
    pageNum <$> a2 = pageNum <$> a /\ fixCount <$> a2 = fixCount <$> a /\
    data <$> a2 = data <$> a /\ dirtyBit <$> a2 = dirtyBit <$> a /\
    trace w2 = trace w /\ blocks w2 = blocks w.
Proof.
  intros Hr Hn Ha Hj Hp. pose proof (reachable_Inv _ Hr) as HI.
  destruct HI as [Hnum Hok]. pose proof (Hok _ Ha) as Hfr.
  pose proof (ok_size _ _ Hfr) as Hsz.
  assert (Hlt : (j < length a)%nat) by (eapply lookup_lt_Some; eauto).
  pose proof (framesOk_fix _ a (Z.of_nat j) f Hfr (frameAt_nat _ _ _ Hj)) as Hfix.
  set (f' := touched (strategy w) (hit w + 1) f).
  set (w1 := with_frames (with_clockPointer (with_hit w (hit w + 1)) (clockPointer w + 1))
               (<[j := f']> a)).
  assert (Hf' : fixCount f' = fixCount f + 1 /\ pageNum f' = pageNum f /\
                data f' = data f /\ dirtyBit f' = dirtyBit f).
  { unfold f', touched. destruct (strategy w); simpl; auto. }
  destruct Hf' as (Hf1 & Hf2 & Hf3 & Hf4).
  exists (mkHandle n (data f)), w1,
    (with_frames w1 (<[j := set_fixCount f' (fixCount f' - 1)]> (<[j := f']> a))),
    (<[j := set_fixCount f' (fixCount f' - 1)]> (<[j := f']> a)).
  split; [apply pinPage_hit_eq; auto; split; auto|].
  split.
  { rewrite (unpinPage_first w1 (<[j := f']> a) j f' (mkHandle n (data f))).
    - destruct (Z.ltb_spec 0 (fixCount f')); [reflexivity | lia].
    - reflexivity.
    - rewrite length_insert. simpl. rewrite Hnum. exact Hsz.
    - apply list_lookup_insert_eq. exact Hlt.
    - simpl. congruence.
    - intros k g Hk Hg. simpl. rewrite list_lookup_insert_ne in Hg by lia.
      apply (proj2 (resident_first _ a j f n Hfr Hj Hp ltac:(lia) k g Hk Hg)). }
  split; [reflexivity|].
  rewrite list_insert_insert_eq.
  assert (Hid : forall {B} (g : PageFrame -> B),
            g (set_fixCount f' (fixCount f' - 1)) = g f ->
            g <$> <[j := set_fixCount f' (fixCount f' - 1)]> a = g <$> a).
  { intros B g Hg. rewrite list_fmap_insert, Hg. apply list_insert_id.
    rewrite list_lookup_fmap, Hj. reflexivity. }
  repeat split; try apply Hid; simpl; try congruence.
  rewrite Hf1. f_equal. lia.
Qed.

Lemma pin_then_unpin_witness :
  exists h w1 w2 a2,
    pinPage (worldAfter [CInit pf 2 RS_LRU; CPin 1; CPin 2]) (mkHandle 0 None) 1
    = Ret (RC_OK, h, w1) /\
    unpinPage w1 h = Ret (RC_OK, w2) /\
    mgmtData w2 = Some a2 /\
    pageNum <$> a2 = pageNum <$> [mkFrame (Some [Byte.x01]) 1 0 1 0 0;
                                  mkFrame (Some [Byte.x02]) 2 0 1 1 0] /\
    fixCount <$> a2 = fixCount <$> [mkFrame (Some [Byte.x01]) 1 0 1 0 0;
                                    mkFrame (Some [Byte.x02]) 2 0 1 1 0].
Proof.
  destruct (pin_then_unpin (worldAfter [CInit pf 2 RS_LRU; CPin 1; CPin 2])
              [mkFrame (Some [Byte.x01]) 1 0 1 0 0; mkFrame (Some [Byte.x02]) 2 0 1 1 0]
              0%nat (mkFrame (Some [Byte.x01]) 1 0 1 0 0) (mkHandle 0 None) 1
              (worldAfter_reachable _))
    as (h & w1 & w2 & a2 & H1 & H2 & H3 & H4 & H5 & _);
    [lia | reflexivity | reflexivity | reflexivity |].
  exists h, w1, w2, a2. auto.
Defined.

(** ** forceFlushPool, in full *)

Lemma flush_write_trace a ps : forall (i : nat) w,
  (i + length ps <= length a)%nat ->
  exists b,
    flush_write ps a (Z.of_nat i) w
    = Ret (with_store w b (trace w ++ zip_with EvWrite ps (data <$> drop i a))).
Proof.
  induction ps as [|n ps IH]; intros i w Hi; simpl in *.
  - exists (blocks w). rewrite app_nil_r. destruct w; reflexivity.
  - destruct (lookup_lt_is_Some_2 a i) as [f Hf]; [lia|].
    rewrite (frameAt_nat _ _ _ Hf). simpl.
    replace (Z.of_nat i + 1) with (Z.of_nat (S i)) by lia.
    destruct (IH (S i) (writeBlock n (data f) w)) as (b & Hw); [lia|].
    exists b. rewrite Hw. rewrite (drop_S _ _ _ Hf). simpl.
    rewrite <- app_assoc. reflexivity.
Qed.

Lemma data_flushed (a : list PageFrame) : data <$> (flushed <$> a) = data <$> a.
Proof.
  rewrite <- list_fmap_compose. apply list_fmap_ext.
  intros i f _. unfold flushed. simpl. destruct (flushable f); reflexivity.
Qed.

(** In a reachable world with an open pool, forceFlushPool returns RC_OK
    and does exactly this: the frames that are unpinned and have dirty bit
    1 get dirty bit 0 and no other frame changes; the write counter grows
    by the number of those frames; and the page store receives their page
    numbers in slot order, the k-th of them together with the buffer of
    the frame in slot k. *)
Theorem forceFlushPool_effect w a :
  reachable w -> mgmtData w = Some a ->
  exists w',
    forceFlushPool w = Ret (RC_OK, w') /\
    mgmtData w' = Some (flushed <$> a) /\
    (forall f, f ∈ a -> (0 < fixCount f \/ dirtyBit f <> 1) -> flushed f = f) /\
    (forall f, f ∈ a -> fixCount f = 0 -> dirtyBit f = 1 -> flushed f = set_dirtyBit f 0) /\
    getNumWriteIO w' = getNumWriteIO w + Z.of_nat (length (flushPages a)) /\
    getNumReadIO w' = getNumReadIO w /\
    trace w' = trace w ++ zip_with EvWrite (flushPages a) (data <$> a).
Proof.
  intros Hr Ha. destruct (reachable_Inv _ Hr) as [Hnum Hok].
  pose proof (ok_size _ _ (Hok _ Ha)) as Hsz.
  unfold forceFlushPool. rewrite Ha, Hnum, <- Hsz.
  pose proof (flush_collect_spec a [] [] (writeCount w)) as Hc.
  change (Z.of_nat (length [])) with 0 in Hc. simpl in Hc. rewrite Hc. simpl.
  destruct (flush_write_trace (flushed <$> a) (flushPages a) 0
              (with_writeCount (with_frames w (flushed <$> a))
                 (writeCount w + Z.of_nat (length (flushPages a))))) as (b & Hw).
  { rewrite length_fmap. pose proof (flushPages_length a). lia. }
  change (Z.of_nat 0) with 0 in Hw. rewrite Hw. simpl.
  eexists. split; [reflexivity|]. simpl. rewrite drop_0, data_flushed.
  repeat split.
  - intros f _ [Hpin|Hclean]; unfold flushed, flushable.
    + destruct (Z.eqb_spec (fixCount f) 0); [lia | reflexivity].
    + destruct (Z.eqb_spec (dirtyBit f) 1); [contradiction|].
      rewrite andb_false_r. reflexivity.
  - intros f _ Hfix Hd. unfold flushed, flushable. rewrite Hfix, Hd. reflexivity.
Qed.

Lemma forceFlushPool_effect_witness :
  exists w',
    forceFlushPool (worldAfter [CInit pf 2 RS_FIFO; CPin 1; CPin 2; CMarkDirty 2; CUnpin 2])
    = Ret (RC_OK, w') /\
    mgmtData w' = Some (flushed <$> [mkFrame (Some [Byte.x01]) 1 0 1 0 0;
                                     mkFrame (Some [Byte.x02]) 2 1 0 0 0]) /\
    trace w'
    = trace (worldAfter [CInit pf 2 RS_FIFO; CPin 1; CPin 2; CMarkDirty 2; CUnpin 2])
      ++ zip_with EvWrite
           (flushPages [mkFrame (Some [Byte.x01]) 1 0 1 0 0;
                        mkFrame (Some [Byte.x02]) 2 1 0 0 0])
           (data <$> [mkFrame (Some [Byte.x01]) 1 0 1 0 0;
                      mkFrame (Some [Byte.x02]) 2 1 0 0 0]).
Proof.
  destruct (forceFlushPool_effect
              (worldAfter [CInit pf 2 RS_FIFO; CPin 1; CPin 2; CMarkDirty 2; CUnpin 2])
              [mkFrame (Some [Byte.x01]) 1 0 1 0 0; mkFrame (Some [Byte.x02]) 2 1 0 0 0]
              (worldAfter_reachable _) eq_refl)
    as (w' & H1 & H2 & _ & _ & _ & _ & H3).
  exists w'. auto.
Defined.

Lemma flushable_flushed f : flushable (flushed f) = false.
Proof.
  unfold flushed. destruct (flushable f) eqn:H; [|exact H].
  unfold flushable. simpl. apply andb_false_r.
Qed.

Lemma flushPages_flushed (a : list PageFrame) : flushPages (flushed <$> a) = [].
Proof.
  induction a as [|f a IH]; simpl; [reflexivity|].
  rewrite flushable_flushed. exact IH.
Qed.

Lemma flushed_twice (a : list PageFrame) :
  flushed <$> (flushed <$> a) = flushed <$> a.
Proof.
  rewrite <- list_fmap_compose. apply list_fmap_ext. intros i f _. simpl.
  unfold flushed at 1. rewrite flushable_flushed. reflexivity.
Qed.

(** In a reachable world, forceFlushPool right after a forceFlushPool
    that returned gives the same return code and changes nothing: no block
    is written and no counter moves. *)
Theorem forceFlushPool_twice w rc w' :
  reachable w -> forceFlushPool w = Ret (rc, w') -> forceFlushPool w' = Ret (rc, w').
Proof.
  intros Hr H. destruct (mgmtData w) as [a|] eqn:Ha.
  - destruct (reachable_Inv _ Hr) as [Hnum Hok].
    pose proof (ok_size _ _ (Hok _ Ha)) as Hsz.
    revert H. unfold forceFlushPool at 1. rewrite Ha, Hnum, <- Hsz.
    pose proof (flush_collect_spec a [] [] (writeCount w)) as Hc.
    change (Z.of_nat (length [])) with 0 in Hc. simpl in Hc. rewrite Hc. simpl.
    destruct (flush_write_trace (flushed <$> a) (flushPages a) 0
                (with_writeCount (with_frames w (flushed <$> a))
                   (writeCount w + Z.of_nat (length (flushPages a))))) as (b & Hw).
    { rewrite length_fmap. pose proof (flushPages_length a). lia. }
    change (Z.of_nat 0) with 0 in Hw. rewrite Hw. simpl. intros [= <- <-].
    unfold forceFlushPool. simpl. rewrite Hnum.
    replace (Z.to_nat (bufferSize w)) with (length (flushed <$> a))
      by (rewrite length_fmap; exact Hsz).
    pose proof (flush_collect_spec (flushed <$> a) [] []
                  (writeCount w + Z.of_nat (length (flushPages a)))) as Hc2.
    change (Z.of_nat (length [])) with 0 in Hc2. simpl in Hc2. rewrite Hc2.
    rewrite flushPages_flushed, flushed_twice. simpl. rewrite Z.add_0_r. reflexivity.
  - unfold forceFlushPool in H. rewrite Ha in H. injection H as <- <-.
    unfold forceFlushPool. rewrite Ha. reflexivity.
Qed.

Lemma forceFlushPool_twice_witness :
  forceFlushPool
    (worldAfter [CInit pf 2 RS_FIFO; CPin 1; CMarkDirty 1; CUnpin 1; CFlush])
  = Ret (RC_OK, worldAfter [CInit pf 2 RS_FIFO; CPin 1; CMarkDirty 1; CUnpin 1; CFlush]).
Proof.
  apply (forceFlushPool_twice
           (worldAfter [CInit pf 2 RS_FIFO; CPin 1; CMarkDirty 1; CUnpin 1])).
  - apply worldAfter_reachable.
  - vm_compute. reflexivity.
Defined.

(** ** The I/O of the policies *)

Lemma FIFO_io w page w' : FIFO w page = Ret w' -> keeps w w' /\ one_write true w w'.
Proof.
  unfold FIFO. cbv zeta. intros H. do 3 inv_bind H. injection H as <-.
  destruct (dirtyBit x1 =? 1); (split; [repeat split|]).
  - right. eexists _, _. split; reflexivity.
  - left. repeat split.
Qed.

Lemma LFU_io w page w' : LFU w page = Ret w' -> keeps w w' /\ one_write true w w'.
Proof.
  unfold LFU. cbv zeta. intros H. do 2 inv_bind H. injection H as <-.
  destruct (dirtyBit x0 =? 0); (split; [repeat split|]).
  - right. eexists _, _. split; reflexivity.
  - left. repeat split.
Qed.

Lemma LRU_io w page w' : LRU w page = Ret w' -> keeps w w' /\ one_write true w w'.
Proof.
  unfold LRU. cbv zeta. intros H.
  destruct (pageFile w); [|injection H as <-; split; [repeat split | left; repeat split]].
  destruct (data page) eqn:Hd;
    [|injection H as <-; split; [repeat split | left; repeat split]].
  do 2 inv_bind H. simpl in H.
  destruct (dirtyBit page =? 1); injection H as <-; (split; [repeat split|]).
  - right. eexists _, _. split; reflexivity.
  - left. repeat split.
Qed.

Lemma LRU_K_io w page w' : LRU_K w page = Ret w' -> keeps w w' /\ one_write true w w'.
Proof.
  unfold LRU_K. cbv zeta. intros H.
  destruct (pageFile w); [|injection H as <-; split; [repeat split | left; repeat split]].
  destruct (data page) eqn:Hd;
    [|injection H as <-; split; [repeat split | left; repeat split]].
  do 2 inv_bind H. simpl in H.
  destruct (dirtyBit page =? 0); injection H as <-; (split; [repeat split|]).
  - left. repeat split.
  - right. eexists _, _. split; reflexivity.
Qed.

Lemma CLOCK_loop_io fuel page : forall w b w',
  CLOCK_loop fuel w page = Ret (b, w') -> keeps w w' /\ one_write false w w'.
Proof.
  induction fuel as [|fuel IH]; intros w b w' H; simpl in H; [discriminate|].
  inv_bind H. destruct (x =? 0).
  { injection H as <- <-. split; [repeat split | left; repeat split]. }
  cbv zeta in H. inv_bind H. destruct (hitNum x0 =? 0).
  - injection H as <- <-. destruct (dirtyBit x0 =? 0); (split; [repeat split|]).
    + left. repeat split.
    + right. eexists _, _. split; [reflexivity|]. simpl. lia.
  - apply IH in H. destruct H as [(H1 & H2 & H3 & H4 & H5 & H6) Hw]. simpl in *.
    split; [repeat split; assumption|]. exact Hw.
Qed.

Lemma CLOCK_io w page w' : CLOCK w page = Ret w' -> keeps w w' /\ one_write false w w'.
Proof.
  unfold CLOCK. intros H. inv_bind H. destruct x as [b w1]. inv_bind H.
  injection H as <-. apply CLOCK_loop_io in E as [(H1 & H2 & H3 & H4 & H5 & H6) Hw].
  split; [repeat split; assumption|]. exact Hw.
Qed.

Lemma policy_call_io w page w' :
  match strategy w with
  | RS_FIFO => FIFO w page
  | RS_LRU => LRU w page
  | RS_CLOCK => CLOCK w page
  | RS_LFU => LFU w page
  | RS_LRU_K => LRU_K w page
  end = Ret w' ->
  keeps w w' /\
  one_write (counts_writes (strategy w)) w w'.
Proof.
  destruct (strategy w); intros H; simpl;
    eauto using FIFO_io, LRU_io, CLOCK_io, LFU_io, LRU_K_io.
Qed.

(** ** The I/O of pinPage and the two counters *)

Lemma readsIn_app t t' : readsIn (t ++ t') = readsIn t + readsIn t'.
Proof.
  induction t as [|e t IH]; simpl; [reflexivity|]. destruct e; rewrite IH; lia.
Qed.

Lemma writesIn_app t t' : writesIn (t ++ t') = writesIn t + writesIn t'.
Proof. unfold writesIn. rewrite writtenPages_app, length_app. lia. Qed.

(** What one call of pinPage that returned RC_OK did to the read index,
    the trace and the write counter. *)
Lemma pinPage_io w page pn page' w' :
  pinPage w page pn = Ret (RC_OK, page', w') ->
  strategy w' = strategy w /\ bufferSize w' = bufferSize w /\
  exists f0, frameAt (framesOf w) 0 = Ret f0 /\
    if isPageFrameEmpty f0
    then rearIndex w' = 0 /\ trace w' = trace w ++ [EvEnsure pn; EvRead pn] /\
         writeCount w' = writeCount w
    else (rearIndex w' = rearIndex w /\ trace w' = trace w /\
          writeCount w' = writeCount w) \/
         (rearIndex w' = rearIndex w + 1 /\
          exists w2, trace w2 = trace w ++ [EvRead pn] /\
                     writeCount w2 = writeCount w /\
                     one_write (counts_writes (strategy w)) w2 w').
Proof.
  intros H. unfold pinPage in H. unfold framesOf.
  destruct (mgmtData w) as [a|] eqn:Ha; [|discriminate]. simpl.
  destruct (pn <? 0); [discriminate|].
  inv_bind H. rename x into f0, E into Hf0.
  destruct (isPageFrameEmpty f0) eqn:He; simpl in H.
  - inv_bind H. destruct x as [h1 w1]. injection H as <- <-.
    unfold pin_first in E. rewrite Hf0 in E. simpl in E. injection E as _ <-.
    repeat split. exists f0. rewrite He. repeat split; [assumption|].
    simpl. rewrite <- app_assoc. reflexivity.
  - do 2 inv_bind H. destruct x0 as [h1 w1]. injection H as <- <-.
    destruct x as [j|].
    + inv_bind E0. destruct (pageNum x =? -1).
      * unfold pin_empty in E0. rewrite E1 in E0. simpl in E0. injection E0 as _ <-.
        split; [reflexivity|]. split; [reflexivity|].
        exists f0. rewrite He. split; [assumption|]. right. split; [reflexivity|].
        eexists. split; [|split; [|left; repeat split]]; reflexivity.
      * unfold pin_hit in E0. rewrite E1 in E0. simpl in E0. injection E0 as _ <-.
        split; [reflexivity|]. split; [reflexivity|].
        exists f0. rewrite He. split; [assumption|]. left. repeat split.
    + unfold pin_full, readBlock in E0. cbv beta iota zeta in E0.
      inv_bind E0. injection E0 as _ <-.
      apply policy_call_io in E1 as [(H1 & H2 & H3 & H4 & H5 & H6) Hw].
      simpl in *. repeat split; try assumption.
      exists f0. rewrite He. split; [assumption|]. right. split; [assumption|].
      eexists. split; [|split; [|exact Hw]]; reflexivity.
Qed.

Lemma pinPage_not_OK w page pn rc page' w' :
  pinPage w page pn = Ret (rc, page', w') -> rc <> RC_OK -> w' = w.
Proof.
  unfold pinPage. intros H Hrc. destruct (mgmtData w) as [a|].
  - destruct (pn <? 0); [injection H as _ _ <-; reflexivity|]. exfalso.
    inv_bind H. destruct (negb (isPageFrameEmpty x)).
    + do 2 inv_bind H. destruct x1. injection H as <- _ _. congruence.
    + inv_bind H. destruct x0. injection H as <- _ _. congruence.
  - injection H as _ _ <-. reflexivity.
Qed.

(** For a call of pinPage that returns, on a pool whose frame 0 is
    occupied: the answer of getNumReadIO grows by the number of blocks the
    call read (0 or 1); under every strategy but CLOCK the answer of
    getNumWriteIO grows by the number of blocks the call wrote, and under
    CLOCK it does not move whatever was written.  On a pool whose frame 0
    is empty a call that pins reads one block, writes none and leaves
    getNumReadIO at 1, whatever it was before. *)
Theorem pinPage_counters w a f0 page pn rc page' w' :
  pinPage w page pn = Ret (rc, page', w') ->
  mgmtData w = Some a -> a !! 0%nat = Some f0 ->
  (isPageFrameEmpty f0 = false ->
     getNumReadIO w' - getNumReadIO w = readsIn (trace w') - readsIn (trace w) /\
     0 <= readsIn (trace w') - readsIn (trace w) <= 1 /\
     (strategy w <> RS_CLOCK ->
      getNumWriteIO w' - getNumWriteIO w = writesIn (trace w') - writesIn (trace w)) /\
     (strategy w = RS_CLOCK -> getNumWriteIO w' = getNumWriteIO w)) /\
  (isPageFrameEmpty f0 = true -> rc = RC_OK ->
     getNumReadIO w' = 1 /\ readsIn (trace w') = readsIn (trace w) + 1 /\
     writesIn (trace w') = writesIn (trace w) /\ getNumWriteIO w' = getNumWriteIO w).
Proof.
  intros H Ha Hf0. unfold getNumReadIO, getNumWriteIO.
  assert (Hfa : frameAt (framesOf w) 0 = Ret f0).
  { unfold framesOf. rewrite Ha. apply (frameAt_nat a 0 f0 Hf0). }
  assert (Hdec : rc = RC_OK \/ rc <> RC_OK)
    by (destruct rc; (left; reflexivity) || (right; discriminate)).
  destruct Hdec as [->|Hrc].
  - apply pinPage_io in H as (Hs & _ & g0 & Hg0 & Hcase).
    rewrite Hfa in Hg0. injection Hg0 as <-.
    split; intros He; rewrite He in Hcase.
    + destruct Hcase as [(H1 & H2 & H3)|(H1 & w2 & H2 & H3 & Hw)].
      * rewrite H1, H2, H3. repeat split; intros; lia.
      * destruct Hw as [(H4 & _ & H5)|(n & d & H4 & H5)].
        -- rewrite H1, H4, H5, H2, H3, readsIn_app, writesIn_app. simpl.
           unfold writesIn at 2. simpl. repeat split; intros; lia.
        -- rewrite H1, H4, H5, H2, H3, !readsIn_app, !writesIn_app. simpl.
           unfold writesIn at 2 3. simpl.
           repeat split; try lia; intros Hst.
           ++ destruct (strategy w); simpl; try lia. congruence.
           ++ rewrite Hst. simpl. lia.
    + intros _. destruct Hcase as (H1 & H2 & H3).
      rewrite H1, H2, H3, readsIn_app, writesIn_app. simpl.
      unfold writesIn at 2. simpl. repeat split; lia.
  - assert (w' = w) as -> by (eapply pinPage_not_OK; eauto).
    split; [|intros _ Hc; contradiction].
    intros _. repeat split; intros; lia.
Qed.

Lemma pinPage_counters_witness :
  getNumReadIO (worldAfter [CInit pf 1 RS_FIFO; CPin 1; CMarkDirty 1; CUnpin 1; CPin 2])
  - getNumReadIO (worldAfter [CInit pf 1 RS_FIFO; CPin 1; CMarkDirty 1; CUnpin 1])
  = readsIn (trace (worldAfter [CInit pf 1 RS_FIFO; CPin 1; CMarkDirty 1; CUnpin 1; CPin 2]))
    - readsIn (trace (worldAfter [CInit pf 1 RS_FIFO; CPin 1; CMarkDirty 1; CUnpin 1])).
Proof.
  destruct (pinPage_counters
              (worldAfter [CInit pf 1 RS_FIFO; CPin 1; CMarkDirty 1; CUnpin 1])
              [mkFrame (Some [Byte.x01]) 1 1 0 0 0] (mkFrame (Some [Byte.x01]) 1 1 0 0 0)
              (mkHandle 0 None) 2 RC_OK (mkHandle 2 (Some [Byte.x02]))
              (worldAfter [CInit pf 1 RS_FIFO; CPin 1; CMarkDirty 1; CUnpin 1; CPin 2]))
    as [H _]; [vm_compute; reflexivity | reflexivity | reflexivity |].
  destruct (H eq_refl) as [H1 _]. exact H1.
Defined.

(** ** The read index *)



(** ** pinPage on a full pool *)

Lemma pin_full_eq w pn :
  pin_full w pn
  = (w3 ← policy (missWorld w pn)
            (newPageFor (missWorld w pn) (lookupBlock (blocks w) pn) pn);
     Ret (mkHandle pn (Some (lookupBlock (blocks w) pn)), w3)).
Proof. reflexivity. Qed.

(** pinPage for a page that is in no frame of a pool without empty slot
    goes to the policy. *)
Lemma pinPage_full_eq w a page n :
  Inv w -> 0 <= n -> mgmtData w = Some a -> a <> [] ->
  (forall f, f ∈ a -> pageNum f <> -1 /\ pageNum f <> n) ->
  pinPage w page n
  = (w3 ← policy (missWorld w n)
            (newPageFor (missWorld w n) (lookupBlock (blocks w) n) n);
     Ret (RC_OK, mkHandle n (Some (lookupBlock (blocks w) n)), w3)).
Proof.
  intros [Hnum Hok] Hn Ha Hne Hall. pose proof (ok_size _ _ (Hok _ Ha)) as Hsz.
  destruct a as [|f0 a0]; [contradiction|].
  unfold pinPage. rewrite Ha. destruct (Z.ltb_spec n 0); [lia|].
  change (frameAt (f0 :: a0) 0) with (Ret f0). simpl mbind. unfold isPageFrameEmpty.
  destruct (Z.eqb_spec (pageNum f0) (-1)) as [He|_].
  { exfalso. apply (proj1 (Hall f0 ltac:(left)) He). }
  simpl negb. cbv iota. rewrite <- Hsz.
  rewrite (first_index_none _ (f0 :: a0)) with (i := 0%nat); [| |lia].
  - simpl mbind. rewrite pin_full_eq.
    destruct (policy (missWorld w n) _); reflexivity.
  - intros k g Hg. assert (Hin : g ∈ f0 :: a0) by (apply list_elem_of_lookup; eauto).
    destruct (Hall g Hin) as [H1 H2].
    apply orb_false_iff. split; apply Z.eqb_neq; assumption.
Qed.

(** ** FIFO *)





(** In a reachable world, pinPage for a page n >= 0 that is in no frame
    of a pool without empty slot returns RC_OK (if it returns) with a
    handle on the block read for n, under every strategy; it reads exactly
    one block and writes at most one; and as far as page numbers and fix
    counts go, either no frame has changed, or exactly one slot now holds
    n with fix count 1 and all other slots are as before. *)
Theorem pinPage_full_pool w a page n rc h w' :
  reachable w -> 0 <= n -> mgmtData w = Some a -> a <> [] ->
  (forall f, f ∈ a -> pageNum f <> -1 /\ pageNum f <> n) ->
  pinPage w page n = Ret (rc, h, w') ->
  rc = RC_OK /\ h = mkHandle n (Some (lookupBlock (blocks w) n)) /\
  readsIn (trace w') = readsIn (trace w) + 1 /\
  writesIn (trace w) <= writesIn (trace w') <= writesIn (trace w) + 1 /\
  exists a', mgmtData w' = Some a' /\
    ((pageNum <$> a' = pageNum <$> a /\ fixCount <$> a' = fixCount <$> a) \/
     exists k : nat, (k < length a)%nat /\
       pageNum <$> a' = <[k := n]> (pageNum <$> a) /\
       fixCount <$> a' = <[k := 1]> (fixCount <$> a)).
Proof.
  intros Hr Hn Ha Hne Hall H.
  rewrite (pinPage_full_eq w a page n (reachable_Inv _ Hr) Hn Ha Hne Hall) in H.
  inv_bind H. injection H as <- <- <-.
  pose proof (policy_call_ok _ _ _ E) as (_ & _ & Hfr).
  pose proof (policy_call_io _ _ _ E) as [_ Hw].
  destruct (Hfr a Ha) as (a' & Ha' & Hrep).
  split; [reflexivity|]. split; [reflexivity|].
  assert (Ht : trace (missWorld w n) = trace w ++ [EvRead n]) by reflexivity.
  split; [|split].
  - destruct Hw as [(H1 & _)|(m & d & H1 & _)]; rewrite H1, Ht, !readsIn_app; simpl; lia.
  - destruct Hw as [(H1 & _)|(m & d & H1 & _)]; rewrite H1, Ht, !writesIn_app;
      unfold writesIn; simpl; lia.
  - exists a'. split; [exact Ha'|]. exact Hrep.
Qed.

Lemma pinPage_full_pool_witness :
  RC_OK = RC_OK /\
  mkHandle 3 (Some [Byte.x03])
  = mkHandle 3 (Some (lookupBlock
                        (blocks (worldAfter [CInit pf 2 RS_LRU; CPin 1; CPin 2; CUnpin 1])) 3)).
Proof.
  destruct (pinPage_full_pool (worldAfter [CInit pf 2 RS_LRU; CPin 1; CPin 2; CUnpin 1])
              [mkFrame (Some [Byte.x01]) 1 0 0 0 0; mkFrame (Some [Byte.x02]) 2 0 1 1 0]
              (mkHandle 0 None) 3 RC_OK (mkHandle 3 (Some [Byte.x03]))
              (worldAfter [CInit pf 2 RS_LRU; CPin 1; CPin 2; CUnpin 1; CPin 3])
              (worldAfter_reachable _)) as (H1 & H2 & _);
    [lia | reflexivity | discriminate | | vm_compute; reflexivity | auto].
  intros f Hf. apply elem_of_cons in Hf as [->|Hf];
    [|apply list_elem_of_singleton in Hf as ->]; simpl; lia.
Defined.

(** ** CLOCK *)

(** In a reachable world under CLOCK, pinPage for a page n >= 0 that is
    in no frame of a pool without empty slot, called while clockPointer is
    a multiple of bufferSize, returns RC_OK with a handle for n, but the
    loop of CLOCK is not entered: the block is read and counted, no frame
    is touched, and page n is in no frame afterwards. *)
Theorem pinPage_CLOCK_drops_page w a page n :
  reachable w -> strategy w = RS_CLOCK -> 0 <= n -> mgmtData w = Some a -> a <> [] ->
  (forall f, f ∈ a -> pageNum f <> -1 /\ pageNum f <> n) ->
  Z.rem (clockPointer w) (bufferSize w) = 0 ->
  exists w',
    pinPage w page n = Ret (RC_OK, mkHandle n (Some (lookupBlock (blocks w) n)), w') /\
    mgmtData w' = Some a /\
    trace w' = trace w ++ [EvRead n] /\
    getNumReadIO w' = getNumReadIO w + 1 /\
    clockPointer w' = Z.rem (clockPointer w + 1) (bufferSize w).
Proof.
  intros Hr Hs Hn Ha Hne Hall Hcp. pose proof (reachable_Inv _ Hr) as HI.
  pose proof (ok_size _ _ (proj2 HI _ Ha)) as Hsz.
  assert (Hbs : bufferSize w <> 0).
  { destruct a; [contradiction|]. simpl in Hsz. lia. }
  rewrite (pinPage_full_eq w a page n HI Hn Ha Hne Hall).
  unfold policy. change (strategy (missWorld w n)) with (strategy w). rewrite Hs.
  unfold CLOCK. simpl CLOCK_loop.
  change (clockPointer (missWorld w n)) with (clockPointer w).
  change (bufferSize (missWorld w n)) with (bufferSize w).
  unfold c_rem. destruct (Z.eqb_spec (bufferSize w) 0); [contradiction|].
  simpl. rewrite Hcp. simpl.
  change (bufferSize (missWorld w n)) with (bufferSize w).
  destruct (Z.eqb_spec (bufferSize w) 0); [contradiction|].
  eexists. split; [reflexivity|]. simpl. rewrite Ha. repeat split.
Qed.

Lemma pinPage_CLOCK_drops_page_witness :
  exists w',
    pinPage (worldAfter [CInit pf 2 RS_CLOCK; CPin 1; CPin 2]) (mkHandle 0 None) 3
    = Ret (RC_OK,
           mkHandle 3 (Some (lookupBlock
                               (blocks (worldAfter [CInit pf 2 RS_CLOCK; CPin 1; CPin 2])) 3)),
           w') /\
    mgmtData w' = Some [mkFrame (Some [Byte.x01]) 1 0 1 0 0;
                        mkFrame (Some [Byte.x02]) 2 0 1 1 0].
Proof.
  destruct (pinPage_CLOCK_drops_page (worldAfter [CInit pf 2 RS_CLOCK; CPin 1; CPin 2])
              [mkFrame (Some [Byte.x01]) 1 0 1 0 0; mkFrame (Some [Byte.x02]) 2 0 1 1 0]
              (mkHandle 0 None) 3 (worldAfter_reachable _))
    as (w' & H1 & H2 & _);
    [reflexivity | lia | reflexivity | discriminate | | reflexivity | eauto].
  intros f Hf. apply elem_of_cons in Hf as [->|Hf];
    [|apply list_elem_of_singleton in Hf as ->]; simpl; lia.
Defined.

Lemma CLOCK_loop_slot_0 fuel page : forall w b w',
  CLOCK_loop fuel w page = Ret (b, w') -> framesOf w' !! 0%nat = framesOf w !! 0%nat.
Proof.
  induction fuel as [|fuel IH]; intros w b w' H; simpl in H; [discriminate|].
  inv_bind H. destruct (Z.eqb_spec x 0) as [Hz|Hnz].
  { injection H as <- <-. reflexivity. }
  cbv zeta in H. inv_bind H. apply c_rem_Ret in E as [Hbs ->].
  pose proof E0 as Hfa. apply frameAt_Ret in Hfa as [Hcp _].
  assert (Hne : Z.to_nat (clockPointer w) <> 0%nat).
  { intros Hz. apply Hnz. replace (clockPointer w) with 0 by lia.
    apply Z.rem_0_l. exact Hbs. }
  destruct (hitNum x0 =? 0).
  - injection H as <- <-. unfold framesOf at 1. simpl. unfold setFrame.
    apply list_lookup_insert_ne. exact Hne.
  - apply IH in H. rewrite H. unfold framesOf at 1. simpl. unfold setFrame.
    apply list_lookup_insert_ne. exact Hne.
Qed.

(** CLOCK never puts the new page into slot 0: whenever it returns, the
    frame in slot 0 is the frame that was there, untouched. *)
Theorem CLOCK_never_replaces_slot_0 w page w' :
  CLOCK w page = Ret w' -> framesOf w' !! 0%nat = framesOf w !! 0%nat.
Proof.
  unfold CLOCK. intros H. inv_bind H. destruct x as [b w1]. inv_bind H.
  injection H as <-. apply CLOCK_loop_slot_0 in E. exact E.
Qed.

Lemma CLOCK_never_replaces_slot_0_witness :
  framesOf (worldAfter [CInit pf 2 RS_CLOCK; CPin 1; CPin 2; CPin 1; CPin 3; CPin 4])
    !! 0%nat
  = framesOf (missWorld (worldAfter [CInit pf 2 RS_CLOCK; CPin 1; CPin 2; CPin 1; CPin 3]) 4)
    !! 0%nat.
Proof.
  apply (CLOCK_never_replaces_slot_0
           (missWorld (worldAfter [CInit pf 2 RS_CLOCK; CPin 1; CPin 2; CPin 1; CPin 3]) 4)
           (mkFrame (Some []) 4 0 1 1 0)).
  vm_compute. reflexivity.
Defined.

(** ** LFU *)

(** LFU leaves lfuPointer one past the slot it replaced, without wrapping
    round: when that slot is the last one, lfuPointer is bufferSize, and
    the next call of LFU begins by reading pageFrame[bufferSize], outside
    the array. *)
Theorem LFU_runs_past_the_array w a page :
  mgmtData w = Some a -> length a = Z.to_nat (bufferSize w) -> 0 < bufferSize w ->
  (lfuPointer w = bufferSize w -> LFU w page = Undefined) /\
  (forall w', LFU w page = Ret w' ->
     exists (k : nat) f f',
       a !! k = Some f /\ mgmtData w' = Some (<[k := f']> a) /\
       pageNum f' = pageNum page /\
       lfuPointer w' = Z.of_nat k + 1 /\ bufferSize w' = bufferSize w /\
       (k = (length a - 1)%nat -> lfuPointer w' = bufferSize w')).
Proof.
  intros Ha Hsz Hbs. split.
  - intros Hp. unfold LFU, framesOf. rewrite Ha. simpl default. cbv zeta.
    unfold LFU_select.
    destruct (lookup_lt_is_Some_2 a 0) as [f0 Hf0]; [lia|].
    pose proof (frameAt_nat a 0 f0 Hf0) as Hfa. change (Z.of_nat 0) with 0 in Hfa.
    rewrite Hfa. simpl mbind at 2.
    destruct (Z.to_nat (bufferSize w)) as [|m] eqn:Hm; [lia|].
    simpl LFU_first. rewrite Hp.
    assert (Hout : frameAt a (bufferSize w) = Undefined).
    { unfold frameAt. destruct (Z.ltb_spec (bufferSize w) 0); [reflexivity|].
      rewrite lookup_ge_None_2 by lia. reflexivity. }
    rewrite Hout. reflexivity.
  - intros w' H. unfold LFU, framesOf in H. rewrite Ha in H. simpl default in H.
    cbv zeta in H. do 2 inv_bind H. injection H as <-.
    pose proof E0 as Hf. apply frameAt_Ret in Hf as [Hx Hl].
    exists (Z.to_nat x), x0. eexists. split; [exact Hl|].
    split; [destruct (dirtyBit x0 =? 0); reflexivity|].
    split; [reflexivity|].
    split; [simpl; lia|].
    split; [destruct (dirtyBit x0 =? 0); reflexivity|].
    intros Hk. destruct (dirtyBit x0 =? 0); simpl; lia.
Qed.

Lemma LFU_runs_past_the_array_witness :
  LFU (missWorld (worldAfter [CInit pf 1 RS_LFU; CPin 1; CUnpin 1; CPin 2; CUnpin 2]) 3)
      (mkFrame (Some [Byte.x03]) 3 0 1 0 0)
  = Undefined.
Proof.
  destruct (LFU_runs_past_the_array
              (missWorld (worldAfter [CInit pf 1 RS_LFU; CPin 1; CUnpin 1; CPin 2; CUnpin 2]) 3)
              [mkFrame (Some [Byte.x02]) 2 0 0 0 0]
              (mkFrame (Some [Byte.x03]) 3 0 1 0 0)) as [H _];
    [reflexivity | reflexivity | simpl; lia |].
  apply H. reflexivity.
Defined.

(** ** LRU *)

Lemma least_hit_spec a lo : forall n c v i j,
  least_hit n a c v i = Ret j ->
  lo <= c < i ->
  (exists fc, frameAt a c = Ret fc /\ hitNum fc = v) ->
  (forall k g, lo <= k < i -> frameAt a k = Ret g ->
     v <= hitNum g /\ (k < c -> v < hitNum g)) ->
  exists f, frameAt a j = Ret f /\ lo <= j < i + Z.of_nat n /\
    forall k g, lo <= k < i + Z.of_nat n -> frameAt a k = Ret g ->
      hitNum f <= hitNum g /\ (k < j -> hitNum f < hitNum g).
Proof.
  induction n as [|n IH]; intros c v i j H Hc (fc & Hfc & Hv) Hinv; simpl in H.
  - injection H as <-. exists fc. split; [exact Hfc|]. split; [lia|].
    intros k g Hk Hg. rewrite Hv. apply Hinv; [lia | exact Hg].
  - inv_bind H. rename x into fi.
    destruct (Z.leb_spec v (hitNum fi)) as [Hle|Hlt]; simpl in H.
    + destruct (IH c v (i + 1) j H) as (f & Hf & Hj & Hmin); [lia | eauto | |].
      * intros k g Hk Hg. destruct (Z.eq_dec k i) as [->|Hne].
        -- rewrite E in Hg. injection Hg as <-. split; [exact Hle | lia].
        -- apply Hinv; [lia | exact Hg].
      * exists f. split; [exact Hf|]. split; [lia|].
        intros k g Hk Hg. apply Hmin; [lia | exact Hg].
    + destruct (IH i (hitNum fi) (i + 1) j H) as (f & Hf & Hj & Hmin); [lia | eauto | |].
      * intros k g Hk Hg. destruct (Z.eq_dec k i) as [->|Hne].
        -- rewrite E in Hg. injection Hg as <-. split; lia.
        -- destruct (Hinv k g ltac:(lia) Hg) as [H1 _]. split; lia.
      * exists f. split; [exact Hf|]. split; [lia|].
        intros k g Hk Hg. apply Hmin; [lia | exact Hg].
Qed.

Lemma least_hit_total a : forall n c v (i : nat),
  (i + n <= length a)%nat -> exists j, least_hit n a c v (Z.of_nat i) = Ret j.
Proof.
  induction n as [|n IH]; intros c v i Hi; simpl; [eauto|].
  destruct (lookup_lt_is_Some_2 a i) as [g Hg]; [lia|].
  rewrite (frameAt_nat _ _ _ Hg). simpl.
  replace (Z.of_nat i + 1) with (Z.of_nat (S i)) by lia.
  destruct (negb (v <=? hitNum g)); apply IH; lia.
Qed.

(** On a frame array of bufferSize > 0 slots the selection of LRU always
    returns, and what it returns is the first slot, in slot order, whose
    hitNum is the least of all frames: the fix counts play no part. *)
Theorem LRU_selects_least_hitNum w a :
  length a = Z.to_nat (bufferSize w) -> 0 < bufferSize w ->
  exists j f,
    LRU_select w a = Ret j /\ frameAt a j = Ret f /\
    forall k g, frameAt a k = Ret g ->
      hitNum f <= hitNum g /\ (k < j -> hitNum f < hitNum g).
Proof.
  intros Hsz Hbs. unfold LRU_select.
  destruct (first_index_total (fun f => fixCount f =? 0) a (Z.to_nat (bufferSize w)) 0)
    as [r Hr]; [lia|].
  change (Z.of_nat 0) with 0 in Hr. rewrite Hr. simpl mbind at 1.
  destruct (lookup_lt_is_Some_2 a 0) as [f0 Hf0]; [lia|].
  pose proof (frameAt_nat a 0 f0 Hf0) as Hfa. change (Z.of_nat 0) with 0 in Hfa.
  rewrite Hfa. simpl mbind.
  destruct (least_hit_total a (Z.to_nat (bufferSize w - 1)) 0 (hitNum f0) 1) as [j Hj]; [lia|].
  change (Z.of_nat 1) with 1 in Hj.
  destruct (least_hit_spec a 0 _ _ _ _ _ Hj) as (f & Hf & Hjr & Hmin); [lia | eauto | |].
  - intros k g Hk Hg. assert (k = 0) as -> by lia.
    rewrite Hfa in Hg. injection Hg as <-. split; lia.
  - exists j, f. split; [exact Hj|]. split; [exact Hf|].
    intros k g Hg. apply Hmin; [|exact Hg].
    pose proof Hg as Hg'. apply frameAt_Ret in Hg' as [Hk Hl].
    apply lookup_lt_Some in Hl. lia.
Qed.

Lemma LRU_selects_least_hitNum_witness :
  exists j f,
    LRU_select (worldAfter [CInit pf 2 RS_LRU; CPin 1; CPin 2])
      [mkFrame (Some [Byte.x01]) 1 0 1 0 0; mkFrame (Some [Byte.x02]) 2 0 1 1 0] = Ret j /\
    frameAt [mkFrame (Some [Byte.x01]) 1 0 1 0 0; mkFrame (Some [Byte.x02]) 2 0 1 1 0] j
    = Ret f /\
    forall k g,
      frameAt [mkFrame (Some [Byte.x01]) 1 0 1 0 0; mkFrame (Some [Byte.x02]) 2 0 1 1 0] k
      = Ret g ->
      hitNum f <= hitNum g /\ (k < j -> hitNum f < hitNum g).
Proof.
  apply (LRU_selects_least_hitNum (worldAfter [CInit pf 2 RS_LRU; CPin 1; CPin 2])).
  - reflexivity.
  - simpl. lia.
Defined.

(** ** LRU_K *)

(** When some frame is unpinned, the selection of LRU_K returns the first
    slot whose hitNum is the least among the frames from the first
    unpinned slot on; the frames before that slot are never chosen, and
    behind it the fix counts play no part. *)
Theorem LRU_K_selects_least_hitNum w a (i0 : nat) u :
  length a = Z.to_nat (bufferSize w) ->
  a !! i0 = Some u -> fixCount u = 0 ->
  (forall (k : nat) g, (k < i0)%nat -> a !! k = Some g -> fixCount g <> 0) ->
  exists j f,
    LRU_K_select w a = Ret j /\ Z.of_nat i0 <= j /\ frameAt a j = Ret f /\
    forall k g, Z.of_nat i0 <= k -> frameAt a k = Ret g ->
      hitNum f <= hitNum g /\ (k < j -> hitNum f < hitNum g).
Proof.
  intros Hsz Hu Hfix Hb. pose proof (lookup_lt_Some _ _ _ Hu) as Hlt.
  unfold LRU_K_select.
  rewrite (first_index_found _ a i0 u Hu) with (i := 0%nat); [| | |lia].
  - simpl mbind at 1. cbv iota beta. rewrite (frameAt_nat _ _ _ Hu). simpl mbind.
    destruct (least_hit_total a (Z.to_nat (bufferSize w - (Z.of_nat i0 + 1)))
                (Z.of_nat i0) (hitNum u) (S i0)) as [j Hj]; [lia|].
    replace (Z.of_nat (S i0)) with (Z.of_nat i0 + 1) in Hj by lia.
    destruct (least_hit_spec a (Z.of_nat i0) _ _ _ _ _ Hj) as (f & Hf & Hjr & Hmin).
    + lia.
    + exists u. split; [apply frameAt_nat, Hu | reflexivity].
    + intros k g Hk Hg. assert (k = Z.of_nat i0) as -> by lia.
      rewrite (frameAt_nat _ _ _ Hu) in Hg. injection Hg as <-. split; lia.
    + exists j, f. split; [exact Hj|]. split; [lia|]. split; [exact Hf|].
      intros k g Hk Hg. apply Hmin; [|exact Hg].
      pose proof Hg as Hg'. apply frameAt_Ret in Hg' as [_ Hl].
      apply lookup_lt_Some in Hl. lia.
  - apply Z.eqb_eq, Hfix.
  - intros k g Hk Hg. apply Z.eqb_neq. eauto.
Qed.

Lemma LRU_K_selects_least_hitNum_witness :
  exists j f,
    LRU_K_select (worldAfter [CInit pf 2 RS_LRU_K; CPin 1; CPin 2; CPin 1; CUnpin 2])
      [mkFrame (Some [Byte.x01]) 1 0 2 2 0; mkFrame (Some [Byte.x02]) 2 0 0 0 0] = Ret j /\
    Z.of_nat 1 <= j /\
    frameAt [mkFrame (Some [Byte.x01]) 1 0 2 2 0; mkFrame (Some [Byte.x02]) 2 0 0 0 0] j
    = Ret f /\
    forall k g, Z.of_nat 1 <= k ->
      frameAt [mkFrame (Some [Byte.x01]) 1 0 2 2 0; mkFrame (Some [Byte.x02]) 2 0 0 0 0] k
      = Ret g ->
      hitNum f <= hitNum g /\ (k < j -> hitNum f < hitNum g).
Proof.
  apply (LRU_K_selects_least_hitNum
           (worldAfter [CInit pf 2 RS_LRU_K; CPin 1; CPin 2; CPin 1; CUnpin 2])
           [mkFrame (Some [Byte.x01]) 1 0 2 2 0; mkFrame (Some [Byte.x02]) 2 0 0 0 0]
           1 (mkFrame (Some [Byte.x02]) 2 0 0 0 0)).
  - reflexivity.
  - reflexivity.
  - reflexivity.
  - intros k g Hk Hg. destruct k as [|k]; [|lia].
    injection Hg as <-. simpl. lia.
Defined.

(** ** Empty slots are not pinned *)

Lemma eU_setFrame a i f' :
  (pageNum f' = -1 -> fixCount f' = 0) -> emptyUnpinned a ->
  emptyUnpinned (setFrame a i f').
Proof.
  intros Hf' Ha k g Hg He. unfold setFrame in Hg.
  apply list_lookup_insert_Some in Hg as [(_ & <- & _)|(_ & Hg)]; eauto.
Qed.

Lemma eU_lists a :
  emptyUnpinned a <->
  forall i : nat, pages a !! i = Some (-1) -> pins a !! i = Some 0.
Proof.
  unfold emptyUnpinned, pages, pins. split.
  - intros H i Hi. rewrite list_lookup_fmap in *.
    apply fmap_Some in Hi as (f & Hf & Hp). rewrite Hf. simpl.
    f_equal. apply (H i f Hf). congruence.
  - intros H i f Hf He. specialize (H i). rewrite !list_lookup_fmap, Hf in H.
    simpl in H. rewrite He in H. specialize (H eq_refl). congruence.
Qed.

Lemma eU_replaced page a a' :
  replaced page a a' -> pageNum page <> -1 -> emptyUnpinned a -> emptyUnpinned a'.
Proof.
  intros [[Hp Hf]|(k & Hk & Hp & Hf)] Hne Ha; apply (proj2 (eU_lists a'));
    pose proof (proj1 (eU_lists a) Ha) as Hl.
  - rewrite Hp, Hf. exact Hl.
  - rewrite Hp, Hf. intros i Hi. destruct (decide (i = k)) as [->|Hik].
    + rewrite list_lookup_insert_eq in Hi; [congruence|].
      unfold pages. rewrite length_fmap. exact Hk.
    + rewrite list_lookup_insert_ne in Hi by auto.
      rewrite list_lookup_insert_ne by auto. apply Hl, Hi.
Qed.

Lemma pinPage_eU w page pn rc page' w' :
  Inv w -> (forall a, mgmtData w = Some a -> emptyUnpinned a) ->
  pinPage w page pn = Ret (rc, page', w') ->
  forall a', mgmtData w' = Some a' -> emptyUnpinned a'.
Proof.
  intros HI HU H. unfold pinPage in H.
  destruct (mgmtData w) as [a|] eqn:Ha; [|injection H as _ _ <-; rewrite Ha; discriminate].
  pose proof (HU a eq_refl) as Hua.
  destruct (Z.ltb_spec pn 0) as [Hneg|Hpn].
  { injection H as _ _ <-. rewrite Ha. intros a' [= <-]. exact Hua. }
  inv_bind H. destruct (negb (isPageFrameEmpty x)).
  - do 2 inv_bind H. destruct x1 as [h1 w1]. injection H as _ _ <-.
    destruct x0 as [j|].
    + apply bind_Ret in E1 as (fj & Hfj & E1).
      destruct (Z.eqb_spec (pageNum fj) (-1)) as [He|Hne].
      * unfold pin_empty in E1. rewrite Hfj in E1. simpl in E1. injection E1 as _ <-.
        simpl. intros a' [= <-]. apply eU_setFrame; [|exact Hua]. simpl. lia.
      * unfold pin_hit in E1. rewrite Hfj in E1. simpl in E1. injection E1 as _ <-.
        simpl. intros a' [= <-]. apply eU_setFrame; [|exact Hua].
        destruct (strategy w); simpl; contradiction.
    + unfold pin_full, readBlock in E1. cbv beta iota zeta in E1.
      apply bind_Ret in E1 as (w3 & Hpol & E1). injection E1 as _ <-.
      apply policy_call_ok in Hpol as (_ & _ & Hfr).
      destruct (Hfr a Ha) as (a1 & Ha1 & Hrep). rewrite Ha1. intros a' [= <-].
      eapply eU_replaced; [exact Hrep | simpl; lia | exact Hua].
  - apply bind_Ret in H as ([h1 w1] & Hfirst & H). injection H as _ _ <-.
    unfold pin_first in Hfirst. rewrite E in Hfirst. simpl in Hfirst.
    injection Hfirst as _ <-.
    simpl. intros a' [= <-]. apply eU_setFrame; [|exact Hua]. simpl. lia.
Qed.

Lemma call_eU w c rc w' :
  Inv w -> (forall a, mgmtData w = Some a -> emptyUnpinned a) ->
  call w c = Ret (rc, w') ->
  forall a', mgmtData w' = Some a' -> emptyUnpinned a'.
Proof.
  intros HI HU H. destruct c; simpl in H.
  - injection H as _ <-. simpl. intros a' [= <-] i f Hf _.
    apply lookup_replicate in Hf as [-> _]. reflexivity.
  - inv_bind H. destruct x as [[rc1 h] w1]. injection H as _ <-.
    eapply pinPage_eU; eauto.
  - unfold unpinPage in H. destruct (mgmtData w) as [a|] eqn:Ha;
      [|injection H as _ <-; rewrite Ha; discriminate].
    pose proof (HU a eq_refl) as Hua.
    inv_bind H. destruct x as [j|];
      [|injection H as _ <-; rewrite Ha; intros a' [= <-]; exact Hua].
    inv_bind H. destruct (Z.ltb_spec 0 (fixCount x)); injection H as _ <-;
      [|rewrite Ha; intros a' [= <-]; exact Hua].
    simpl. intros a' [= <-]. apply eU_setFrame; [|exact Hua]. simpl. intros He.
    apply frameAt_Ret in E0 as [_ E0]. pose proof (Hua _ _ E0 He). lia.
  - unfold markDirty, framesOf in H. cbv zeta in H.
    destruct (mgmtData w) as [a|] eqn:Ha; simpl in H.
    + pose proof (HU a eq_refl) as Hua. inv_bind H.
      destruct x as [j|]; [|injection H as _ <-; rewrite Ha; intros a' [= <-]; exact Hua].
      inv_bind H. injection H as _ <-. simpl. intros a' [= <-].
      apply eU_setFrame; [|exact Hua]. simpl.
      apply frameAt_Ret in E0 as [_ E0]. apply (Hua _ _ E0).
    + inv_bind H. destruct x as [j|]; [|injection H as _ <-; rewrite Ha; discriminate].
      inv_bind H. apply frameAt_Ret in E0 as [_ E0]. rewrite lookup_nil in E0. discriminate.
  - unfold forcePage, framesOf in H. cbv zeta in H.
    destruct (mgmtData w) as [a|] eqn:Ha; simpl in H.
    + pose proof (HU a eq_refl) as Hua. inv_bind H.
      destruct x as [j|]; [|injection H as _ <-; rewrite Ha; intros a' [= <-]; exact Hua].
      inv_bind H. injection H as _ <-. simpl. intros a' [= <-].
      apply eU_setFrame; [|exact Hua]. simpl.
      apply frameAt_Ret in E0 as [_ E0]. apply (Hua _ _ E0).
    + inv_bind H. destruct x as [j|]; [|injection H as _ <-; rewrite Ha; discriminate].
      inv_bind H. apply frameAt_Ret in E0 as [_ E0]. rewrite lookup_nil in E0. discriminate.
  - destruct (mgmtData w) as [a|] eqn:Ha.
    + destruct HI as [Hn Hok].
      destruct (forceFlushPool_spec w a Ha) as (b & t & Hw & _).
      { rewrite Hn. apply (ok_size _ _ (Hok _ Ha)). }
      rewrite Hw in H. injection H as _ <-. simpl. intros a' [= <-] i f Hf He.
      rewrite list_lookup_fmap in Hf. apply fmap_Some in Hf as (g & Hg & ->).
      unfold flushed in *. destruct (flushable g); simpl in *; eapply HU; eauto.
    + unfold forceFlushPool in H. rewrite Ha in H. injection H as _ <-.
      rewrite Ha. discriminate.
  - destruct (mgmtData w) as [a|] eqn:Ha.
    + destruct (shutdown_cases w a HI Ha) as [[_ Hs]|[_ (b & t & Hs & _)]];
        rewrite Hs in H; injection H as _ <-.
      * rewrite Ha. intros a' [= <-]. apply HU. reflexivity.
      * simpl. discriminate.
    + unfold shutdownBufferPool in H. rewrite Ha in H. injection H as _ <-.
      rewrite Ha. discriminate.
Qed.

Lemma reachable_eU w : reachable w -> forall a, mgmtData w = Some a -> emptyUnpinned a.
Proof.
  induction 1 as [b|w c rc w' Hr IH H]; [intros a [=]|].
  eapply call_eU; eauto using reachable_Inv.
Qed.

(** In every reachable world an empty slot has fix count 0. *)
Theorem empty_slot_never_pinned w a f :
  reachable w -> mgmtData w = Some a -> f ∈ a ->
  isPageFrameEmpty f = true -> fixCount f = 0.
Proof.
  intros Hr Ha Hin He. apply list_elem_of_lookup in Hin as [k Hk].
  apply (reachable_eU w Hr a Ha k f Hk). apply Z.eqb_eq, He.
Qed.

Lemma empty_slot_never_pinned_witness :
  fixCount (mkFrame None (-1) 1 0 0 0) = 0.
Proof.
  apply (empty_slot_never_pinned
           (worldAfter [CInit pf 2 RS_FIFO; CPin 1; CMarkDirty (-1); CUnpin (-1)])
           [mkFrame (Some [Byte.x01]) 1 0 1 0 0; mkFrame None (-1) 1 0 0 0]).
  - apply worldAfter_reachable.
  - reflexivity.
  - right. left.
  - reflexivity.
Defined.

(** ** pinPage into an empty slot *)

(** In a reachable world, pinPage for a page n >= 0 that is in no frame,
    on a pool whose first empty slot is j, returns RC_OK with a handle on
    the block read for n and puts the page into slot j with fix count 1
    and refNum 0.  The dirty bit of the slot is not touched: a slot that
    was made dirty while empty holds a dirty page from the start.  One
    block is read and none written; getNumReadIO grows by one, except for
    slot 0, where it is set to 1. *)
Theorem pinPage_into_empty_slot w a (j : nat) e page n :
  reachable w -> 0 <= n -> mgmtData w = Some a ->
  a !! j = Some e -> isPageFrameEmpty e = true ->
  (forall (k : nat) g, (k < j)%nat -> a !! k = Some g -> isPageFrameEmpty g = false) ->
  (forall f, f ∈ a -> pageNum f <> n) ->
  exists w' f',
    pinPage w page n = Ret (RC_OK, mkHandle n (Some (lookupBlock (blocks w) n)), w') /\
    mgmtData w' = Some (<[j := f']> a) /\
    pageNum f' = n /\ fixCount f' = 1 /\ refNum f' = 0 /\
    data f' = Some (lookupBlock (blocks w) n) /\ dirtyBit f' = dirtyBit e /\
    trace w' = trace w ++ match j with
                          | O => [EvEnsure n; EvRead n]
                          | S _ => [EvRead n]
                          end /\
    getNumReadIO w' = match j with O => 1 | S _ => getNumReadIO w + 1 end /\
    getNumWriteIO w' = getNumWriteIO w.
Proof.
  intros Hr Hn Ha Hj He Hfirst Hnot. pose proof (reachable_Inv _ Hr) as [Hnum Hok].
  pose proof (ok_size _ _ (Hok _ Ha)) as Hsz.
  pose proof (reachable_eU w Hr a Ha j e Hj) as Hfix.
  unfold isPageFrameEmpty in He. apply Z.eqb_eq in He. specialize (Hfix He).
  pose proof (lookup_lt_Some _ _ _ Hj) as Hlt.
  unfold pinPage. rewrite Ha. destruct (Z.ltb_spec n 0); [lia|].
  destruct j as [|j'].
  - pose proof (frameAt_nat a 0 e Hj) as Hfa. change (Z.of_nat 0) with 0 in Hfa.
    rewrite Hfa. simpl mbind at 1. unfold isPageFrameEmpty.
    destruct (Z.eqb_spec (pageNum e) (-1)); [|contradiction]. simpl negb. cbv iota.
    unfold pin_first. rewrite Hfa. simpl.
    eexists. eexists. split; [reflexivity|]. simpl.
    repeat split; simpl; try lia; try (rewrite <- app_assoc; reflexivity).
  - destruct (lookup_lt_is_Some_2 a 0) as [f0 Hf0]; [lia|].
    pose proof (frameAt_nat a 0 f0 Hf0) as Hfa. change (Z.of_nat 0) with 0 in Hfa.
    rewrite Hfa. simpl mbind at 1.
    rewrite (Hfirst 0%nat f0 ltac:(lia) Hf0). simpl negb. cbv iota.
    rewrite <- Hsz.
    rewrite (first_index_found _ a (S j') e Hj) with (i := 0%nat); [| | |lia].
    + simpl mbind at 1. rewrite (frameAt_nat _ _ _ Hj). simpl mbind at 1.
      destruct (Z.eqb_spec (pageNum e) (-1)); [|contradiction].
      unfold pin_empty. rewrite (frameAt_nat _ _ _ Hj). simpl.
      unfold setFrame. rewrite Nat2Z.id.
      eexists. eexists. split; [reflexivity|]. simpl.
      repeat split; destruct (strategy w); reflexivity.
    + apply orb_true_iff. left. apply Z.eqb_eq, He.
    + intros k g Hk Hg. apply orb_false_iff. split.
      * apply (Hfirst k g Hk Hg).
      * apply Z.eqb_neq. apply Hnot. apply list_elem_of_lookup. eauto.
Qed.

Lemma pinPage_into_empty_slot_witness :
  exists w' f',
    pinPage (worldAfter [CInit pf 2 RS_FIFO; CPin 1; CMarkDirty (-1)]) (mkHandle 0 None) 2
    = Ret (RC_OK,
           mkHandle 2 (Some (lookupBlock
              (blocks (worldAfter [CInit pf 2 RS_FIFO; CPin 1; CMarkDirty (-1)])) 2)), w') /\
    mgmtData w'
    = Some (<[1%nat := f']> [mkFrame (Some [Byte.x01]) 1 0 1 0 0;
                             mkFrame None (-1) 1 0 0 0]) /\
    pageNum f' = 2 /\ fixCount f' = 1 /\ refNum f' = 0 /\
    data f' = Some (lookupBlock
                (blocks (worldAfter [CInit pf 2 RS_FIFO; CPin 1; CMarkDirty (-1)])) 2) /\
    dirtyBit f' = dirtyBit (mkFrame None (-1) 1 0 0 0).
Proof.
  destruct (pinPage_into_empty_slot
              (worldAfter [CInit pf 2 RS_FIFO; CPin 1; CMarkDirty (-1)])
              [mkFrame (Some [Byte.x01]) 1 0 1 0 0; mkFrame None (-1) 1 0 0 0]
              1%nat (mkFrame None (-1) 1 0 0 0) (mkHandle 0 None) 2
              (worldAfter_reachable _))
    as (w' & f' & H1 & H2 & H3 & H4 & H5 & H6 & H7 & _);
    [lia | reflexivity | reflexivity | reflexivity | | |].
  - intros k g Hk Hg. destruct k as [|k]; [|lia]. injection Hg as <-. reflexivity.
  - intros f Hf. apply elem_of_cons in Hf as [->|Hf];
      [|apply list_elem_of_singleton in Hf as ->]; simpl; lia.
  - exists w', f'. auto 10.
Defined.

(** ** getNumReadIO over a run *)

Lemma readsIn_writes ps ds : readsIn (zip_with EvWrite ps ds) = 0.
Proof.
  revert ds. induction ps as [|n ps IH]; intros [|d ds]; simpl; auto.
Qed.

Lemma readsCounted_transfer r0 w w' :
  rearIndex w' = rearIndex w -> readsIn (trace w') = readsIn (trace w) ->
  pages (framesOf w') = pages (framesOf w) ->
  readsCounted r0 w -> readsCounted r0 w'.
Proof.
  unfold readsCounted, getNumReadIO, isPageFrameEmpty. intros Hri Hrd Hp HK.
  destruct (framesOf w' !! 0%nat) as [f0'|] eqn:H0'; [|exact I].
  assert (Hl : pages (framesOf w) !! 0%nat = Some (pageNum f0')).
  { rewrite <- Hp. unfold pages. rewrite list_lookup_fmap, H0'. reflexivity. }
  unfold pages in Hl. rewrite list_lookup_fmap in Hl.
  apply fmap_Some in Hl as (f0 & Hf0 & Hpn). rewrite Hf0 in HK.
  rewrite Hpn, Hri, Hrd. exact HK.
Qed.

Lemma pinPage_slot_0 w page pn page' w' :
  pinPage w page pn = Ret (RC_OK, page', w') ->
  exists f0', framesOf w' !! 0%nat = Some f0' /\ isPageFrameEmpty f0' = false.
Proof.
  intros H. unfold pinPage in H.
  destruct (mgmtData w) as [a|] eqn:Ha; [|discriminate].
  destruct (Z.ltb_spec pn 0) as [|Hpn]; [discriminate|].
  apply bind_Ret in H as (f0 & Hf0 & H).
  assert (Hnew : forall v : Z, 0 <= v -> (v =? -1) = false)
    by (intros v Hv; apply Z.eqb_neq; lia).
  pose proof Hf0 as Hl0. apply frameAt_Ret in Hl0 as [_ Hl0].
  change (Z.to_nat 0) with 0%nat in Hl0.
  assert (Hlen : (0 < length a)%nat) by (eapply lookup_lt_Some; eauto).
  destruct (isPageFrameEmpty f0) eqn:He; simpl in H.
  - apply bind_Ret in H as ([h1 w1] & Hfirst & H). injection H as <- <-.
    unfold pin_first in Hfirst. rewrite Hf0 in Hfirst. simpl in Hfirst.
    injection Hfirst as _ <-. unfold framesOf, setFrame. simpl.
    rewrite list_lookup_insert_eq by exact Hlen. eexists. split; [reflexivity|].
    unfold isPageFrameEmpty. simpl. auto.
  - apply bind_Ret in H as (r & Hr & H). apply bind_Ret in H as ([h1 w1] & Hb & H).
    injection H as <- <-.
    assert (Hset : forall j f', (Z.to_nat j = 0%nat -> isPageFrameEmpty f' = false) ->
              exists f0', <[Z.to_nat j := f']> a !! 0%nat = Some f0' /\
                          isPageFrameEmpty f0' = false).
    { intros j f' Hf'. destruct (decide (Z.to_nat j = 0%nat)) as [Hj|Hj].
      - rewrite Hj, list_lookup_insert_eq by exact Hlen. eauto.
      - rewrite list_lookup_insert_ne by exact Hj. eauto. }
    destruct r as [j|].
    + apply bind_Ret in Hb as (fj & Hfj & Hb).
      destruct (Z.eqb_spec (pageNum fj) (-1)) as [Hje|Hjne].
      * unfold pin_empty in Hb. rewrite Hfj in Hb. simpl in Hb. injection Hb as _ <-.
        unfold framesOf, setFrame. simpl. apply Hset. intros _.
        unfold isPageFrameEmpty. simpl. auto.
      * unfold pin_hit in Hb. rewrite Hfj in Hb. simpl in Hb. injection Hb as _ <-.
        unfold framesOf, setFrame. simpl. apply Hset. intros _.
        unfold isPageFrameEmpty. apply Z.eqb_neq.
        destruct (strategy w); simpl; exact Hjne.
    + unfold pin_full, readBlock in Hb. cbv beta iota zeta in Hb.
      apply bind_Ret in Hb as (w3 & Hpol & Hb). injection Hb as _ <-.
      apply policy_call_ok in Hpol as (_ & _ & Hfr).
      destruct (Hfr a Ha) as (a' & Ha' & Hrep). unfold framesOf. rewrite Ha'. simpl.
      assert (Hp0 : exists v, pages a' !! 0%nat = Some v /\ v <> -1).
      { unfold isPageFrameEmpty in He. apply Z.eqb_neq in He.
        destruct Hrep as [[Hp _]|(k & Hk & Hp & _)]; rewrite Hp.
        - exists (pageNum f0). unfold pages. rewrite list_lookup_fmap, Hl0. auto.
        - simpl. destruct (decide (k = 0%nat)) as [->|Hk0].
          + rewrite list_lookup_insert_eq by (unfold pages; rewrite length_fmap; lia).
            exists pn. split; [reflexivity | lia].
          + rewrite list_lookup_insert_ne by exact Hk0.
            exists (pageNum f0). unfold pages. rewrite list_lookup_fmap, Hl0. auto. }
      destruct Hp0 as (v & Hv & Hne). unfold pages in Hv.
      rewrite list_lookup_fmap in Hv. apply fmap_Some in Hv as (g & Hg & ->).
      exists g. split; [exact Hg|]. apply Z.eqb_neq, Hne.
Qed.

Lemma forceFlushPool_eq w a :
  mgmtData w = Some a -> length a = Z.to_nat (numPages w) ->
  exists b,
    forceFlushPool w
    = Ret (RC_OK,
           with_store (with_writeCount (with_frames w (flushed <$> a))
                         (writeCount w + Z.of_nat (length (flushPages a))))
             b (trace w ++ zip_with EvWrite (flushPages a) (data <$> a))).
Proof.
  intros Ha Hlen. unfold forceFlushPool. rewrite Ha, <- Hlen.
  pose proof (flush_collect_spec a [] [] (writeCount w)) as Hc.
  change (Z.of_nat (length [])) with 0 in Hc. simpl in Hc. rewrite Hc. simpl.
  destruct (flush_write_trace (flushed <$> a) (flushPages a) 0
              (with_writeCount (with_frames w (flushed <$> a))
                 (writeCount w + Z.of_nat (length (flushPages a))))) as (b & Hw).
  { rewrite length_fmap. pose proof (flushPages_length a). lia. }
  change (Z.of_nat 0) with 0 in Hw. rewrite Hw. simpl.
  rewrite drop_0, data_flushed. eauto.
Qed.

Lemma call_readsCounted r0 w c rc w' :
  Inv w -> readsCounted r0 w -> notInit c = true ->
  call w c = Ret (rc, w') -> readsCounted r0 w'.
Proof.
  intros HI HK Hc H. destruct c; simpl in H; try discriminate Hc.
  - apply bind_Ret in H as ([[rc1 h] w1] & Hp & H). injection H as <- <-.
    assert (Hdec : rc1 = RC_OK \/ rc1 <> RC_OK)
      by (destruct rc1; (left; reflexivity) || (right; discriminate)).
    destruct Hdec as [->|Hrc]; [|apply pinPage_not_OK in Hp as ->; assumption].
    destruct (pinPage_slot_0 _ _ _ _ _ Hp) as (f0' & Hf0' & He').
    apply pinPage_io in Hp as (_ & _ & f0 & Hf0 & Hcase).
    apply frameAt_Ret in Hf0 as [_ Hf0]. change (Z.to_nat 0) with 0%nat in Hf0.
    unfold readsCounted, getNumReadIO in *. rewrite Hf0 in HK. rewrite Hf0', He'.
    destruct (isPageFrameEmpty f0).
    + destruct Hcase as (-> & -> & _). rewrite readsIn_app. simpl. lia.
    + destruct Hcase as [(-> & -> & _)|(-> & w2 & H2 & _ & Hw)]; [exact HK|].
      destruct Hw as [(-> & _)|(m & d & -> & _)];
        rewrite H2, !readsIn_app; simpl; lia.
  - unfold unpinPage in H. destruct (mgmtData w) as [a|] eqn:Ha;
      [|injection H as _ <-; exact HK].
    inv_bind H. destruct x as [j|]; [|injection H as _ <-; exact HK].
    inv_bind H. destruct (0 <? fixCount x); injection H as _ <-; [|exact HK].
    apply (readsCounted_transfer r0 w); try reflexivity; [|exact HK].
    unfold framesOf. simpl. rewrite Ha. simpl.
    apply (pages_setFrame_same a j x); [exact E0 | reflexivity].
  - unfold markDirty in H. cbv zeta in H. inv_bind H.
    destruct x as [j|]; [|injection H as _ <-; exact HK].
    inv_bind H. injection H as _ <-.
    apply (readsCounted_transfer r0 w); try reflexivity; [|exact HK].
    unfold framesOf at 1. simpl.
    apply (pages_setFrame_same (framesOf w) j x); [exact E0 | reflexivity].
  - unfold forcePage in H. cbv zeta in H. inv_bind H.
    destruct x as [j|]; [|injection H as _ <-; exact HK].
    inv_bind H. injection H as _ <-.
    apply (readsCounted_transfer r0 w); try reflexivity; [| |exact HK].
    + simpl. rewrite readsIn_app. simpl. lia.
    + unfold framesOf at 1. simpl.
      apply (pages_setFrame_same (framesOf w) j x); [exact E0 | reflexivity].
  - destruct (mgmtData w) as [a|] eqn:Ha.
    + destruct HI as [Hn Hok].
      destruct (forceFlushPool_eq w a Ha) as (b & Hw).
      { rewrite Hn. apply (ok_size _ _ (Hok _ Ha)). }
      rewrite Hw in H. injection H as _ <-.
      apply (readsCounted_transfer r0 w); try reflexivity; [| |exact HK].
      * simpl. rewrite readsIn_app, readsIn_writes. lia.
      * unfold framesOf. simpl. rewrite Ha. simpl. apply pages_flushed.
    + unfold forceFlushPool in H. rewrite Ha in H. injection H as _ <-. exact HK.
  - destruct (mgmtData w) as [a|] eqn:Ha.
    + destruct (shutdown_cases w a HI Ha) as [[_ Hs]|[_ (b & t & Hs & _)]];
        rewrite Hs in H; injection H as _ <-; [exact HK|].
      unfold readsCounted, framesOf. simpl. exact I.
    + unfold shutdownBufferPool in H. rewrite Ha in H. injection H as _ <-. exact HK.
Qed.

Lemma run_readsCounted r0 cs : forall w w',
  Inv w -> readsCounted r0 w -> forallb notInit cs = true ->
  run w cs = Ret w' -> readsCounted r0 w'.
Proof.
  induction cs as [|c cs IH]; intros w w' HI HK Hcs H; simpl in *.
  - injection H as <-. exact HK.
  - apply andb_true_iff in Hcs as [Hc Hcs].
    apply bind_Ret in H as ([rc w1] & Hcall & H).
    apply (IH w1 w'); auto.
    + eapply call_Inv; eauto.
    + eapply call_readsCounted; eauto.
Qed.

(** After initBufferPool and any calls other than initBufferPool that all
    returned, once frame 0 holds a page, getNumReadIO is the number of
    blocks read from the page store since that initBufferPool, whatever
    the read index was before it. *)
Theorem getNumReadIO_counts_reads w0 pageFN n s cs w f0 :
  forallb notInit cs = true ->
  run (initBufferPool w0 pageFN n s).2 cs = Ret w ->
  framesOf w !! 0%nat = Some f0 -> isPageFrameEmpty f0 = false ->
  getNumReadIO w = readsIn (trace w) - readsIn (trace w0).
Proof.
  intros Hcs Hrun Hf0 He.
  assert (HK : readsCounted (readsIn (trace w0)) w).
  { apply (run_readsCounted _ cs (initBufferPool w0 pageFN n s).2 w); auto.
    - apply Inv_init.
    - unfold readsCounted, framesOf. simpl.
      destruct (replicate (Z.to_nat n) emptyFrame !! 0%nat) as [g|] eqn:Hg; [|exact I].
      apply lookup_replicate in Hg as [-> _]. reflexivity. }
  unfold readsCounted in HK. rewrite Hf0, He in HK. exact HK.
Qed.

Lemma getNumReadIO_counts_reads_witness :
  getNumReadIO (worldAfter [CInit pf 2 RS_LRU; CPin 1; CPin 2; CPin 1; CUnpin 1; CUnpin 1;
                            CPin 3])
  = readsIn (trace (worldAfter [CInit pf 2 RS_LRU; CPin 1; CPin 2; CPin 1; CUnpin 1;
                                CUnpin 1; CPin 3]))
    - readsIn (trace (startWorld disk123)).
Proof.
  apply (getNumReadIO_counts_reads (startWorld disk123) pf 2 RS_LRU
           [CPin 1; CPin 2; CPin 1; CUnpin 1; CUnpin 1; CPin 3]
           _ (mkFrame (Some [Byte.x01]) 1 0 0 2 0)).
  - reflexivity.
  - vm_compute. reflexivity.
  - vm_compute. reflexivity.
  - reflexivity.
Defined.

(** ** The hand of CLOCK *)

(** The loop of CLOCK over frames with a mark: each is passed, the hand
    moves on. *)
Lemma CLOCK_loop_passes page mid : forall pre tail w fuel,
  mgmtData w = Some (pre ++ mid ++ tail) ->
  Z.of_nat (length (pre ++ mid ++ tail)) = bufferSize w ->
  clockPointer w = Z.of_nat (length pre) -> pre <> [] ->
  (forall g, g ∈ mid -> hitNum g <> 0) ->
  CLOCK_loop (length mid + fuel) w page
  = CLOCK_loop fuel
      (with_clockPointer (with_frames w (pre ++ (passed <$> mid) ++ tail))
         (Z.of_nat (length pre + length mid))) page.
Proof.
  induction mid as [|g mid IH]; intros pre tail w fuel Ha Hlen Hcp Hpre Hmid.
  - simpl in *. rewrite Nat.add_0_r, <- Hcp. unfold with_frames. rewrite <- Ha.
    destruct w; reflexivity.
  - simpl length. simpl Nat.add. simpl CLOCK_loop at 1.
    assert (Hpos : (0 < length pre)%nat) by (destruct pre; [contradiction | simpl; lia]).
    rewrite !length_app in Hlen. simpl in Hlen.
    unfold c_rem. destruct (Z.eqb_spec (bufferSize w) 0); [lia|]. simpl mbind at 1.
    rewrite Hcp, Z.rem_small by lia.
    destruct (Z.eqb_spec (Z.of_nat (length pre)) 0); [lia|].
    unfold framesOf. rewrite Ha. simpl default.
    rewrite (frameAt_nat _ _ g) by apply list_lookup_middle, eq_refl. simpl mbind at 1.
    destruct (Z.eqb_spec (hitNum g) 0) as [Hz|_].
    { exfalso. apply (Hmid g); [left | exact Hz]. }
    unfold setFrame. rewrite Nat2Z.id.
    rewrite insert_app_r_alt by lia. rewrite Nat.sub_diag. simpl insert.
    rewrite (IH (pre ++ [passed g]) tail).
    + rewrite <- !app_assoc, length_app. simpl.
      replace (Z.of_nat (length pre + 1 + length mid))
        with (Z.of_nat (length pre + S (length mid))) by lia.
      reflexivity.
    + simpl. rewrite <- app_assoc. reflexivity.
    + simpl. rewrite !length_app. simpl. lia.
    + simpl. rewrite length_app. simpl. lia.
    + intros Habs. apply app_eq_nil in Habs as [_ Habs]. discriminate.
    + intros h Hh. apply Hmid. right. exact Hh.
Qed.

(** With clockPointer inside the array and not on slot 0, CLOCK goes up
    the slots from clockPointer: frames whose hitNum is not 0 get hitNum
    0, and the first frame with hitNum 0 is replaced, whatever its fix
    count; if its dirty bit is not 0 its buffer is written under its page
    number first, and the write counter is not moved.  clockPointer ends
    one past the replaced slot, wrapped at bufferSize. *)
Theorem CLOCK_replaces_first_unmarked w pre mid f post page :
  mgmtData w = Some (pre ++ mid ++ f :: post) ->
  Z.of_nat (length (pre ++ mid ++ f :: post)) = bufferSize w ->
  clockPointer w = Z.of_nat (length pre) -> pre <> [] ->
  (forall g, g ∈ mid -> hitNum g <> 0) -> hitNum f = 0 ->
  exists w',
    CLOCK w page = Ret w' /\
    mgmtData w' = Some (pre ++ (passed <$> mid) ++ page :: post) /\
    clockPointer w' = Z.rem (Z.of_nat (length pre + length mid) + 1) (bufferSize w) /\
    trace w' = trace w ++ (if dirtyBit f =? 0 then []
                           else [EvWrite (pageNum f) (data f)]) /\
    getNumWriteIO w' = getNumWriteIO w.
Proof.
  intros Ha Hlen Hcp Hpre Hmid Hf.
  assert (Hpos : (0 < length pre)%nat) by (destruct pre; [contradiction | simpl; lia]).
  pose proof Hlen as Hlen'. rewrite !length_app in Hlen'. simpl in Hlen'.
  unfold CLOCK.
  replace (S (Z.to_nat (bufferSize w)))
    with (length mid + S (Z.to_nat (bufferSize w) - length mid))%nat by lia.
  rewrite (CLOCK_loop_passes page mid pre (f :: post) w _ Ha Hlen Hcp Hpre Hmid).
  simpl CLOCK_loop. unfold c_rem. simpl bufferSize. simpl clockPointer.
  destruct (Z.eqb_spec (bufferSize w) 0); [lia|]. simpl mbind at 1.
  rewrite Z.rem_small by lia.
  destruct (Z.eqb_spec (Z.of_nat (length pre + length mid)) 0); [lia|].
  unfold framesOf. simpl mgmtData. simpl default.
  assert (Hfa : frameAt (pre ++ (passed <$> mid) ++ f :: post)
                  (Z.of_nat (length pre + length mid)) = Ret f).
  { apply frameAt_nat. rewrite app_assoc. apply list_lookup_middle.
    rewrite length_app, length_fmap. reflexivity. }
  assert (Hins : setFrame (pre ++ (passed <$> mid) ++ f :: post)
                   (Z.of_nat (length pre + length mid)) page
                 = pre ++ (passed <$> mid) ++ page :: post).
  { unfold setFrame. rewrite Nat2Z.id, app_assoc.
    rewrite insert_app_r_alt by (rewrite length_app, length_fmap; lia).
    rewrite length_app, length_fmap, Nat.sub_diag. simpl.
    rewrite <- app_assoc. reflexivity. }
  rewrite Hfa. simpl mbind at 1. rewrite Hf. simpl Z.eqb. cbv iota.
  rewrite Hins.
  destruct (dirtyBit f =? 0); simpl;
    (destruct (Z.eqb_spec (bufferSize w) 0); [lia|]);
    (eexists; split; [reflexivity|]); simpl; repeat split.
  rewrite app_nil_r. reflexivity.
Qed.

Lemma CLOCK_replaces_first_unmarked_witness :
  exists w',
    CLOCK (missWorld (worldAfter [CInit pf 3 RS_CLOCK; CPin 1; CPin 2; CPin 3; CPin 1;
                                  CPin 4]) 5)
          (mkFrame (Some []) 5 0 1 1 0) = Ret w' /\
    mgmtData w'
    = Some ([mkFrame (Some [Byte.x01]) 1 0 2 1 0]
            ++ (passed <$> [])
            ++ mkFrame (Some []) 5 0 1 1 0 :: [mkFrame (Some [Byte.x03]) 3 0 1 0 0]).
Proof.
  destruct (CLOCK_replaces_first_unmarked
              (missWorld (worldAfter [CInit pf 3 RS_CLOCK; CPin 1; CPin 2; CPin 3; CPin 1;
                                      CPin 4]) 5)
              [mkFrame (Some [Byte.x01]) 1 0 2 1 0] []
              (mkFrame (Some [Byte.x02]) 2 0 1 0 0) [mkFrame (Some [Byte.x03]) 3 0 1 0 0]
              (mkFrame (Some []) 5 0 1 1 0)) as (w' & H1 & H2 & _).
  - vm_compute. reflexivity.
  - reflexivity.
  - reflexivity.
  - discriminate.
  - intros g Hg. apply elem_of_nil in Hg. contradiction.
  - reflexivity.
  - exists w'. split; [|exact H2]. exact H1.
Defined.

(** With clockPointer inside the array and not on slot 0, and every frame
    from clockPointer to the end carrying a mark, CLOCK clears those
    marks, replaces nothing and writes nothing: the new page is in no
    frame, and clockPointer ends on (bufferSize + 1) rem bufferSize. *)
Theorem CLOCK_passes_all_marked w pre rest page :
  mgmtData w = Some (pre ++ rest) ->
  Z.of_nat (length (pre ++ rest)) = bufferSize w ->
  clockPointer w = Z.of_nat (length pre) -> pre <> [] ->
  (forall g, g ∈ rest -> hitNum g <> 0) ->
  CLOCK w page
  = Ret (with_clockPointer (with_frames w (pre ++ (passed <$> rest)))
           (Z.rem (bufferSize w + 1) (bufferSize w))).
Proof.
  intros Ha Hlen Hcp Hpre Hrest.
  assert (Hpos : (0 < length pre)%nat) by (destruct pre; [contradiction | simpl; lia]).
  pose proof Hlen as Hlen'. rewrite length_app in Hlen'.
  unfold CLOCK.
  replace (S (Z.to_nat (bufferSize w)))
    with (length rest + S (Z.to_nat (bufferSize w) - length rest))%nat by lia.
  rewrite (CLOCK_loop_passes page rest pre [] w).
  - rewrite app_nil_r. simpl CLOCK_loop. unfold c_rem. simpl bufferSize. simpl clockPointer.
    destruct (Z.eqb_spec (bufferSize w) 0); [lia|]. simpl mbind at 1.
    replace (Z.of_nat (length pre + length rest)) with (bufferSize w) by lia.
    rewrite Z.rem_same by lia. simpl.
    destruct (Z.eqb_spec (bufferSize w) 0); [lia|]. reflexivity.
  - rewrite app_nil_r. exact Ha.
  - rewrite app_nil_r. exact Hlen.
  - exact Hcp.
  - exact Hpre.
  - exact Hrest.
Qed.

Lemma CLOCK_passes_all_marked_witness :
  CLOCK (missWorld (worldAfter [CInit pf 3 RS_CLOCK; CPin 1; CPin 2; CPin 3; CPin 1]) 4)
        (mkFrame (Some []) 4 0 1 1 0)
  = Ret (with_clockPointer
           (with_frames
              (missWorld (worldAfter [CInit pf 3 RS_CLOCK; CPin 1; CPin 2; CPin 3; CPin 1]) 4)
              ([mkFrame (Some [Byte.x01]) 1 0 2 1 0]
               ++ (passed <$> [mkFrame (Some [Byte.x02]) 2 0 1 1 0;
                               mkFrame (Some [Byte.x03]) 3 0 1 1 0])))
           (Z.rem (bufferSize
                     (missWorld (worldAfter [CInit pf 3 RS_CLOCK; CPin 1; CPin 2; CPin 3;
                                             CPin 1]) 4) + 1)
                  (bufferSize
                     (missWorld (worldAfter [CInit pf 3 RS_CLOCK; CPin 1; CPin 2; CPin 3;
                                             CPin 1]) 4)))).
Proof.
  apply (CLOCK_passes_all_marked
           (missWorld (worldAfter [CInit pf 3 RS_CLOCK; CPin 1; CPin 2; CPin 3; CPin 1]) 4)
           [mkFrame (Some [Byte.x01]) 1 0 2 1 0]
           [mkFrame (Some [Byte.x02]) 2 0 1 1 0; mkFrame (Some [Byte.x03]) 3 0 1 1 0]).
  - vm_compute. reflexivity.
  - reflexivity.
  - reflexivity.
  - discriminate.
  - intros g Hg. apply elem_of_cons in Hg as [->|Hg];
      [|apply list_elem_of_singleton in Hg as ->]; simpl; lia.
Defined.

(** Hits move clockPointer up without wrapping.  Once it is beyond the
    array and not on a multiple of bufferSize, CLOCK reads
    pageFrame[clockPointer], outside the array. *)
Theorem CLOCK_hand_outside_the_array w a page :
  mgmtData w = Some a -> Z.of_nat (length a) = bufferSize w ->
  bufferSize w < clockPointer w -> Z.rem (clockPointer w) (bufferSize w) <> 0 ->
  CLOCK w page = Undefined.
Proof.
  intros Ha Hlen Hcp Hrem. unfold CLOCK. simpl CLOCK_loop. unfold c_rem.
  destruct (Z.eqb_spec (bufferSize w) 0); [reflexivity|]. simpl mbind at 1.
  destruct (Z.eqb_spec (Z.rem (clockPointer w) (bufferSize w)) 0); [contradiction|].
  unfold framesOf. rewrite Ha. simpl default.
  assert (Hout : frameAt a (clockPointer w) = Undefined).
  { unfold frameAt. destruct (Z.ltb_spec (clockPointer w) 0); [reflexivity|].
    rewrite lookup_ge_None_2 by lia. reflexivity. }
  rewrite Hout. reflexivity.
Qed.

Lemma CLOCK_hand_outside_the_array_witness :
  CLOCK (missWorld (worldAfter [CInit pf 2 RS_CLOCK; CPin 1; CPin 2; CPin 1; CPin 1; CPin 1])
                   3)
        (mkFrame (Some [Byte.x03]) 3 0 1 1 0)
  = Undefined.
Proof.
  apply (CLOCK_hand_outside_the_array
           (missWorld (worldAfter [CInit pf 2 RS_CLOCK; CPin 1; CPin 2; CPin 1; CPin 1;
                                   CPin 1]) 3)
           [mkFrame (Some [Byte.x01]) 1 0 4 1 0; mkFrame (Some [Byte.x02]) 2 0 1 1 0]).
  - vm_compute. reflexivity.
  - reflexivity.
  - vm_compute. reflexivity.
  - vm_compute. discriminate.
Defined.

(** ** unpinPage on the empty mark *)

(** In a reachable world with an open pool, unpinPage with page number -1
    takes the first empty slot for the page: it returns
    RC_PAGE_NOT_PINNED when some slot is empty, RC_PAGE_NOT_IN_FRAMELIST
    when none is, and changes nothing in either case. *)
Theorem unpinPage_empty_mark w a d :
  reachable w -> mgmtData w = Some a ->
  ((exists f, f ∈ a /\ isPageFrameEmpty f = true) ->
   unpinPage w (mkHandle (-1) d) = Ret (RC_PAGE_NOT_PINNED, w)) /\
  ((forall f, f ∈ a -> isPageFrameEmpty f = false) ->
   unpinPage w (mkHandle (-1) d) = Ret (RC_PAGE_NOT_IN_FRAMELIST, w)).
Proof.
  intros Hr Ha. destruct (reachable_Inv _ Hr) as [Hnum Hok].
  pose proof (ok_size _ _ (Hok _ Ha)) as Hsz.
  destruct (first_index_total (fun f => pageNum f =? -1) a (length a) 0) as [r Hfi]; [lia|].
  change (Z.of_nat 0) with 0 in Hfi.
  unfold unpinPage. rewrite Ha, Hnum, <- Hsz. simpl ph_pageNum. rewrite Hfi.
  simpl mbind at 1. split.
  - intros (e & Hin & He). destruct r as [j|].
    + apply first_index_Some in Hfi as (_ & f & Hf & Hp & _). rewrite Hf. simpl.
      pose proof Hf as Hl. apply frameAt_Ret in Hl as [_ Hl].
      rewrite (reachable_eU w Hr a Ha _ f Hl) by (apply Z.eqb_eq, Hp). reflexivity.
    + exfalso. apply list_elem_of_lookup in Hin as [k Hk].
      pose proof (first_index_None _ _ _ _ Hfi (Z.of_nat k) e) as Hn.
      unfold isPageFrameEmpty in He. rewrite Hn in He; [discriminate| |].
      * apply lookup_lt_Some in Hk. lia.
      * apply frameAt_nat, Hk.
  - intros Hall. destruct r as [j|]; [|reflexivity]. exfalso.
    apply first_index_Some in Hfi as (_ & f & Hf & Hp & _).
    apply frameAt_Ret in Hf as [_ Hf].
    assert (Hin : f ∈ a) by (apply list_elem_of_lookup; eauto).
    specialize (Hall f Hin). unfold isPageFrameEmpty in Hall. congruence.
Qed.

Lemma unpinPage_empty_mark_witness :
  unpinPage (worldAfter [CInit pf 2 RS_FIFO; CPin 1]) (mkHandle (-1) None)
  = Ret (RC_PAGE_NOT_PINNED, worldAfter [CInit pf 2 RS_FIFO; CPin 1]).
Proof.
  destruct (unpinPage_empty_mark (worldAfter [CInit pf 2 RS_FIFO; CPin 1])
              [mkFrame (Some [Byte.x01]) 1 0 1 0 0; emptyFrame] None
              (worldAfter_reachable _) eq_refl) as [H _].
  apply H. exists emptyFrame. split; [right; left | reflexivity].
Defined.

(** ** initBufferPool *)

(** initBufferPool returns RC_OK in every world.  Afterwards all
    numPages slots are empty, unpinned and clean (no slot at all for
    numPages <= 0), getNumWriteIO is 0 and clockPointer and lfuPointer are
    0; the read index is not reset, so getNumReadIO answers what it
    answered before; the page store is not touched. *)
Theorem initBufferPool_effect w pageFN n s :
  (initBufferPool w pageFN n s).1 = RC_OK /\
  getFrameContents (initBufferPool w pageFN n s).2 = Ret (replicate (Z.to_nat n) NO_PAGE) /\
  getFixCounts (initBufferPool w pageFN n s).2 = Ret (replicate (Z.to_nat n) 0) /\
  getDirtyFlags (initBufferPool w pageFN n s).2 = Ret (replicate (Z.to_nat n) false) /\
  getNumWriteIO (initBufferPool w pageFN n s).2 = 0 /\
  clockPointer (initBufferPool w pageFN n s).2 = 0 /\
  lfuPointer (initBufferPool w pageFN n s).2 = 0 /\
  getNumReadIO (initBufferPool w pageFN n s).2 = getNumReadIO w /\
  hit (initBufferPool w pageFN n s).2 = hit w /\
  trace (initBufferPool w pageFN n s).2 = trace w /\
  blocks (initBufferPool w pageFN n s).2 = blocks w.
Proof.
  unfold getFrameContents, getFixCounts, getDirtyFlags, framesOf. simpl.
  assert (Hrd : forall {A} (g : PageFrame -> A),
            read_all g (replicate (Z.to_nat n) emptyFrame) 0 (Z.to_nat n)
            = Ret (replicate (Z.to_nat n) (g emptyFrame))).
  { intros A g.
    pose proof (read_all_spec g (replicate (Z.to_nat n) emptyFrame) []) as H.
    rewrite length_replicate in H. change (Z.of_nat (length [])) with 0 in H.
    simpl app in H. rewrite H, fmap_replicate. reflexivity. }
  rewrite !Hrd. repeat split.
Qed.

(** ** What LRU, LRU_K and LFU write *)

Lemma LRU_clean_page w page w' :
  LRU w page = Ret w' -> dirtyBit page = 0 ->
  trace w' = trace w /\ writeCount w' = writeCount w /\ blocks w' = blocks w.
Proof.
  unfold LRU. cbv zeta. intros H Hd.
  destruct (pageFile w); [|injection H as <-; auto].
  destruct (data page); [|injection H as <-; auto].
  do 2 inv_bind H. simpl in H. rewrite Hd in H. simpl in H. injection H as <-. auto.
Qed.

Lemma LRU_K_clean_page w page w' :
  LRU_K w page = Ret w' -> dirtyBit page = 0 ->
  trace w' = trace w /\ writeCount w' = writeCount w /\ blocks w' = blocks w.
Proof.
  unfold LRU_K. cbv zeta. intros H Hd.
  destruct (pageFile w); [|injection H as <-; auto].
  destruct (data page); [|injection H as <-; auto].
  do 2 inv_bind H. simpl in H. rewrite Hd in H. simpl in H. injection H as <-. auto.
Qed.

(** In a reachable world under LRU or LRU_K, pinPage for a page n >= 0
    that is in no frame of a pool without empty slot writes nothing,
    whatever the dirty bit of the frame it replaces: the trace grows by
    the read of n alone, and the write counter and the contents of the
    page store stay as they are. *)
Theorem pinPage_LRU_never_writes w a page n rc h w' :
  reachable w -> strategy w = RS_LRU \/ strategy w = RS_LRU_K ->
  0 <= n -> mgmtData w = Some a -> a <> [] ->
  (forall f, f ∈ a -> pageNum f <> -1 /\ pageNum f <> n) ->
  pinPage w page n = Ret (rc, h, w') ->
  trace w' = trace w ++ [EvRead n] /\
  getNumWriteIO w' = getNumWriteIO w /\ blocks w' = blocks w.
Proof.
  intros Hr Hs Hn Ha Hne Hall H.
  rewrite (pinPage_full_eq w a page n (reachable_Inv _ Hr) Hn Ha Hne Hall) in H.
  inv_bind H. injection H as _ _ <-. unfold policy in E.
  change (strategy (missWorld w n)) with (strategy w) in E.
  destruct Hs as [Hs|Hs]; rewrite Hs in E.
  - apply LRU_clean_page in E as (H1 & H2 & H3); [|reflexivity].
    rewrite H1, H3. unfold getNumWriteIO. rewrite H2. repeat split.
  - apply LRU_K_clean_page in E as (H1 & H2 & H3); [|reflexivity].
    rewrite H1, H3. unfold getNumWriteIO. rewrite H2. repeat split.
Qed.

Lemma pinPage_LRU_never_writes_witness :
  trace (worldAfter [CInit pf 1 RS_LRU; CPin 1; CMarkDirty 1; CUnpin 1; CPin 2])
  = trace (worldAfter [CInit pf 1 RS_LRU; CPin 1; CMarkDirty 1; CUnpin 1]) ++ [EvRead 2] /\
  getNumWriteIO (worldAfter [CInit pf 1 RS_LRU; CPin 1; CMarkDirty 1; CUnpin 1; CPin 2])
  = getNumWriteIO (worldAfter [CInit pf 1 RS_LRU; CPin 1; CMarkDirty 1; CUnpin 1]) /\
  blocks (worldAfter [CInit pf 1 RS_LRU; CPin 1; CMarkDirty 1; CUnpin 1; CPin 2])
  = blocks (worldAfter [CInit pf 1 RS_LRU; CPin 1; CMarkDirty 1; CUnpin 1]).
Proof.
  apply (pinPage_LRU_never_writes
           (worldAfter [CInit pf 1 RS_LRU; CPin 1; CMarkDirty 1; CUnpin 1])
           [mkFrame (Some [Byte.x01]) 1 1 0 0 0] (mkHandle 0 None) 2
           RC_OK (mkHandle 2 (Some [Byte.x02]))).
  - apply worldAfter_reachable.
  - left. reflexivity.
  - lia.
  - reflexivity.
  - discriminate.
  - intros f Hf. apply list_elem_of_singleton in Hf as ->. simpl. lia.
  - vm_compute. reflexivity.
Defined.

(** When LFU returns it has replaced one frame: the slot takes the page
    number, buffer, fix count and dirty bit of the incoming page and keeps
    the hitNum and the refNum of the page it held.  The old page is
    written to the page store, and the write counted, exactly when its
    dirty bit is 0. *)
Theorem LFU_effect w a page w' :
  mgmtData w = Some a -> LFU w page = Ret w' ->
  exists (k : nat) f,
    a !! k = Some f /\
    mgmtData w'
    = Some (<[k := mkFrame (data page) (pageNum page) (dirtyBit page) (fixCount page)
                           (hitNum f) (refNum f)]> a) /\
    trace w' = trace w ++ (if dirtyBit f =? 0 then [EvWrite (pageNum f) (data f)] else []) /\
    getNumWriteIO w' = getNumWriteIO w + (if dirtyBit f =? 0 then 1 else 0).
Proof.
  intros Ha H. unfold LFU, framesOf in H. rewrite Ha in H. simpl default in H.
  cbv zeta in H. do 2 inv_bind H. injection H as <-.
  pose proof E0 as Hf. apply frameAt_Ret in Hf as [Hx Hl].
  exists (Z.to_nat x), x0. split; [exact Hl|].
  unfold getNumWriteIO.
  destruct (dirtyBit x0 =? 0); simpl; repeat split; try lia.
  rewrite app_nil_r. reflexivity.
Qed.

Lemma LFU_effect_witness :
  exists (k : nat) f,
    [mkFrame (Some [Byte.x01]) 1 0 0 0 0] !! k = Some f /\
    mgmtData (worldAfter [CInit pf 1 RS_LFU; CPin 1; CUnpin 1; CPin 2])
    = Some (<[k := mkFrame (data (mkFrame (Some [Byte.x02]) 2 0 1 0 0))
                           (pageNum (mkFrame (Some [Byte.x02]) 2 0 1 0 0))
                           (dirtyBit (mkFrame (Some [Byte.x02]) 2 0 1 0 0))
                           (fixCount (mkFrame (Some [Byte.x02]) 2 0 1 0 0))
                           (hitNum f) (refNum f)]>
              [mkFrame (Some [Byte.x01]) 1 0 0 0 0]) /\
    trace (worldAfter [CInit pf 1 RS_LFU; CPin 1; CUnpin 1; CPin 2])
    = trace (missWorld (worldAfter [CInit pf 1 RS_LFU; CPin 1; CUnpin 1]) 2)
      ++ (if dirtyBit f =? 0 then [EvWrite (pageNum f) (data f)] else []) /\
    getNumWriteIO (worldAfter [CInit pf 1 RS_LFU; CPin 1; CUnpin 1; CPin 2])
    = getNumWriteIO (missWorld (worldAfter [CInit pf 1 RS_LFU; CPin 1; CUnpin 1]) 2)
      + (if dirtyBit f =? 0 then 1 else 0).
Proof.
  apply (LFU_effect (missWorld (worldAfter [CInit pf 1 RS_LFU; CPin 1; CUnpin 1]) 2)
           [mkFrame (Some [Byte.x01]) 1 0 0 0 0] (mkFrame (Some [Byte.x02]) 2 0 1 0 0)).
  - vm_compute. reflexivity.
  - vm_compute. reflexivity.
Defined.
